(** * The MongoDB adapter's similarity-search and deduplication engine

    A shallow embedding of [MongoDBDatabaseAdapter]: the Levenshtein engine
    with its reused scratch matrix, the cosine-similarity fallback, the
    hybrid scorer expressed as aggregation stages, the search orchestrator,
    the dedup gate of [createMemory] and the result cache.

    JavaScript numbers are IEEE-754 binary64 values, here [float]; strings
    are [string], with 8-bit characters where JavaScript has UTF-16 code
    units; arrays are lists; [null] and [undefined] are [None]. An
    asynchronous method is a function from the adapter's state to a
    completion (resolved or rejected) and the new state. *)

From Stdlib Require Import String Ascii ZArith Lia Bool.
From Stdlib Require Import Floats Sorted Permutation.
From stdpp Require Import base option list.

Set Warnings "-inexact-float,-register-all".

Open Scope string_scope.
Open Scope list_scope.
Open Scope nat_scope.

(** ** The Levenshtein engine *)

(** The scratch matrix [levenshteinMatrix : number[][]]. *)
Abbreviation Matrix := (list (list nat)).

(** The errors [calculateLevenshteinDistanceOptimized] throws. *)
Inductive LevError :=
| RowDimensionIncorrect (expected got : nat)
| RowUndefined (i : nat)
| RowEmpty (i : nat)
| ColumnDimensionIncorrect (expected got : nat).

(** The outcome of a computation over the scratch matrix: a value and the
    matrix it leaves, a thrown error and the matrix it leaves, or [Undef]
    where JavaScript would read an absent cell or leave a hole in a row
    (neither is representable in a matrix of numbers). *)
Inductive res (A : Type) :=
| Ok (a : A) (m : Matrix)
| Throw (e : LevError) (m : Matrix)
| Undef.
Arguments Ok {A} a m.
Arguments Throw {A} e m.
Arguments Undef {A}.

Definition bind {A B} (c : res A) (k : A -> Matrix -> res B) : res B :=
  match c with
  | Ok a m => k a m
  | Throw e m => Throw e m
  | Undef => Undef
  end.

(** [this.levenshteinMatrix[0]?.length || 0] *)
Definition row0_length (m : Matrix) : nat :=
  match m !! 0 with Some row => length row | None => 0 end.

(** [getLevenshteinMatrix(rows, cols)]: the cached matrix when it is large
    enough, else a new [rows] x [cols] matrix of zeros that replaces it. *)
Definition getLevenshteinMatrix (m : Matrix) (rows cols : nat) : Matrix :=
  if (length m <? rows)
     || ((0 <? length m) && (row0_length m <? cols))
     || ((length m =? 0) && (0 <? cols))
  then replicate rows (replicate cols 0)
  else m.

(** [matrix[i][j]] *)
Definition mget (m : Matrix) (i j : nat) : option nat :=
  match m !! i with Some row => row !! j | None => None end.

(** [row[j] = v]: overwrites a cell, or appends when [j] is the length. *)
Definition row_set (row : list nat) (j v : nat) : option (list nat) :=
  if j <? length row then Some (<[j := v]> row)
  else if j =? length row then Some (row ++ [v])
  else None.

(** [matrix[i][j] = v] *)
Definition mset (m : Matrix) (i j v : nat) : res unit :=
  match m !! i with
  | Some row =>
      match row_set row j v with
      | Some row' => Ok tt (<[i := row']> m)
      | None => Undef
      end
  | None => Undef
  end.

(** [for (let i = start; i < start + count; i++) body(i)] *)
Fixpoint for_range (start count : nat) (body : nat -> Matrix -> res unit)
    (m : Matrix) : res unit :=
  match count with
  | 0 => Ok tt m
  | S c =>
      match body start m with
      | Ok _ m' => for_range (S start) c body m'
      | other => other
      end
  end.

(** [str[i]], [None] for [undefined]. *)
Definition char_at (s : string) (i : nat) : option ascii := String.get i s.

Definition char_eqb (a b : option ascii) : bool :=
  match a, b with
  | Some x, Some y => Ascii.eqb x y
  | None, None => true
  | _, _ => false
  end.

(** The body of the first-column loop: the two defensive checks, then
    [matrix[i][0] = i]. *)
Definition init_column_body (expectedCols : nat) (i : nat) (m : Matrix)
    : res unit :=
  match m !! i with
  | None => Throw (RowUndefined i) m
  | Some row =>
      if (length row <? 1) && (0 <? expectedCols) then Throw (RowEmpty i) m
      else mset m i 0 i
  end.

(** The body of the inner loop of the distance computation. *)
Definition fill_body (str1 str2 : string) (i j : nat) (m : Matrix)
    : res unit :=
  if char_eqb (char_at str1 (i - 1)) (char_at str2 (j - 1)) then
    match mget m (i - 1) (j - 1) with
    | Some d => mset m i j d
    | None => Undef
    end
  else
    match mget m (i - 1) (j - 1), mget m i (j - 1), mget m (i - 1) j with
    | Some sub, Some ins, Some del =>
        mset m i j (Nat.min (sub + 1) (Nat.min (ins + 1) (del + 1)))
    | _, _, _ => Undef
    end.

(** The part of [calculateLevenshteinDistanceOptimized] that works on the
    scratch matrix, once [str1] is the shorter string: obtain the matrix,
    validate it, write the base column and row, fill the table, read the
    last entry. *)
Definition distance_on_matrix (mat : Matrix) (str1 str2 : string) : res nat :=
  let matrix :=
    getLevenshteinMatrix mat (String.length str1 + 1) (String.length str2 + 1) in
  let expectedRows := String.length str1 + 1 in
  let expectedCols := String.length str2 + 1 in
  if length matrix <? expectedRows then
    Throw (RowDimensionIncorrect expectedRows (length matrix)) matrix
  else
    bind (for_range 0 (String.length str1 + 1)
            (init_column_body expectedCols) matrix) (fun _ matrix =>
    match matrix !! 0 with
    | None => Throw (RowUndefined 0) matrix
    | Some row0 =>
        if length row0 <? expectedCols then
          Throw (ColumnDimensionIncorrect expectedCols (length row0)) matrix
        else
          bind (for_range 0 (String.length str2 + 1)
                  (fun j m => mset m 0 j j) matrix) (fun _ matrix =>
          bind (for_range 1 (String.length str1)
                  (fun i => for_range 1 (String.length str2)
                              (fill_body str1 str2 i)) matrix)
               (fun _ matrix =>
          match mget matrix (String.length str1) (String.length str2) with
          | Some d => Ok d matrix
          | None => Undef
          end))
    end).

(** [calculateLevenshteinDistanceOptimized(str1, str2)] run on the adapter
    whose scratch matrix is [mat]: the early returns, the swap that makes
    [str1] the shorter string, then the table. *)
Definition calculateLevenshteinDistanceOptimized (mat : Matrix)
    (str1 str2 : string) : res nat :=
  if String.eqb str1 str2 then Ok 0 mat
  else if String.length str1 =? 0 then Ok (String.length str2) mat
  else if String.length str2 =? 0 then Ok (String.length str1) mat
  else if String.length str2 <? String.length str1
       then distance_on_matrix mat str2 str1
       else distance_on_matrix mat str1 str2.

(** *** The textbook table *)

(** Entry [(i, j)] of the classic dynamic-programming table for [s] and
    [t], with unit-cost deletion, insertion and substitution: it depends on
    the two strings only. *)
Fixpoint textbook_table (s t : string) (i : nat) : nat -> nat :=
  match i with
  | 0 => fun j => j
  | S i' =>
      fix row (j : nat) : nat :=
        match j with
        | 0 => S i'
        | S j' =>
            Nat.min (textbook_table s t i' (S j') + 1)
              (Nat.min (row j' + 1)
                 (textbook_table s t i' j'
                  + (if char_eqb (char_at s i') (char_at t j') then 0 else 1)))
        end
  end.

(** The textbook edit distance: the last entry of a table computed from
    scratch. *)
Definition textbook_levenshtein (s t : string) : nat :=
  textbook_table s t (String.length s) (String.length t).

(** The value a completed call returns, [None] when it throws. *)
Definition returned {A} (r : res A) : option A :=
  match r with Ok a _ => Some a | _ => None end.

(** The scratch matrix a call leaves behind. *)
Definition matrix_after {A} (before : Matrix) (r : res A) : Matrix :=
  match r with Ok _ m => m | Throw _ m => m | Undef => before end.

(** The matrices the adapter can hold: the empty initial one, and the one
    left by a call of the engine on a reachable one. *)
Inductive reachable : Matrix -> Prop :=
| reachable_init : reachable []
| reachable_call m a b :
    reachable m ->
    reachable (matrix_after m (calculateLevenshteinDistanceOptimized m a b)).


(** *** Invariants of the scratch matrix *)

(** A matrix with at least [rows] rows, all of one length, at least [cols]. *)
Definition shaped (rows cols : nat) (m : Matrix) : Prop :=
  rows <= length m /\
  exists c, cols <= c /\ Forall (fun row => length row = c) m.

(** All rows of the matrix have one length. *)
Definition uniform (m : Matrix) : Prop :=
  exists c, Forall (fun row => length row = c) m.

(** The cells of region [P] hold the entries of the textbook table of [s]
    and [t]. *)
Definition known (s t : string) (P : nat -> nat -> Prop) (m : Matrix) : Prop :=
  forall i j, P i j -> mget m i j = Some (textbook_table s t i j).

(** Whether a call gets past the early returns and works on the matrix. *)
Definition uses_matrix (str1 str2 : string) : bool :=
  negb (String.eqb str1 str2)
  && negb (String.length str1 =? 0) && negb (String.length str2 =? 0).

(** The dimensions such a call asks [getLevenshteinMatrix] for: one more
    than the length of the shorter string, and of the longer one. *)
Definition required_rows (str1 str2 : string) : nat :=
  Nat.min (String.length str1) (String.length str2) + 1.
Definition required_cols (str1 str2 : string) : nat :=
  Nat.max (String.length str1) (String.length str2) + 1.

(** The scratch matrix after a sequence of calls, oldest first. *)
Fixpoint matrix_after_calls (m : Matrix) (calls : list (string * string))
    : Matrix :=
  match calls with
  | [] => m
  | (a, b) :: rest =>
      matrix_after_calls
        (matrix_after m (calculateLevenshteinDistanceOptimized m a b)) rest
  end.

(** ** JavaScript values, strings and numbers *)

(** The values a [content] payload is made of. [JUndefined] also stands
    for a missing field of a stored document. *)
Inductive JSValue :=
| JUndefined
| JNull
| JBool (b : bool)
| JStr (s : string)
| JObj (fields : list (string * JSValue)).

(** The first binding of [key] in the fields of an object. *)
Fixpoint field (key : string) (fields : list (string * JSValue)) : JSValue :=
  match fields with
  | [] => JUndefined
  | (k, v) :: rest => if String.eqb k key then v else field key rest
  end.

(** [v[key]]: a [TypeError] ([None]) on [undefined] and [null]; on a
    boolean or a string every key read here is [undefined]. *)
Definition js_get (v : JSValue) (key : string) : option JSValue :=
  match v with
  | JUndefined | JNull => None
  | JObj fields => Some (field key fields)
  | JBool _ | JStr _ => Some JUndefined
  end.

(** The field path ["$a.b"] of an aggregation expression: missing when a
    step does not go through an object. *)
Fixpoint bson_path (v : JSValue) (path : list string) : JSValue :=
  match path with
  | [] => v
  | key :: rest =>
      match v with
      | JObj fields => bson_path (field key fields) rest
      | _ => JUndefined
      end
  end.

(** [{ content: c, ...c }] *)
Definition spread_with_content (c : JSValue) : JSValue :=
  match c with
  | JObj fields => JObj (fields ++ [("content", c)])
  | _ => JObj [("content", c)]
  end.

(** The lower-case form of a character in the store's [$toLower], which
    changes the letters [A]-[Z] only. *)
Definition lower_ascii (c : ascii) : ascii :=
  let n := nat_of_ascii c in
  if (65 <=? n) && (n <=? 90) then ascii_of_nat (n + 32) else c.

(** The lower-case form of a character in JavaScript's [toLowerCase], for
    the code units below 256: the capitals are [A]-[Z] (65-90), and
    [U+00C0]-[U+00DE] (192-222) without the multiplication sign (215); the
    lower-case form of each is 32 above it. *)
Definition lower_latin1 (c : ascii) : ascii :=
  let n := nat_of_ascii c in
  if ((65 <=? n) && (n <=? 90))
     || ((192 <=? n) && (n <=? 222) && negb (n =? 215))
  then ascii_of_nat (n + 32) else c.

(** [s.toLowerCase()], on 8-bit characters. *)
Fixpoint toLowerCase (s : string) : string :=
  match s with
  | EmptyString => EmptyString
  | String c rest => String (lower_latin1 c) (toLowerCase rest)
  end.

(** [$toLower] on a string, on 8-bit characters. *)
Fixpoint bson_lower (s : string) : string :=
  match s with
  | EmptyString => EmptyString
  | String c rest => String (lower_ascii c) (bson_lower rest)
  end.

(** Whether [s] contains [sub] as a substring. *)
Fixpoint contains (sub s : string) : bool :=
  String.prefix sub s
  || match s with
     | EmptyString => false
     | String _ rest => contains sub rest
     end.

Definition is_space (c : ascii) : bool :=
  let n := nat_of_ascii c in (n =? 32) || ((9 <=? n) && (n <=? 13)).

(** [s.split(/\s+/)] *)
Fixpoint split_spaces (s : string) (word : string) (in_gap : bool)
    : list string :=
  match s with
  | EmptyString => [word]
  | String c rest =>
      if is_space c then
        if in_gap then split_spaces rest word true
        else word :: split_spaces rest EmptyString true
      else split_spaces rest (word ++ String c EmptyString)%string false
  end.

(** [words.join(" ")] *)
Fixpoint join_spaces (words : list string) : string :=
  match words with
  | [] => EmptyString
  | [w] => w
  | w :: rest => (w ++ " " ++ join_spaces rest)%string
  end.

(** A [createdAt] value: a [Date], a number of milliseconds, a string, or
    the [NaN] that [Date.parse] gives for a string it cannot read. *)
Inductive Timestamp :=
| TsDate (ms : Z)
| TsNumber (ms : Z)
| TsString (s : string)
| TsNaN.

(** *** Numbers *)

(** [Math.sqrt(arr.reduce((sum, val) => sum + val * val, 0))] *)
Definition magnitude (arr : list float) : float :=
  PrimFloat.sqrt (fold_left (fun sum val => (sum + val * val)%float) arr 0%float).

(** [aArr.reduce((sum, val, i) => sum + val * bArr[i], 0)]; an absent
    [bArr[i]] is [undefined], and the product is then [NaN]. *)
Definition dotProduct (aArr bArr : list float) : float :=
  fst (fold_left
         (fun '(sum, i) val => ((sum + val * nth i bArr PrimFloat.nan)%float, S i))
         aArr (0%float, 0)).

(** [cosineSimilarity(a, b)] on two arrays. *)
Definition cosineSimilarity (a b : list float) : float :=
  (dotProduct a b / (magnitude a * magnitude b))%float.

(** A numeric comparison of a [$match] stage: as in IEEE-754, except that
    [NaN] is equal to [NaN]. *)
Definition bson_gte (x y : float) : bool :=
  if PrimFloat.is_nan x && PrimFloat.is_nan y then true else (y <=? x)%float.
Definition bson_gt (x y : float) : bool := (y <? x)%float.

(** The order of a [$sort] stage on a computed numeric field: a missing or
    null value sorts below every number, and [NaN] below every other
    number. [sort_leb x y] holds when [x] sorts no higher than [y]. *)
Definition sort_leb (x y : option float) : bool :=
  match x, y with
  | None, _ => true
  | Some _, None => false
  | Some a, Some b =>
      if PrimFloat.is_nan a then true
      else if PrimFloat.is_nan b then false
      else (a <=? b)%float
  end.

(** A stable sort by insertion: [x] stays in front of [y] unless [before
    x y] is false. *)
Fixpoint insert_by {A} (before : A -> A -> bool) (x : A) (l : list A) : list A :=
  match l with
  | [] => [x]
  | y :: rest => if before x y then x :: l else y :: insert_by before x rest
  end.

Definition sort_by {A} (before : A -> A -> bool) (l : list A) : list A :=
  foldr (insert_by before) [] l.

(** ** Documents, the backing store and the adapter *)

Inductive Collection := Memories | Knowledge | Cache.

(** A document of the [memories] collection. *)
Record MemoryDoc := {
  m_id : string;
  m_type : string;
  m_content : JSValue;
  m_embedding : option (list float);
  m_userId : string;
  m_roomId : string;
  m_agentId : string;
  m_unique : bool;
  m_createdAt : Timestamp;
}.

(** The [Memory] a caller hands to [createMemory]. *)
Record Memory := {
  id : option string;
  userId : string;
  agentId : string;
  roomId : string;
  content : JSValue;
  embedding : option (list float);
  createdAt : option Z;
}.

(** A memory as the search methods return it; the fallback path adds the
    [similarity] field. *)
Record MemoryHit := {
  hit : MemoryDoc;
  similarity : option float;
}.

(** [KnowledgeDocument] *)
Record KnowledgeDoc := {
  k_id : string;
  k_agentId : option string;
  k_content : JSValue;
  k_embedding : option (list float);
  k_createdAt : Timestamp;
  k_isMain : bool;
  k_originalId : option string;
  k_chunkIndex : option nat;
  k_isShared : bool;
}.

(** A knowledge document with the fields the scoring stages add. A score
    is [None] when the field is missing or null. *)
Record ScoredKnowledge := {
  sk_doc : KnowledgeDoc;
  vectorScore : option float;
  keywordScore : float;
  combinedScore : option float;
}.

(** [RAGKnowledgeItem], as [searchKnowledge] builds it. *)
Record RAGKnowledgeItem := {
  r_id : string;
  r_agentId : option string;
  r_content : JSValue;
  r_embedding : option (list float);
  r_createdAt : Timestamp;
  r_similarity : float;
}.

(** A document of the [cache] collection; times in milliseconds. *)
Record CacheEntry := {
  c_key : string;
  c_agentId : string;
  c_value : string;
  c_createdAt : Z;
  c_expiresAt : Z;
}.

(** An element of the array [getCachedEmbeddings] returns: a scored record,
    or the empty array its per-document handler returns. *)
Inductive CachedEmbedding :=
| Scored (embedding : option (list float)) (levenshtein_score : nat)
| EmptyArray.

(** The requests the adapter sends to the store. [ListIndexes] and
    [CreateIndex] are the listings and the [createIndex] calls of
    [initializeStandardIndexes]; [VectorSearch] is an aggregation whose
    first stage is the native vector search; [TextSearch] one whose first
    stage is the text search; [Aggregate] one without a search stage. *)
Inductive Op :=
| Connect
| ListIndexes
| CreateIndex
| ServerStatus
| CreateVectorIndex
| ShardingProbe
| VectorSearch (c : Collection)
| TextSearch
| Find (c : Collection)
| Aggregate (c : Collection)
| InsertOne (d : MemoryDoc)
| FindOne (c : Collection)
| UpdateOne (c : Collection).

(** What a call can throw. [OutsideModel] marks a step of
    [getCachedEmbeddings] whose JavaScript behaviour this development does
    not represent. *)
Inductive Error :=
| StoreError (op : Op)
| TypeError
| SyntaxError
| DivideByZero
| ConversionError
| LevenshteinError (e : LevError)
| OutsideModel.

(** What the adapter does that is visible from outside: a request sent to
    the store, an error written to the log. *)
Inductive Event :=
| Issued (op : Op)
| Logged (e : Error).

(** The store: its collections, its clock, the requests that fail, what its
    status probes answer, the next identifier [v4()] yields, and whether
    every index [initializeStandardIndexes] asks for exists. *)
Record Store := {
  memories : list MemoryDoc;
  knowledge : list KnowledgeDoc;
  cache : list CacheEntry;
  now : Z;
  fails : Op -> bool;
  vectorSearchSupported : bool;
  sharded : bool;
  next_uuid : string;
  standardIndexes : bool;
}.

(** Functions of the runtime and of the store that the adapter calls and
    does not define. [JSON_parse] and [JSON_parse_items] are [None] where
    [JSON.parse] throws; [Date_parse] is [None] where [Date.parse] gives
    [NaN]; [fround] rounds a number to a [Float32Array] element;
    [RegExp_valid pattern] tells whether [new RegExp(pattern)] succeeds and
    [regexMatch pattern input] whether the expression matches somewhere in
    [input]; [vectorIndexMemories query numCandidates limit] and
    [vectorIndexKnowledge query numCandidates limit] are the answer of the
    vector-search stage over a collection, and [textIndexMemories query
    paths type] that of the text-search stage. *)
Record Runtime := {
  JSON_parse : string -> option JSValue;
  JSON_stringify_items : list RAGKnowledgeItem -> string;
  JSON_parse_items : string -> option (list RAGKnowledgeItem);
  Date_parse : string -> option Z;
  fround : float -> float;
  RegExp_valid : string -> bool;
  regexMatch : string -> string -> bool;
  removeStopwords : list string -> list string;
  vectorIndexMemories :
    list float -> nat -> option nat -> list MemoryDoc -> list MemoryDoc;
  vectorIndexKnowledge :
    list float -> nat -> nat -> list KnowledgeDoc -> list (KnowledgeDoc * float);
  textIndexMemories :
    string -> list string -> string -> list MemoryDoc -> list MemoryDoc;
}.

(** The adapter instance. [events] records, oldest first, what it has sent
    and logged. *)
Record Adapter := {
  hasVectorSearch : bool;
  isConnected : bool;
  isVectorSearchIndexComputable : bool;
  levenshteinMatrix : Matrix;
  database : Store;
  events : list Event;
}.

(** [new MongoDBDatabaseAdapter(client, databaseName)] *)
Definition new_adapter (db : Store) : Adapter :=
  {| hasVectorSearch := false;
     isConnected := false;
     isVectorSearchIndexComputable := true;
     levenshteinMatrix := [];
     database := db;
     events := [] |}.

(** *** Asynchronous methods *)

Inductive Completion (A : Type) :=
| Resolved (a : A)
| Rejected (e : Error).
Arguments Resolved {A} a.
Arguments Rejected {A} e.

(** A method: from the adapter's state to a completion and the new state. *)
Definition M (A : Type) : Type := Adapter -> Completion A * Adapter.

Definition retM {A} (a : A) : M A := fun st => (Resolved a, st).

Definition throwM {A} (e : Error) : M A := fun st => (Rejected e, st).

Definition bindM {A B} (c : M A) (k : A -> M B) : M B :=
  fun st =>
    match c st with
    | (Resolved a, st') => k a st'
    | (Rejected e, st') => (Rejected e, st')
    end.

Notation "'let!' x ':=' c 'in' k" := (bindM c (fun x => k))
  (at level 10, x name, c at level 100, k at level 200).
Notation "'run!' c 'in' k" := (bindM c (fun _ => k))
  (at level 10, c at level 100, k at level 200).

(** [try { c } catch (e) { handler(e) }] *)
Definition try_catch {A} (c : M A) (handler : Error -> M A) : M A :=
  fun st =>
    match c st with
    | (Rejected e, st') => handler e st'
    | done => done
    end.

(** The same, where [c] can be [OutsideModel]: no handler runs then. *)
Definition try_catch_modelled {A} (c : M A) (handler : Error -> M A) : M A :=
  fun st =>
    match c st with
    | (Rejected OutsideModel, st') => (Rejected OutsideModel, st')
    | (Rejected e, st') => handler e st'
    | done => done
    end.

(** A completion that touches no state, lifted to a method. *)
Definition liftC {A} (c : Completion A) : M A := fun st => (c, st).

Definition getM : M Adapter := fun st => (Resolved st, st).

(** The adapter with one of its fields replaced. *)
Definition with_events (evs : list Event) (st : Adapter) : Adapter :=
  {| hasVectorSearch := hasVectorSearch st;
     isConnected := isConnected st;
     isVectorSearchIndexComputable := isVectorSearchIndexComputable st;
     levenshteinMatrix := levenshteinMatrix st;
     database := database st;
     events := evs |}.

Definition with_database (db : Store) (st : Adapter) : Adapter :=
  {| hasVectorSearch := hasVectorSearch st;
     isConnected := isConnected st;
     isVectorSearchIndexComputable := isVectorSearchIndexComputable st;
     levenshteinMatrix := levenshteinMatrix st;
     database := db;
     events := events st |}.

Definition with_matrix (m : Matrix) (st : Adapter) : Adapter :=
  {| hasVectorSearch := hasVectorSearch st;
     isConnected := isConnected st;
     isVectorSearchIndexComputable := isVectorSearchIndexComputable st;
     levenshteinMatrix := m;
     database := database st;
     events := events st |}.

Definition with_flags (connected hasVector computable : bool) (st : Adapter)
    : Adapter :=
  {| hasVectorSearch := hasVector;
     isConnected := connected;
     isVectorSearchIndexComputable := computable;
     levenshteinMatrix := levenshteinMatrix st;
     database := database st;
     events := events st |}.

(** The store with its [memories] or its [cache] replaced. *)
Definition with_memories (l : list MemoryDoc) (db : Store) : Store :=
  {| memories := l; knowledge := knowledge db; cache := cache db;
     now := now db; fails := fails db;
     vectorSearchSupported := vectorSearchSupported db;
     sharded := sharded db; next_uuid := next_uuid db;
     standardIndexes := standardIndexes db |}.

Definition with_cache (l : list CacheEntry) (db : Store) : Store :=
  {| memories := memories db; knowledge := knowledge db; cache := l;
     now := now db; fails := fails db;
     vectorSearchSupported := vectorSearchSupported db;
     sharded := sharded db; next_uuid := next_uuid db;
     standardIndexes := standardIndexes db |}.

(** The store once every standard index exists, or not. *)
Definition with_standardIndexes (b : bool) (db : Store) : Store :=
  {| memories := memories db; knowledge := knowledge db; cache := cache db;
     now := now db; fails := fails db;
     vectorSearchSupported := vectorSearchSupported db;
     sharded := sharded db; next_uuid := next_uuid db;
     standardIndexes := b |}.

Definition record_all (evs : list Event) : M unit :=
  fun st => (Resolved tt, with_events (events st ++ evs) st).

Definition record (ev : Event) : M unit := record_all [ev].

(** [console.log], [console.error], [elizaLogger.error] of a caught error. *)
Definition logError (e : Error) : M unit := record (Logged e).

(** A request to the store: recorded, and thrown when the store fails it. *)
Definition issue (op : Op) : M unit :=
  run! record (Issued op) in
  let! st := getM in
  if fails (database st) op then throwM (StoreError op) else retM tt.

Definition set_database (db : Store) : M unit :=
  fun st => (Resolved tt, with_database db st).

Definition set_matrix (m : Matrix) : M unit :=
  fun st => (Resolved tt, with_matrix m st).

Definition set_flags (connected hasVector computable : bool) : M unit :=
  fun st => (Resolved tt, with_flags connected hasVector computable st).

(** [list.map(f)] where [f] can throw: the first throw ends the map. *)
Fixpoint mapC {A B} (f : A -> Completion B) (l : list A) : Completion (list B) :=
  match l with
  | [] => Resolved []
  | x :: rest =>
      match f x with
      | Rejected e => Rejected e
      | Resolved y =>
          match mapC f rest with
          | Rejected e => Rejected e
          | Resolved ys => Resolved (y :: ys)
          end
      end
  end.

(** ** The adapter's methods *)

Section Methods.
Variable E : Runtime.

(** *** Connection *)

(** The branches of [initializeVectorSearch] that give up on native search;
    [createStandardEmbeddingIndexes] swallows its own failures. *)
Definition disableVectorSearch : M unit :=
  let! st := getM in
  set_flags (isConnected st) false false.

Definition initializeVectorSearch : M unit :=
  try_catch
    (run! issue ServerStatus in
     let! st := getM in
     if vectorSearchSupported (database st) && isVectorSearchIndexComputable st
     then
       try_catch
         (run! issue CreateVectorIndex in
          let! st := getM in
          run! set_flags (isConnected st) true (isVectorSearchIndexComputable st) in
          run! issue ShardingProbe in
          let! st := getM in
          if sharded (database st) then disableVectorSearch else retM tt)
         (fun e => run! logError e in disableVectorSearch)
     else disableVectorSearch)
    (fun e => run! logError e in disableVectorSearch).

(** [initializeStandardIndexes()]: the index listings, then a
    [createIndex] for the standard indexes the listings lack; neither
    request is guarded. *)
Definition initializeStandardIndexes : M unit :=
  run! issue ListIndexes in
  let! st := getM in
  if standardIndexes (database st) then retM tt
  else
    run! issue CreateIndex in
    let! st := getM in
    set_database (with_standardIndexes true (database st)).

(** [init()]: creating collections and enabling sharding swallow their
    failures; connecting, and listing and creating the standard indexes,
    do not. *)
Definition init : M unit :=
  let! st := getM in
  if isConnected st then retM tt
  else
    try_catch
      (run! issue Connect in
       run! initializeStandardIndexes in
       run! initializeVectorSearch in
       let! st := getM in
       set_flags true (hasVectorSearch st) (isVectorSearchIndexComputable st))
      (fun e =>
         let! st := getM in
         run! set_flags false (hasVectorSearch st) false in
         run! logError e in
         throwM e).

Definition ensureConnection : M unit :=
  let! st := getM in
  if isConnected st then retM tt else init.

(** *** Memories *)

(** Whether a string is truthy. *)
Definition truthy (s : string) : bool := negb (String.eqb s "").

(** The equality filter the memory searches build: [type], and each of
    [roomId], [agentId] and [unique: true] when it is part of the filter. *)
Record MemoryQuery := {
  q_type : string;
  q_roomId : option string;
  q_agentId : option string;
  q_unique : bool;
}.

Definition matches_query (q : MemoryQuery) (d : MemoryDoc) : bool :=
  String.eqb (m_type d) (q_type q)
  && match q_roomId q with Some r => String.eqb (m_roomId d) r | None => true end
  && match q_agentId q with Some a => String.eqb (m_agentId d) a | None => true end
  && (if q_unique q then m_unique d else true).

(** [x && { field: x }] for an optional string parameter. *)
Definition when_truthy (x : option string) : option string :=
  match x with
  | Some s => if truthy s then Some s else None
  | None => None
  end.

(** The [createdAt] and [content] normalisation every search applies to a
    returned document; [JSON.parse] can throw. *)
Definition normalize_createdAt (t : Timestamp) : Timestamp :=
  match t with
  | TsString s =>
      match Date_parse E s with Some ms => TsNumber ms | None => TsNaN end
  | other => other
  end.

Definition normalize_content (c : JSValue) : Completion JSValue :=
  match c with
  | JStr s =>
      match JSON_parse E s with
      | Some v => Resolved v
      | None => Rejected SyntaxError
      end
  | other => Resolved other
  end.

Definition normalize_memory (sim : option float) (d : MemoryDoc)
    : Completion MemoryHit :=
  match normalize_content (m_content d) with
  | Rejected e => Rejected e
  | Resolved c =>
      Resolved
        {| hit := {| m_id := m_id d; m_type := m_type d; m_content := c;
                     m_embedding := m_embedding d; m_userId := m_userId d;
                     m_roomId := m_roomId d; m_agentId := m_agentId d;
                     m_unique := m_unique d;
                     m_createdAt := normalize_createdAt (m_createdAt d) |};
           similarity := sim |}
  end.

(** [{ ...memory, similarity: this.cosineSimilarity(params.embedding,
    memory.embedding) }]; [Array.from] throws on a null embedding. *)
Definition with_similarity (query : list float) (d : MemoryDoc)
    : Completion (MemoryDoc * float) :=
  match m_embedding d with
  | Some e => Resolved (d, cosineSimilarity query e)
  | None => Rejected TypeError
  end.

(** The comparator [(a, b) => b.similarity - a.similarity]: [a] stays in
    front of [b] unless the difference is positive. *)
Definition by_similarity_desc (a b : MemoryDoc * float) : bool :=
  negb (0 <? snd b - snd a)%float.

(** [params.limit || 10] *)
Definition limit_or_10 (limit : nat) : nat :=
  if limit =? 0 then 10 else limit.

Definition searchMemoriesFallback (emb : list float) (query : MemoryQuery)
    (limit : nat) : M (list MemoryHit) :=
  run! ensureConnection in
  run! issue (Find Memories) in
  let! st := getM in
  let found :=
    take (limit_or_10 limit) (List.filter (matches_query query)
                                (memories (database st))) in
  let! scored := liftC (mapC (with_similarity emb) found) in
  liftC (mapC (fun p => normalize_memory (Some (snd p)) (fst p))
           (sort_by by_similarity_desc scored)).

(** The parameters of [searchMemories]. *)
Record SearchMemoriesParams := {
  sm_tableName : string;
  sm_roomId : string;
  sm_agentId : option string;
  sm_embedding : list float;
  sm_match_threshold : float;
  sm_match_count : nat;
  sm_unique : bool;
}.

Definition searchMemories (params : SearchMemoriesParams) : M (list MemoryHit) :=
  run! ensureConnection in
  let query :=
    {| q_type := sm_tableName params;
       q_roomId := Some (sm_roomId params);
       q_agentId := when_truthy (sm_agentId params);
       q_unique := sm_unique params |} in
  let! st := getM in
  if hasVectorSearch st then
    try_catch
      (run! issue (VectorSearch Memories) in
       let! st := getM in
       let found :=
         List.filter (matches_query query)
           (vectorIndexMemories E (map (fround E) (sm_embedding params))
              (sm_match_count params * 2) (Some (sm_match_count params))
              (memories (database st))) in
       liftC (mapC (normalize_memory None) found))
      (fun e =>
         run! logError e in
         searchMemoriesFallback (sm_embedding params) query (sm_match_count params))
  else
    searchMemoriesFallback (sm_embedding params) query (sm_match_count params).

(** The parameters of [searchMemoriesByEmbedding]. *)
Record SearchByEmbeddingParams := {
  se_match_threshold : option float;
  se_count : option nat;
  se_roomId : option string;
  se_agentId : string;
  se_unique : option bool;
  se_tableName : string;
}.

Definition searchMemoriesByEmbedding (emb : list float)
    (params : SearchByEmbeddingParams) : M (list MemoryHit) :=
  run! ensureConnection in
  run! issue (VectorSearch Memories) in
  let! st := getM in
  let query :=
    {| q_type := se_tableName params;
       q_roomId := when_truthy (se_roomId params);
       q_agentId := Some (se_agentId params);
       q_unique := match se_unique params with Some b => b | None => false end |} in
  let found :=
    List.filter (matches_query query)
      (vectorIndexMemories E emb
         (match se_count params with Some c => c | None => 10 end * 2)
         (se_count params) (memories (database st))) in
  liftC (mapC (normalize_memory None) found).

(** [insertOne] on the [memories] collection. *)
Definition insertMemory (d : MemoryDoc) : M unit :=
  run! issue (InsertOne d) in
  let! st := getM in
  set_database (with_memories (memories (database st) ++ [d]) (database st)).

(** The parameters of the similarity search [createMemory] runs. *)
Definition dedup_search (memory : Memory) (tableName : string) (emb : list float)
    : SearchMemoriesParams :=
  {| sm_tableName := tableName;
     sm_roomId := roomId memory;
     sm_agentId := Some (agentId memory);
     sm_embedding := emb;
     sm_match_threshold := 0.95%float;
     sm_match_count := 1;
     sm_unique := true |}.

(** The document [createMemory] inserts. *)
Definition memory_document (memory : Memory) (tableName : string)
    (isUnique : bool) (db : Store) : MemoryDoc :=
  {| m_id := match id memory with Some i => i | None => next_uuid db end;
     m_type := tableName;
     m_content := spread_with_content (content memory);
     m_embedding := embedding memory;
     m_userId := userId memory;
     m_roomId := roomId memory;
     m_agentId := agentId memory;
     m_unique := isUnique;
     m_createdAt :=
       TsDate (match createdAt memory with Some t => t | None => now db end) |}.

Definition createMemory (memory : Memory) (tableName : string) : M unit :=
  run! ensureConnection in
  try_catch
    (let! isUnique :=
       match embedding memory with
       | Some emb =>
           let! similarMemories := searchMemories (dedup_search memory tableName emb) in
           retM (length similarMemories =? 0)
       | None => retM true
       end in
     let! st := getM in
     insertMemory (memory_document memory tableName isUnique (database st)))
    (fun e => logError e).

(** *** Cached embeddings *)

(** [sanitizeQuery(input)] *)
Definition sanitizeQuery (input : string) : string :=
  join_spaces (removeStopwords E (split_spaces (toLowerCase input) "" false)).

(** The parameters of [getCachedEmbeddings]. *)
Record CachedEmbeddingsOpts := {
  query_table_name : string;
  query_threshold : float;
  query_input : string;
  query_field_name : string;
  query_field_sub_name : string;
  query_match_count : nat;
}.

(** The callback of the [map] in [getCachedEmbeddings], with its own
    [try]/[catch]: the element it yields and the scratch matrix it leaves,
    or [None] where the field is neither a string nor absent. *)
Definition score_memory (opts : CachedEmbeddingsOpts) (mat : Matrix)
    (memory : MemoryDoc) : option (CachedEmbedding * Matrix * list Event) :=
  match js_get (m_content memory) (query_field_name opts) with
  | None => Some (EmptyArray, mat, [Logged TypeError])
  | Some inner =>
      match js_get inner (query_field_sub_name opts) with
      | None => Some (EmptyArray, mat, [Logged TypeError])
      | Some (JStr s) =>
          match calculateLevenshteinDistanceOptimized mat (query_input opts) s with
          | Ok d mat' => Some (Scored (m_embedding memory) d, mat', [])
          | Throw e mat' => Some (EmptyArray, mat', [Logged (LevenshteinError e)])
          | Undef => None
          end
      | Some JUndefined | Some JNull =>
          Some (EmptyArray, mat, [Logged TypeError])
      | Some _ => None
      end
  end.

Fixpoint score_memories (opts : CachedEmbeddingsOpts) (mat : Matrix)
    (docs : list MemoryDoc) : option (list CachedEmbedding * Matrix * list Event) :=
  match docs with
  | [] => Some ([], mat, [])
  | d :: rest =>
      match score_memory opts mat d with
      | None => None
      | Some (x, mat', evs) =>
          match score_memories opts mat' rest with
          | None => None
          | Some (xs, mat'', evs') => Some (x :: xs, mat'', evs ++ evs')
          end
      end
  end.

(** The comparator of [getCachedEmbeddings]: [a] stays in front of [b]
    unless [a.levenshtein_score > b.levenshtein_score]; a comparison with
    the [undefined] score of an empty array is false. *)
Definition by_levenshtein_score (a b : CachedEmbedding) : bool :=
  match a, b with
  | Scored _ x, Scored _ y => negb (y <? x)
  | _, _ => true
  end.

Definition getCachedEmbeddings (opts : CachedEmbeddingsOpts)
    : M (list CachedEmbedding) :=
  run! ensureConnection in
  try_catch_modelled
    (run! issue TextSearch in
     let! st := getM in
     let found :=
       take (query_match_count opts * 2)
         (textIndexMemories E (sanitizeQuery (query_input opts))
            [("content." ++ query_field_name opts ++ "." ++ query_field_sub_name opts)%string;
             "content.text"]
            (query_table_name opts) (memories (database st))) in
     match score_memories opts (levenshteinMatrix st) found with
     | None => throwM OutsideModel
     | Some (scored, mat, evs) =>
         run! set_matrix mat in
         run! record_all evs in
         retM (take (query_match_count opts) (sort_by by_levenshtein_score scored))
     end)
    (fun e => run! logError e in retM []).

(** *** The result cache *)

(** [24 * 60 * 60 * 1000] *)
Definition cache_ttl : Z := (24 * 60 * 60 * 1000)%Z.

Definition cache_hit (key agent : string) (t : Z) (c : CacheEntry) : bool :=
  String.eqb (c_key c) key && String.eqb (c_agentId c) agent
  && (t <? c_expiresAt c)%Z.

Definition same_cache_key (key agent : string) (c : CacheEntry) : bool :=
  String.eqb (c_key c) key && String.eqb (c_agentId c) agent.

Definition getCache (key agent : string) : M (option string) :=
  run! ensureConnection in
  run! issue (FindOne Cache) in
  let! st := getM in
  retM (option_map c_value
          (List.find (cache_hit key agent (now (database st)))
             (cache (database st)))).

(** [updateOne(filter, { $set: ... }, { upsert: true })]: the first entry
    the filter selects is updated, and one is inserted when there is none. *)
Fixpoint upsert_cache (key agent value : string) (t : Z) (l : list CacheEntry)
    : list CacheEntry :=
  match l with
  | [] =>
      [{| c_key := key; c_agentId := agent; c_value := value;
          c_createdAt := t; c_expiresAt := (t + cache_ttl)%Z |}]
  | c :: rest =>
      if same_cache_key key agent c then
        {| c_key := c_key c; c_agentId := c_agentId c; c_value := value;
           c_createdAt := t; c_expiresAt := (t + cache_ttl)%Z |} :: rest
      else c :: upsert_cache key agent value t rest
  end.

Definition setCache (key agent value : string) : M bool :=
  run! ensureConnection in
  try_catch
    (run! issue (UpdateOne Cache) in
     let! st := getM in
     run! set_database
       (with_cache
          (upsert_cache key agent value (now (database st)) (cache (database st)))
          (database st)) in
     retM true)
    (fun e => run! logError e in retM false).

(** *** Knowledge search *)

(** The parameters of [searchKnowledge]. *)
Record SearchKnowledgeParams := {
  kp_agentId : string;
  kp_embedding : list float;
  kp_match_threshold : float;
  kp_match_count : nat;
  kp_searchText : option string;
}.

(** [$toLower]: the empty string for a missing or null value, an error for
    a boolean or an object. *)
Definition bson_toLower (v : JSValue) : Completion string :=
  match v with
  | JStr s => Resolved (bson_lower s)
  | JUndefined | JNull => Resolved ""
  | JBool _ | JObj _ => Rejected ConversionError
  end.

(** [{ $eq: [path, true] }] *)
Definition bson_is_true (v : JSValue) : bool :=
  match v with JBool true => true | _ => false end.

(** The second factor of the keyword score: the chunk and main boosts. *)
Definition structure_boost (d : KnowledgeDoc) : float :=
  if bson_is_true (bson_path (k_content d) ["metadata"; "isChunk"]) then 1.5%float
  else if bson_is_true (bson_path (k_content d) ["metadata"; "isMain"]) then 1.2%float
  else 1.0%float.

(** [calculateKeywordScore(searchText)]: building the expression throws
    when [new RegExp] rejects the pattern; the expression built is a
    function of the document, and evaluating it can fail. *)
Definition calculateKeywordScore (searchText : option string)
    : Completion (KnowledgeDoc -> Completion float) :=
  match when_truthy searchText with
  | Some text =>
      if RegExp_valid E (toLowerCase text) then
        Resolved (fun d =>
          match bson_toLower (bson_path (k_content d) ["text"]) with
          | Rejected e => Rejected e
          | Resolved input =>
              Resolved
                ((if regexMatch E (toLowerCase text) input then 3.0 else 1.0)
                 * structure_boost d)%float
          end)
      else Rejected SyntaxError
  | None => Resolved (fun d => Resolved (1.0 * structure_boost d)%float)
  end.

(** The [vectorScore] expression of the pipeline when the adapter has no
    native search: [0] for a missing or empty embedding, else [1 / (1 +
    cosineSimilarity(query, embedding))]; [$divide] fails on a zero
    divisor. *)
Definition fallbackVectorScore (query : list float) (emb : option (list float))
    : Completion float :=
  let embedding := match emb with Some e => e | None => [] end in
  if length embedding =? 0 then Resolved 0%float
  else
    let divisor := (1 + cosineSimilarity query embedding)%float in
    if (divisor =? 0)%float then Rejected DivideByZero
    else Resolved (1 / divisor)%float.

(** The [$match] stage of the pipeline. *)
Definition accepted (threshold : float) (c : ScoredKnowledge) : bool :=
  match vectorScore c with
  | Some v =>
      bson_gte v threshold
      || (bson_gt (keywordScore c) 1.0%float && bson_gte v 0.3%float)
  | None => false
  end.

(** The [$sort] stage: descending [combinedScore]. *)
Definition by_combinedScore_desc (a b : ScoredKnowledge) : bool :=
  sort_leb (combinedScore b) (combinedScore a).

(** The two [$addFields] stages on one candidate; [meta] is the
    [vectorSearchScore] the search stage attached, if one did. *)
Definition add_scores (hasVector : bool) (query : list float)
    (keyword : KnowledgeDoc -> Completion float)
    (candidate : KnowledgeDoc * option float) : Completion ScoredKnowledge :=
  let '(d, meta) := candidate in
  match (if hasVector then Resolved meta
         else match fallbackVectorScore query (k_embedding d) with
              | Resolved v => Resolved (Some v)
              | Rejected e => Rejected e
              end) with
  | Rejected e => Rejected e
  | Resolved vs =>
      match keyword d with
      | Rejected e => Rejected e
      | Resolved ks =>
          Resolved {| sk_doc := d; vectorScore := vs; keywordScore := ks;
                      combinedScore := option_map (fun v => (v * ks)%float) vs |}
      end
  end.

(** [getKnowledgeSearchPipeline(params)]: the stages, as a function of the
    candidates that reach them. *)
Definition getKnowledgeSearchPipeline (hasVector : bool)
    (params : SearchKnowledgeParams)
    : Completion (list (KnowledgeDoc * option float)
                  -> Completion (list ScoredKnowledge)) :=
  match calculateKeywordScore (kp_searchText params) with
  | Rejected e => Rejected e
  | Resolved keyword =>
      Resolved (fun candidates =>
        match mapC (add_scores hasVector (kp_embedding params) keyword) candidates with
        | Rejected e => Rejected e
        | Resolved scored =>
            Resolved (sort_by by_combinedScore_desc
                        (List.filter (accepted (kp_match_threshold params)) scored))
        end)
  end.

(** The candidates of the native path: what the vector index answers, each
    with its score. *)
Definition native_candidates (params : SearchKnowledgeParams) (db : Store)
    : list (KnowledgeDoc * option float) :=
  map (fun p => (fst p, Some (snd p)))
    (vectorIndexKnowledge E (kp_embedding params)
       (kp_match_count params * 2) (kp_match_count params * 2) (knowledge db)).

(** The candidates of the fallback path: the agent's own documents and the
    shared ones without an agent. *)
Definition fallback_candidates (params : SearchKnowledgeParams) (db : Store)
    : list (KnowledgeDoc * option float) :=
  map (fun d => (d, None))
    (List.filter
       (fun d =>
          match k_agentId d with
          | Some a => String.eqb a (kp_agentId params)
          | None => k_isShared d
          end)
       (knowledge db)).

Definition vectorSearchKnowledge (params : SearchKnowledgeParams)
    : M (list ScoredKnowledge) :=
  let! st := getM in
  let! pipeline := liftC (getKnowledgeSearchPipeline (hasVectorSearch st) params) in
  run! issue (VectorSearch Knowledge) in
  let! st := getM in
  liftC (pipeline (native_candidates params (database st))).

Definition fallbackSearchKnowledge (params : SearchKnowledgeParams)
    : M (list ScoredKnowledge) :=
  let! st := getM in
  let! pipeline := liftC (getKnowledgeSearchPipeline (hasVectorSearch st) params) in
  run! issue (Aggregate Knowledge) in
  let! st := getM in
  liftC (pipeline (fallback_candidates params (database st))).

(** [combinedScore || 0] *)
Definition score_or_0 (s : option float) : float :=
  match s with
  | Some v => if PrimFloat.is_nan v || (v =? 0)%float then 0%float else v
  | None => 0%float
  end.

(** The callback of [results.map] in [searchKnowledge]. *)
Definition to_item (c : ScoredKnowledge) : Completion RAGKnowledgeItem :=
  match normalize_content (k_content (sk_doc c)) with
  | Rejected e => Rejected e
  | Resolved parsed =>
      Resolved
        {| r_id := k_id (sk_doc c);
           r_agentId := k_agentId (sk_doc c);
           r_content := parsed;
           r_embedding := option_map (map (fround E)) (k_embedding (sk_doc c));
           r_createdAt := normalize_createdAt (k_createdAt (sk_doc c));
           r_similarity := score_or_0 (combinedScore c) |}
  end.

(** [`embedding_${params.agentId}_${params.searchText}`] *)
Definition cacheKey (params : SearchKnowledgeParams) : string :=
  ("embedding_" ++ kp_agentId params ++ "_"
   ++ match kp_searchText params with Some t => t | None => "undefined" end)%string.

(** The search proper of [searchKnowledge], run on a cache miss: the path
    the capability flag selects, with the fallback as handler of a failed
    native search. *)
Definition search_paths (params : SearchKnowledgeParams) : M (list ScoredKnowledge) :=
  let! st := getM in
  if hasVectorSearch st then
    try_catch (vectorSearchKnowledge params)
      (fun e => run! logError e in fallbackSearchKnowledge params)
  else fallbackSearchKnowledge params.

(** The end of a [searchKnowledge] that missed the cache: build the items,
    write them to the cache, return them. *)
Definition cache_results (params : SearchKnowledgeParams)
    (results : list ScoredKnowledge) : M (list RAGKnowledgeItem) :=
  let! mappedResults := liftC (mapC to_item results) in
  run! setCache (cacheKey params) (kp_agentId params)
         (JSON_stringify_items E mappedResults) in
  retM mappedResults.

Definition searchKnowledge (params : SearchKnowledgeParams)
    : M (list RAGKnowledgeItem) :=
  run! ensureConnection in
  let! cachedResult := getCache (cacheKey params) (kp_agentId params) in
  match when_truthy cachedResult with
  | Some value =>
      match JSON_parse_items E value with
      | Some items => retM items
      | None => throwM SyntaxError
      end
  | None =>
      try_catch
        (let! results := search_paths params in
         cache_results params results)
        (fun e => run! logError e in throwM e)
  end.

End Methods.

(** What a search leaves untouched in the adapter: the connection and
    capability flags and the store. *)
Definition framed (st st' : Adapter) : Prop :=
  isConnected st' = isConnected st /\
  hasVectorSearch st' = hasVectorSearch st /\
  database st' = database st.

(** ** The keyword score in closed form *)




(** ** Concrete inputs for the examples *)

(** A runtime for the examples: a regular-expression engine that reads
    every pattern literally, indexes that answer in collection order, a
    JSON codec that knows the empty result set only, no stop words. *)
Definition literal_runtime : Runtime :=
  {| JSON_parse := fun _ => None;
     JSON_stringify_items :=
       fun items => match items with [] => "[]" | _ => "[...]" end;
     JSON_parse_items :=
       fun s => if String.eqb s "[]" then Some [] else None;
     Date_parse := fun _ => None;
     fround := fun x => x;
     RegExp_valid := fun _ => true;
     regexMatch := contains;
     removeStopwords := fun words => words;
     vectorIndexMemories :=
       fun _ _ limit docs =>
         match limit with Some n => take n docs | None => docs end;
     vectorIndexKnowledge :=
       fun _ _ limit docs => map (fun d => (d, 1%float)) (take limit docs);
     textIndexMemories := fun _ _ _ docs => docs |}.

(** A store where every request succeeds. *)
Definition store_of (mems : list MemoryDoc) (know : list KnowledgeDoc) : Store :=
  {| memories := mems; knowledge := know; cache := [];
     now := 1000%Z; fails := fun _ => false;
     vectorSearchSupported := false; sharded := false;
     next_uuid := "uuid-1"; standardIndexes := false |}.

(** The same store, failing the requests [bad] selects. *)
Definition failing (bad : Op -> bool) (db : Store) : Store :=
  {| memories := memories db; knowledge := knowledge db; cache := cache db;
     now := now db; fails := bad;
     vectorSearchSupported := vectorSearchSupported db;
     sharded := sharded db; next_uuid := next_uuid db;
     standardIndexes := standardIndexes db |}.

(** A connected adapter with the capability flag as given. *)
Definition connected (hasVector : bool) (db : Store) : Adapter :=
  with_flags true hasVector hasVector (new_adapter db).

(** A unique memory of room ["room-1"] whose embedding is orthogonal to the
    query [[1; 0]]. *)
Definition orthogonal_memory : MemoryDoc :=
  {| m_id := "m-1"; m_type := "messages";
     m_content := JObj [("text", JStr "hello")];
     m_embedding := Some [0%float; 1%float];
     m_userId := "user-1"; m_roomId := "room-1"; m_agentId := "agent-1";
     m_unique := true; m_createdAt := TsDate 0 |}.

(** A memory whose content lacks the field that [getCachedEmbeddings] is
    asked to score. *)
Definition fieldless_memory : MemoryDoc :=
  {| m_id := "m-2"; m_type := "messages";
     m_content := JObj [("text", JStr "hello")];
     m_embedding := Some [1%float; 0%float];
     m_userId := "user-1"; m_roomId := "room-1"; m_agentId := "agent-1";
     m_unique := true; m_createdAt := TsDate 0 |}.

(** A memory that has the field. *)
Definition scorable_memory : MemoryDoc :=
  {| m_id := "m-3"; m_type := "messages";
     m_content := JObj [("content", JObj [("text", JStr "kitten")])];
     m_embedding := Some [1%float; 0%float];
     m_userId := "user-1"; m_roomId := "room-1"; m_agentId := "agent-1";
     m_unique := true; m_createdAt := TsDate 0 |}.

Definition demo_opts : CachedEmbeddingsOpts :=
  {| query_table_name := "messages"; query_threshold := 0.5%float;
     query_input := "sitting"; query_field_name := "content";
     query_field_sub_name := "text"; query_match_count := 5 |}.

Definition demo_search : SearchMemoriesParams :=
  {| sm_tableName := "messages"; sm_roomId := "room-1";
     sm_agentId := Some "agent-1";
     sm_embedding := [1%float; 0%float];
     sm_match_threshold := 0.95%float; sm_match_count := 1;
     sm_unique := true |}.

Definition demo_by_embedding : SearchByEmbeddingParams :=
  {| se_match_threshold := Some 0.95%float; se_count := Some 1;
     se_roomId := Some "room-1"; se_agentId := "agent-1";
     se_unique := Some true; se_tableName := "messages" |}.

Definition demo_memory (emb : option (list float)) : Memory :=
  {| id := Some "m-9"; userId := "user-1"; agentId := "agent-1";
     roomId := "room-1"; content := JObj [("text", JStr "hello")];
     embedding := emb; createdAt := Some 5%Z |}.

Definition demo_knowledge (name text : string) (chunk : bool) (emb : list float)
    : KnowledgeDoc :=
  {| k_id := name; k_agentId := Some "agent-1";
     k_content :=
       JObj [("text", JStr text); ("metadata", JObj [("isChunk", JBool chunk)])];
     k_embedding := Some emb; k_createdAt := TsNumber 0;
     k_isMain := false; k_originalId := None; k_chunkIndex := None;
     k_isShared := false |}.

(** Three documents: one orthogonal to the query [[1; 0]] whose text
    matches ["Hello"], one parallel to the query without a match, and an
    orthogonal chunk without a match. *)
Definition demo_documents : list KnowledgeDoc :=
  [demo_knowledge "chunk" "other" true [0%float; 1%float];
   demo_knowledge "near" "bye" false [1%float; 0%float];
   demo_knowledge "far" "say hello" false [0%float; 1%float]].

(** What the fallback path returns for them. *)
Definition demo_ranked : list ScoredKnowledge :=
  [{| sk_doc := demo_knowledge "far" "say hello" false [0%float; 1%float];
      vectorScore := Some 1%float; keywordScore := 3%float;
      combinedScore := Some 3%float |};
   {| sk_doc := demo_knowledge "chunk" "other" true [0%float; 1%float];
      vectorScore := Some 1%float; keywordScore := 1.5%float;
      combinedScore := Some 1.5%float |}].

Definition demo_knowledge_search : SearchKnowledgeParams :=
  {| kp_agentId := "agent-1"; kp_embedding := [1%float; 0%float];
     kp_match_threshold := 0.95%float; kp_match_count := 2;
     kp_searchText := Some "Hello" |}.

(** A connected adapter, native search enabled, whose store fails every
    native vector-search request. *)
Definition native_down : Adapter :=
  connected true
    (failing (fun op => match op with VectorSearch _ => true | _ => false end)
       (store_of [orthogonal_memory] demo_documents)).

(** A fresh adapter on a store that refuses the connection. *)
Definition unreachable_store : Adapter :=
  new_adapter
    (failing (fun op => match op with Connect => true | _ => false end)
       (store_of [] [])).

(** A connected adapter whose store fails every insert. *)
Definition insert_down : Adapter :=
  connected false
    (failing (fun op => match op with InsertOne _ => true | _ => false end)
       (store_of [orthogonal_memory] [])).

(** The adapter when the store's clock reads [t]. *)
Definition at_time (t : Z) (st : Adapter) : Adapter :=
  with_database
    {| memories := memories (database st); knowledge := knowledge (database st);
       cache := cache (database st); now := t; fails := fails (database st);
       vectorSearchSupported := vectorSearchSupported (database st);
       sharded := sharded (database st); next_uuid := next_uuid (database st);
       standardIndexes := standardIndexes (database st) |}
    st.

(** A knowledge search that accepts none of the stored documents. *)
Definition demo_empty_search : SearchKnowledgeParams :=
  {| kp_agentId := "agent-1"; kp_embedding := [1%float; 0%float];
     kp_match_threshold := 0.95%float; kp_match_count := 2;
     kp_searchText := Some "absent" |}.

Definition demo_cache_adapter : Adapter :=
  connected false
    (store_of [] [demo_knowledge "near" "bye" false [1%float; 0%float]]).

(** ** Further definitions *)

(** Whether the scratch matrix is large enough for a request: the negation
    of the test in [getLevenshteinMatrix], for a request of at least one
    row. *)
Definition fits (m : Matrix) (rows cols : nat) : bool :=
  (rows <=? length m) && (cols <=? row0_length m).

(** Whether the capability probe of [initializeVectorSearch] finds native
    vector search usable: the status request succeeds and reports support,
    the index is still considered computable, the vector indexes are
    created, and the topology probe succeeds and reports no sharding. *)
Definition probe_succeeds (st : Adapter) : bool :=
  negb (fails (database st) ServerStatus)
  && vectorSearchSupported (database st)
  && isVectorSearchIndexComputable st
  && negb (fails (database st) CreateVectorIndex)
  && negb (fails (database st) ShardingProbe)
  && negb (sharded (database st)).

(** The request on which [init] fails, if it does: connecting, listing
    the standard indexes, or creating them where the store lacks some. *)
Definition init_failure (db : Store) : option Op :=
  if fails db Connect then Some Connect
  else if fails db ListIndexes then Some ListIndexes
  else if negb (standardIndexes db) && fails db CreateIndex then Some CreateIndex
  else None.

(** A store that supports vector search and fails nothing. *)
Definition vector_store : Store :=
  {| memories := []; knowledge := []; cache := [];
     now := 1000%Z; fails := fun _ => false;
     vectorSearchSupported := true; sharded := false;
     next_uuid := "uuid-1"; standardIndexes := false |}.

(** The same store when creating a standard index fails. *)
Definition index_creation_down : Store :=
  {| memories := []; knowledge := []; cache := [];
     now := 1000%Z;
     fails := fun op => match op with CreateIndex => true | _ => false end;
     vectorSearchSupported := true; sharded := false;
     next_uuid := "uuid-1"; standardIndexes := false |}.

(** The adapter is connected and its capability flag is fallback-only. *)
Definition fallback_only (st : Adapter) : Prop :=
  isConnected st = true /\ hasVectorSearch st = false.

(** An event other than a native vector-search request. *)
Definition no_native (ev : Event) : Prop :=
  forall c, ev <> Issued (VectorSearch c).

(** Run from [st], the method [c] leaves the adapter fallback-only and adds
    to its events no native vector-search request. *)
Definition quiet_at {A} (st : Adapter) (c : M A) : Prop :=
  fallback_only (snd (c st)) /\
  exists evs, events (snd (c st)) = events st ++ evs /\ Forall no_native evs.

(** The same from every fallback-only adapter. *)
Definition quiet {A} (c : M A) : Prop :=
  forall st, fallback_only st -> quiet_at st c.

(** ** Further methods *)

(** The store with its [knowledge] replaced. *)
Definition with_knowledge (l : list KnowledgeDoc) (db : Store) : Store :=
  {| memories := memories db; knowledge := l; cache := cache db;
     now := now db; fails := fails db;
     vectorSearchSupported := vectorSearchSupported db;
     sharded := sharded db; next_uuid := next_uuid db;
     standardIndexes := standardIndexes db |}.

(** The parameters of [getMemoriesByRoomIds]. *)
Record RoomIdsParams := {
  ri_agentId : string;
  ri_roomIds : list string;
  ri_tableName : string;
}.

(** The parameters of [getKnowledge]. *)
Record GetKnowledgeParams := {
  gk_id : option string;
  gk_agentId : string;
  gk_limit : option nat;
  gk_query : option string;
}.

(** A [RAGKnowledgeItem] as [getKnowledge] builds it: without a
    similarity. *)
Record KnowledgeItem := {
  i_id : string;
  i_agentId : option string;
  i_content : JSValue;
  i_embedding : option (list float);
  i_createdAt : Timestamp;
}.

(** The [metadata] of a knowledge item's content. *)
Record KnowledgeMetadata := {
  md_isShared : option bool;
  md_isMain : option bool;
  md_isChunk : option bool;
  md_originalId : option string;
  md_chunkIndex : option nat;
}.

(** The [content] handed to [createKnowledge]: an object with a text and
    optional metadata, or a string. *)
Inductive KnowledgeContent :=
| ContentObject (text : string) (metadata : option KnowledgeMetadata)
| ContentText (s : string).

(** The [RAGKnowledgeItem] handed to [createKnowledge]. *)
Record KnowledgeInput := {
  in_id : string;
  in_agentId : option string;
  in_content : KnowledgeContent;
  in_embedding : option (list float);
  in_createdAt : option Z;
}.

(** [knowledge.content.metadata], absent on a string. *)
Definition content_metadata (c : KnowledgeContent) : option KnowledgeMetadata :=
  match c with
  | ContentObject _ metadata => metadata
  | ContentText _ => None
  end.

(** [flag || false] *)
Definition flag_or_false (flag : option bool) : bool :=
  match flag with Some b => b | None => false end.

Section FurtherMethods.
Variable E : Runtime.

(** [JSON.stringify(knowledge.content)] *)
Variable JSON_stringify_content : KnowledgeContent -> string.

(** Whether a caught error carries the duplicate-key code 11000. *)
Variable is_duplicate_key : Error -> bool.

(** [getMemoryById(memoryId)]: the first memory of that id with its content
    parsed, [None] for [null]. *)
Definition getMemoryById (memoryId : string) : M (option MemoryDoc) :=
  run! ensureConnection in
  run! issue (FindOne Memories) in
  let! st := getM in
  match List.find (fun d => String.eqb (m_id d) memoryId)
          (memories (database st)) with
  | None => retM None
  | Some memory =>
      match normalize_content E (m_content memory) with
      | Rejected e => throwM e
      | Resolved c =>
          retM (Some {| m_id := m_id memory; m_type := m_type memory;
                        m_content := c; m_embedding := m_embedding memory;
                        m_userId := m_userId memory; m_roomId := m_roomId memory;
                        m_agentId := m_agentId memory;
                        m_unique := m_unique memory;
                        m_createdAt := m_createdAt memory |})
      end
  end.

(** The callback of the [map] in [getMemoriesByRoomIds]. *)
Definition parse_memory (memory : MemoryDoc) : Completion MemoryDoc :=
  match normalize_content E (m_content memory) with
  | Rejected e => Rejected e
  | Resolved c =>
      Resolved {| m_id := m_id memory; m_type := m_type memory;
                  m_content := c; m_embedding := m_embedding memory;
                  m_userId := m_userId memory; m_roomId := m_roomId memory;
                  m_agentId := m_agentId memory; m_unique := m_unique memory;
                  m_createdAt := m_createdAt memory |}
  end.

(** The filter of [getMemoriesByRoomIds]. *)
Definition in_rooms (params : RoomIdsParams) (tableName : string) (d : MemoryDoc)
    : bool :=
  String.eqb (m_type d) tableName
  && String.eqb (m_agentId d) (ri_agentId params)
  && existsb (String.eqb (m_roomId d)) (ri_roomIds params).

Definition getMemoriesByRoomIds (params : RoomIdsParams) : M (list MemoryDoc) :=
  run! ensureConnection in
  let tableName :=
    if truthy (ri_tableName params) then ri_tableName params else "messages" in
  run! issue (Find Memories) in
  let! st := getM in
  liftC (mapC parse_memory
           (List.filter (in_rooms params tableName) (memories (database st)))).

(** The filter of [getKnowledge]: the agent's documents and the shared
    ones, of the given id when there is one. *)
Definition knowledge_selected (params : GetKnowledgeParams) (d : KnowledgeDoc)
    : bool :=
  (match k_agentId d with
   | Some a => String.eqb a (gk_agentId params)
   | None => false
   end
   || k_isShared d)
  && match when_truthy (gk_id params) with
     | Some i => String.eqb (k_id d) i
     | None => true
     end.

(** [.limit(n || 0)]: no limit for 0 or [undefined]. *)
Definition limit_or_all {A} (limit : option nat) (l : list A) : list A :=
  match limit with
  | Some 0 | None => l
  | Some n => take n l
  end.

(** The callback of the [map] in [getKnowledge]. *)
Definition to_knowledge_item (item : KnowledgeDoc) : Completion KnowledgeItem :=
  match normalize_content E (k_content item) with
  | Rejected e => Rejected e
  | Resolved c =>
      Resolved {| i_id := k_id item;
                  i_agentId := k_agentId item;
                  i_content := c;
                  i_embedding := option_map (map (fround E)) (k_embedding item);
                  i_createdAt := normalize_createdAt E (k_createdAt item) |}
  end.

Definition getKnowledge (params : GetKnowledgeParams) : M (list KnowledgeItem) :=
  run! ensureConnection in
  run! issue (Find Knowledge) in
  let! st := getM in
  liftC (mapC to_knowledge_item
           (limit_or_all (gk_limit params)
              (List.filter (knowledge_selected params) (knowledge (database st))))).

(** The document [createKnowledge] builds. *)
Definition knowledge_document (item : KnowledgeInput) (db : Store)
    : KnowledgeDoc :=
  let metadata := content_metadata (in_content item) in
  {| k_id := in_id item;
     k_agentId := in_agentId item;
     k_content :=
       JStr match in_content item with
            | ContentText s => s
            | ContentObject _ _ => JSON_stringify_content (in_content item)
            end;
     k_embedding := in_embedding item;
     k_createdAt :=
       TsNumber match in_createdAt item with
                | Some t => if (t =? 0)%Z then now db else t
                | None => now db
                end;
     k_isMain :=
       flag_or_false (match metadata with Some md => md_isMain md | None => None end);
     k_originalId :=
       when_truthy (match metadata with Some md => md_originalId md | None => None end);
     k_chunkIndex :=
       match metadata with
       | Some md =>
           match md_chunkIndex md with
           | Some 0 | None => None
           | Some n => Some n
           end
       | None => None
       end;
     k_isShared :=
       flag_or_false (match metadata with Some md => md_isShared md | None => None end) |}.

(** [updateOne({ id }, { $setOnInsert: doc }, { upsert: true })]: nothing
    changes when a document has the id; else the document is inserted. *)
Definition insert_if_absent (doc : KnowledgeDoc) (l : list KnowledgeDoc)
    : list KnowledgeDoc :=
  if existsb (fun d => String.eqb (k_id d) (k_id doc)) l then l else l ++ [doc].

Definition createKnowledge (item : KnowledgeInput) : M unit :=
  run! ensureConnection in
  try_catch
    (let! st := getM in
     let doc := knowledge_document item (database st) in
     run! issue (UpdateOne Knowledge) in
     let! st := getM in
     set_database
       (with_knowledge (insert_if_absent doc (knowledge (database st)))
          (database st)))
    (fun e =>
       let isShared :=
         flag_or_false
           (match content_metadata (in_content item) with
            | Some md => md_isShared md
            | None => None
            end) in
       if isShared && is_duplicate_key e then retM tt
       else run! logError e in throwM e).

End FurtherMethods.

(** A serializer of knowledge contents for the examples: the text alone. *)
Definition text_only (c : KnowledgeContent) : string :=
  match c with
  | ContentObject text _ => text
  | ContentText s => s
  end.

Definition demo_item (name : string) : KnowledgeInput :=
  {| in_id := name; in_agentId := Some "agent-1";
     in_content :=
       ContentObject "say hello"
         (Some {| md_isShared := None; md_isMain := Some true;
                  md_isChunk := None; md_originalId := None;
                  md_chunkIndex := Some 0 |});
     in_embedding := Some [0%float; 1%float];
     in_createdAt := None |}.

(** The runtime of the examples with a parser that goes with [text_only]:
    it reads a string as the object holding it as [text]. *)
Definition text_runtime : Runtime :=
  {| JSON_parse := fun s => Some (JObj [("text", JStr s)]);
     JSON_stringify_items := JSON_stringify_items literal_runtime;
     JSON_parse_items := JSON_parse_items literal_runtime;
     Date_parse := Date_parse literal_runtime;
     fround := fround literal_runtime;
     RegExp_valid := RegExp_valid literal_runtime;
     regexMatch := regexMatch literal_runtime;
     removeStopwords := removeStopwords literal_runtime;
     vectorIndexMemories := vectorIndexMemories literal_runtime;
     vectorIndexKnowledge := vectorIndexKnowledge literal_runtime;
     textIndexMemories := textIndexMemories literal_runtime |}.

(** The key and agent of a cache entry. *)
Definition cache_key_of (c : CacheEntry) : string * string :=
  (c_key c, c_agentId c).

(** A cache with a few entries, for the examples. *)
Definition demo_cache_store : Store :=
  with_cache
    [{| c_key := "k1"; c_agentId := "agent-1"; c_value := "old";
        c_createdAt := 0; c_expiresAt := 5000 |};
     {| c_key := "k2"; c_agentId := "agent-1"; c_value := "other";
        c_createdAt := 0; c_expiresAt := 5000 |}]
    (store_of [] []).

(** The scope of the fallback knowledge search: the agent's own documents
    and the shared ones without an agent. *)
Definition in_scope (agent : string) (d : KnowledgeDoc) : Prop :=
  match k_agentId d with
  | Some a => a = agent
  | None => k_isShared d = true
  end.

(** The search of [demo_empty_search] with another query vector and a
    threshold that accepts every document. *)
Definition demo_wide_search : SearchKnowledgeParams :=
  {| kp_agentId := "agent-1"; kp_embedding := [0%float; 1%float];
     kp_match_threshold := 0%float; kp_match_count := 5;
     kp_searchText := Some "absent" |}.

(** The search of [demo_knowledge_search] as another agent asks it. *)
Definition demo_other_agent_search : SearchKnowledgeParams :=
  {| kp_agentId := "agent-2"; kp_embedding := [1%float; 0%float];
     kp_match_threshold := 0.95%float; kp_match_count := 2;
     kp_searchText := Some "Hello" |}.

(** A connected adapter without native search whose store fails every
    aggregation on the knowledge collection. *)
Definition aggregate_down : Adapter :=
  connected false
    (failing (fun op => match op with Aggregate Knowledge => true | _ => false end)
       (store_of [] demo_documents)).

(** Whether the query text of a knowledge search matches the document's
    lowered [content.text]: the first condition of the keyword score. *)
Definition text_matches (E : Runtime) (searchText : option string)
    (d : KnowledgeDoc) : bool :=
  match when_truthy searchText,
        bson_toLower (bson_path (k_content d) ["text"]) with
  | Some text, Resolved input => regexMatch E (toLowerCase text) input
  | _, _ => false
  end.

(** Whether the document is marked as a chunk or as a main document in
    its content's metadata. *)
Definition marked_chunk_or_main (d : KnowledgeDoc) : bool :=
  bson_is_true (bson_path (k_content d) ["metadata"; "isChunk"])
  || bson_is_true (bson_path (k_content d) ["metadata"; "isMain"]).

(** A knowledge search with a two-dimensional query and a positive
    threshold, and documents with no, an empty and a one-dimensional
    embedding beside a complete one. *)
Definition demo_short_documents : list KnowledgeDoc :=
  [{| k_id := "none"; k_agentId := Some "agent-1";
      k_content := JObj [("text", JStr "hello")];
      k_embedding := None; k_createdAt := TsNumber 0;
      k_isMain := false; k_originalId := None; k_chunkIndex := None;
      k_isShared := false |};
   demo_knowledge "empty" "hello" false [];
   demo_knowledge "short" "hello" false [1%float];
   demo_knowledge "full" "hello" false [0%float; 1%float]].

(** The string [getCachedEmbeddings] scores a memory by:
    [memory.content[query_field_name][query_field_sub_name]], where it is
    a string. *)
Definition scored_field (opts : CachedEmbeddingsOpts) (memory : MemoryDoc)
    : option string :=
  match js_get (m_content memory) (query_field_name opts) with
  | Some inner =>
      match js_get inner (query_field_sub_name opts) with
      | Some (JStr s) => Some s
      | _ => None
      end
  | None => None
  end.

(** The textbook edit distance between the query and that string. *)
Definition field_distance (opts : CachedEmbeddingsOpts) (memory : MemoryDoc)
    : nat :=
  match scored_field opts memory with
  | Some s => textbook_levenshtein (query_input opts) s
  | None => 0
  end.

(** The candidates of [getCachedEmbeddings]: the first [2 *
    query_match_count] answers of the text index. *)
Definition found_memories (E : Runtime) (opts : CachedEmbeddingsOpts)
    (db : Store) : list MemoryDoc :=
  take (query_match_count opts * 2)
    (textIndexMemories E (sanitizeQuery E (query_input opts))
       [("content." ++ query_field_name opts ++ "." ++ query_field_sub_name opts)%string;
        "content.text"]
       (query_table_name opts) (memories db)).

(** Three memories with the scored field, at distances 3, 0 and 7 from
    the query ["sitting"]. *)
Definition field_memory (name text : string) : MemoryDoc :=
  {| m_id := name; m_type := "messages";
     m_content := JObj [("content", JObj [("text", JStr text)])];
     m_embedding := Some [1%float; 0%float];
     m_userId := "user-1"; m_roomId := "room-1"; m_agentId := "agent-1";
     m_unique := true; m_createdAt := TsDate 0 |}.

Definition demo_field_memories : list MemoryDoc :=
  [field_memory "m-a" "kitten"; field_memory "m-b" "sitting";
   field_memory "m-c" "elephant"].

(** A connected adapter whose store fails every text search. *)
Definition text_search_down : Adapter :=
  connected false
    (failing (fun op => match op with TextSearch => true | _ => false end)
       (store_of demo_field_memories [])).
(** * Properties *)

(** ** The Levenshtein engine *)

Example lev_kitten :
  returned (calculateLevenshteinDistanceOptimized [] "kitten" "sitting") = Some 3.
Proof. reflexivity. Qed.

Example lev_textbook_kitten : textbook_levenshtein "kitten" "sitting" = 3.
Proof. reflexivity. Qed.

(** *** Facts about the textbook table *)

Lemma char_eqb_sym a b : char_eqb a b = char_eqb b a.
Proof.
  destruct a as [x|], b as [y|]; simpl; try reflexivity.
  apply Ascii.eqb_sym.
Qed.

Lemma char_eqb_refl a : char_eqb a a = true.
Proof. destruct a as [x|]; simpl; [apply Ascii.eqb_refl | reflexivity]. Qed.

Lemma textbook_table_col0 s t i : textbook_table s t i 0 = i.
Proof. destruct i; reflexivity. Qed.

Lemma textbook_table_step s t i j :
  textbook_table s t (S i) (S j) =
  Nat.min (textbook_table s t i (S j) + 1)
    (Nat.min (textbook_table s t (S i) j + 1)
       (textbook_table s t i j
        + (if char_eqb (char_at s i) (char_at t j) then 0 else 1))).
Proof. reflexivity. Qed.

Lemma textbook_table_sym s t i :
  forall j, textbook_table s t i j = textbook_table t s j i.
Proof.
  induction i as [|i IHi]; intros j.
  - now rewrite textbook_table_col0.
  - induction j as [|j IHj]; [reflexivity|].
    rewrite !textbook_table_step, IHj, !IHi.
    rewrite (char_eqb_sym (char_at s i)). lia.
Qed.

(** Neighbouring entries differ by at most one. *)
Lemma textbook_table_right_le s t i j :
  textbook_table s t i (S j) <= textbook_table s t i j + 1.
Proof.
  destruct i; [simpl; lia|]. rewrite textbook_table_step. lia.
Qed.

Lemma textbook_table_down_le s t i j :
  textbook_table s t (S i) j <= textbook_table s t i j + 1.
Proof.
  destruct j; [rewrite !textbook_table_col0; lia|].
  rewrite textbook_table_step. lia.
Qed.

Lemma textbook_table_right_ge s t i :
  forall j, textbook_table s t i j <= textbook_table s t i (S j) + 1.
Proof.
  induction i as [|i IHi]; intros j; [simpl; lia|].
  rewrite textbook_table_step.
  pose proof (textbook_table_down_le s t i j).
  pose proof (IHi j).
  destruct (char_eqb _ _); lia.
Qed.

Lemma textbook_table_down_ge s t i j :
  textbook_table s t i j <= textbook_table s t (S i) j + 1.
Proof.
  rewrite (textbook_table_sym s t i j), (textbook_table_sym s t (S i) j).
  apply textbook_table_right_ge.
Qed.

(** The recurrence as the engine computes it: the diagonal entry when the
    two characters agree, else one more than the least neighbour. *)
Lemma textbook_table_engine_step s t i j :
  textbook_table s t (S i) (S j) =
  if char_eqb (char_at s i) (char_at t j) then textbook_table s t i j
  else Nat.min (textbook_table s t i j + 1)
         (Nat.min (textbook_table s t (S i) j + 1)
            (textbook_table s t i (S j) + 1)).
Proof.
  rewrite textbook_table_step.
  pose proof (textbook_table_right_ge s t i j).
  pose proof (textbook_table_down_ge s t i j).
  destruct (char_eqb _ _); lia.
Qed.

Lemma textbook_table_diag s i : textbook_table s s i i = 0.
Proof.
  induction i as [|i IHi]; [reflexivity|].
  rewrite textbook_table_step, IHi, char_eqb_refl. lia.
Qed.

Lemma textbook_levenshtein_sym s t :
  textbook_levenshtein s t = textbook_levenshtein t s.
Proof. apply textbook_table_sym. Qed.

Lemma textbook_levenshtein_refl s : textbook_levenshtein s s = 0.
Proof. apply textbook_table_diag. Qed.

Lemma textbook_levenshtein_empty_r s :
  textbook_levenshtein s "" = String.length s.
Proof. apply textbook_table_col0. Qed.

Lemma textbook_levenshtein_empty_l t :
  textbook_levenshtein "" t = String.length t.
Proof. reflexivity. Qed.

(** *** The loops over the scratch matrix *)

(** A loop whose body keeps an invariant, indexed by the counter, runs to
    completion and establishes the invariant at the final counter. *)
Lemma for_range_invariant (I : nat -> Matrix -> Prop) body count :
  forall start m,
    I start m ->
    (forall i m0, start <= i < start + count -> I i m0 ->
       exists m1, body i m0 = Ok tt m1 /\ I (S i) m1) ->
    exists m', for_range start count body m = Ok tt m' /\ I (start + count) m'.
Proof.
  induction count as [|c IH]; intros start m HI Hbody; simpl.
  - exists m. rewrite Nat.add_0_r. auto.
  - destruct (Hbody start m) as (m1 & -> & HI1); [lia | assumption |].
    destruct (IH (S start) m1 HI1) as (m' & Hrun & HI').
    + intros i m0 Hi. apply Hbody. lia.
    + exists m'. split; [assumption|].
      replace (start + S c) with (S start + c) by lia. assumption.
Qed.

Lemma shaped_uniform rows cols m : shaped rows cols m -> uniform m.
Proof. intros (_ & c & _ & H). exists c. assumption. Qed.

Lemma mget_insert m i row j v :
  m !! i = Some row -> j < length row ->
  forall i' j',
    mget (<[i := <[j := v]> row]> m) i' j' =
    if decide (i' = i /\ j' = j) then Some v else mget m i' j'.
Proof.
  intros Hrow Hj i' j'. unfold mget.
  assert (Hi : i < length m) by (eapply lookup_lt_Some; eassumption).
  destruct (decide (i' = i)) as [->|Hne].
  - rewrite list_lookup_insert_eq by assumption. rewrite Hrow.
    destruct (decide (j' = j)) as [->|Hnej].
    + rewrite list_lookup_insert_eq by assumption.
      rewrite decide_True by auto. reflexivity.
    + rewrite list_lookup_insert_ne by auto.
      rewrite decide_False by tauto. reflexivity.
  - rewrite list_lookup_insert_ne by auto.
    rewrite decide_False by tauto. reflexivity.
Qed.

Lemma mset_shaped rows cols m i j v :
  shaped rows cols m -> i < rows -> j < cols ->
  exists m',
    mset m i j v = Ok tt m' /\ shaped rows cols m' /\
    forall i' j',
      mget m' i' j' = if decide (i' = i /\ j' = j) then Some v else mget m i' j'.
Proof.
  intros (Hrows & c & Hc & Hall) Hi Hj.
  destruct (lookup_lt_is_Some_2 m i) as [row Hrow]; [lia|].
  assert (Hlen : length row = c).
  { eapply (proj1 (Forall_lookup _ _) Hall); eassumption. }
  unfold mset, row_set. rewrite Hrow.
  destruct (Nat.ltb_spec j (length row)); [|lia].
  eexists. split; [reflexivity|]. split.
  - split; [rewrite length_insert; assumption|].
    exists c. split; [assumption|].
    apply Forall_insert; [assumption|].
    rewrite length_insert. assumption.
  - apply mget_insert; [assumption | lia].
Qed.

Section Table.
Variables s t : string.

Local Abbreviation n := (String.length s).
Local Abbreviation k := (String.length t).

(** Writing the table's entry into a cell extends the known s t region. *)
Lemma mset_known (P Q : nat -> nat -> Prop) m i j v :
  shaped (n + 1) (k + 1) m -> known s t P m ->
  i <= n -> j <= k -> v = textbook_table s t i j ->
  (forall i' j', Q i' j' -> P i' j' \/ (i' = i /\ j' = j)) ->
  exists m',
    mset m i j v = Ok tt m' /\ shaped (n + 1) (k + 1) m' /\ known s t Q m'.
Proof.
  intros Hshape Hknown Hi Hj -> HQ.
  destruct (mset_shaped (n + 1) (k + 1) m i j (textbook_table s t i j))
    as (m' & Hset & Hshape' & Hget); [assumption | lia | lia |].
  exists m'. split; [assumption|]. split; [assumption|].
  intros i' j' Hq. rewrite Hget.
  destruct (decide (i' = i /\ j' = j)) as [[-> ->]|Hne]; [reflexivity|].
  destruct (HQ i' j' Hq) as [Hp|Heq]; [auto | tauto].
Qed.

Lemma init_column_loop m :
  shaped (n + 1) (k + 1) m ->
  exists m',
    for_range 0 (n + 1) (init_column_body (k + 1)) m = Ok tt m' /\
    shaped (n + 1) (k + 1) m' /\
    known s t (fun i j => j = 0 /\ i <= n) m'.
Proof.
  intros Hshape.
  destruct (for_range_invariant
    (fun i m => shaped (n + 1) (k + 1) m /\ known s t (fun i' j' => j' = 0 /\ i' < i) m)
    (init_column_body (k + 1)) (n + 1) 0 m) as (m' & Hrun & Hs & Hk).
  - split; [assumption|]. intros i j [_ Hlt]. lia.
  - intros i m0 Hi [Hs Hk]. unfold init_column_body.
    destruct Hs as (Hrows & c & Hc & Hall).
    destruct (lookup_lt_is_Some_2 m0 i) as [row Hrow]; [lia|].
    rewrite Hrow.
    assert (Hlen : length row = c).
    { eapply (proj1 (Forall_lookup _ _) Hall); eassumption. }
    destruct (Nat.ltb_spec (length row) 1); [lia|]. simpl.
    destruct (mset_known (fun i' j' => j' = 0 /\ i' < i)
                (fun i' j' => j' = 0 /\ i' < S i) m0 i 0 i)
      as (m1 & Hset & Hs1 & Hk1).
    + split; [assumption|]. exists c. auto.
    + assumption.
    + lia.
    + lia.
    + symmetry. apply textbook_table_col0.
    + intros i' j' [-> Hlt]. destruct (decide (i' = i)); [auto|]. left. lia.
    + exists m1. auto.
  - exists m'. split; [assumption|]. split; [assumption|].
    intros i j [-> Hle]. apply Hk. lia.
Qed.

Lemma init_row_loop m :
  shaped (n + 1) (k + 1) m ->
  known s t (fun i j => j = 0 /\ i <= n) m ->
  exists m',
    for_range 0 (k + 1) (fun j m => mset m 0 j j) m = Ok tt m' /\
    shaped (n + 1) (k + 1) m' /\
    known s t (fun i j => i <= n /\ j <= k /\ (j = 0 \/ i = 0)) m'.
Proof.
  intros Hshape Hcol.
  destruct (for_range_invariant
    (fun j m => shaped (n + 1) (k + 1) m /\
                known s t (fun i' j' => (j' = 0 /\ i' <= n) \/ (i' = 0 /\ j' < j)) m)
    (fun j m => mset m 0 j j) (k + 1) 0 m) as (m' & Hrun & Hs & Hk).
  - split; [assumption|]. intros i j [H|[_ H]]; [auto | lia].
  - intros j m0 Hj [Hs Hk].
    destruct (mset_known
                (fun i' j' => (j' = 0 /\ i' <= n) \/ (i' = 0 /\ j' < j))
                (fun i' j' => (j' = 0 /\ i' <= n) \/ (i' = 0 /\ j' < S j))
                m0 0 j j) as (m1 & Hset & Hs1 & Hk1);
      [assumption | assumption | lia | lia | reflexivity | | exists m1; auto].
    intros i' j' [H|[-> H]]; [auto|].
    destruct (decide (j' = j)); [auto|]. left. right. lia.
  - exists m'. split; [assumption|]. split; [assumption|].
    intros i j (Hi & Hj & [->| ->]); apply Hk; [left | right]; lia.
Qed.

Lemma fill_body_known m i j (P Q : nat -> nat -> Prop) :
  shaped (n + 1) (k + 1) m -> known s t P m ->
  1 <= i <= n -> 1 <= j <= k ->
  P (i - 1) (j - 1) -> P i (j - 1) -> P (i - 1) j ->
  (forall i' j', Q i' j' -> P i' j' \/ (i' = i /\ j' = j)) ->
  exists m',
    fill_body s t i j m = Ok tt m' /\ shaped (n + 1) (k + 1) m' /\ known s t Q m'.
Proof.
  intros Hshape Hknown Hi Hj Hdiag Hleft Hup HQ.
  destruct i as [|i]; [lia|]. destruct j as [|j]; [lia|].
  unfold fill_body.
  rewrite (Hknown _ _ Hdiag), (Hknown _ _ Hleft), (Hknown _ _ Hup).
  replace (S i - 1) with i by lia. replace (S j - 1) with j by lia.
  pose proof (textbook_table_engine_step s t i j) as Hstep.
  destruct (char_eqb (char_at s i) (char_at t j));
    eapply mset_known; eauto; lia.
Qed.

Lemma fill_loops m :
  shaped (n + 1) (k + 1) m ->
  known s t (fun i j => i <= n /\ j <= k /\ (j = 0 \/ i = 0)) m ->
  exists m',
    for_range 1 n (fun i => for_range 1 k (fill_body s t i)) m = Ok tt m' /\
    shaped (n + 1) (k + 1) m' /\
    known s t (fun i j => i <= n /\ j <= k) m'.
Proof.
  intros Hshape Hbase.
  destruct (for_range_invariant
    (fun i m => shaped (n + 1) (k + 1) m /\
                known s t (fun i' j' => i' <= n /\ j' <= k /\ (j' = 0 \/ i' < i)) m)
    (fun i => for_range 1 k (fill_body s t i)) n 1 m) as (m' & Hrun & Hs & Hk).
  - split; [assumption|]. intros i j (Hi & Hj & H). apply Hbase.
    repeat split; [assumption | assumption | lia].
  - intros i m0 Hi [Hs Hk].
    destruct (for_range_invariant
      (fun j m => shaped (n + 1) (k + 1) m /\
                  known s t (fun i' j' => i' <= n /\ j' <= k /\
                           (j' = 0 \/ i' < i \/ (i' = i /\ j' < j))) m)
      (fill_body s t i) k 1 m0) as (m1 & Hrun1 & Hs1 & Hk1).
    + split; [assumption|]. intros i' j' (Hi' & Hj' & H). apply Hk.
      repeat split; [assumption | assumption | lia].
    + intros j m2 Hj [Hs2 Hk2].
      destruct (fill_body_known m2 i j
        (fun i' j' => i' <= n /\ j' <= k /\ (j' = 0 \/ i' < i \/ (i' = i /\ j' < j)))
        (fun i' j' => i' <= n /\ j' <= k /\ (j' = 0 \/ i' < i \/ (i' = i /\ j' < S j))))
        as (m3 & Hset & Hs3 & Hk3); try assumption; try (cbv beta; lia).
      exists m3. auto.
    + exists m1. split; [assumption|]. split; [assumption|].
      intros i' j' (Hi' & Hj' & H). apply Hk1.
      repeat split; [assumption | assumption | lia].
  - exists m'. split; [assumption|]. split; [assumption|].
    intros i j [Hi Hj]. apply Hk. repeat split; [assumption | assumption | lia].
Qed.

End Table.

(** *** The engine computes the textbook distance *)

Lemma getLevenshteinMatrix_shaped m rows cols :
  uniform m -> 1 <= rows ->
  shaped rows cols (getLevenshteinMatrix m rows cols).
Proof.
  intros [c Hall] Hrows. unfold getLevenshteinMatrix.
  destruct (_ || _) eqn:Hcond.
  - split; [rewrite length_replicate; lia|].
    exists cols. split; [lia|].
    apply Forall_replicate, length_replicate.
  - apply orb_false_elim in Hcond as [Hcond H3].
    apply orb_false_elim in Hcond as [H1 H2].
    apply Nat.ltb_ge in H1.
    destruct m as [|row0 m']; [simpl in H1; lia|].
    simpl in H2. unfold row0_length in H2. simpl in H2.
    apply Nat.ltb_ge in H2.
    split; [assumption|]. exists c. split; [|assumption].
    inversion Hall; subst. assumption.
Qed.

Lemma distance_on_matrix_spec m s t :
  uniform m ->
  exists m',
    distance_on_matrix m s t = Ok (textbook_levenshtein s t) m' /\
    shaped (String.length s + 1) (String.length t + 1) m'.
Proof.
  intros Hu. unfold distance_on_matrix.
  pose proof (getLevenshteinMatrix_shaped m (String.length s + 1)
                (String.length t + 1) Hu ltac:(lia)) as Hshape.
  set (m0 := getLevenshteinMatrix m _ _) in *.
  destruct (Nat.ltb_spec (length m0) (String.length s + 1)) as [Hlt|_].
  { destruct Hshape as [Hrows _]. lia. }
  destruct (init_column_loop s t m0 Hshape) as (m1 & -> & Hs1 & Hk1). simpl.
  destruct Hs1 as (Hrows1 & c & Hc & Hall1).
  destruct m1 as [|row0 rest]; [simpl in Hrows1; lia|]. simpl.
  assert (Hlen0 : length row0 = c) by (inversion Hall1; assumption).
  destruct (Nat.ltb_spec (length row0) (String.length t + 1)); [lia|].
  assert (Hs1 : shaped (String.length s + 1) (String.length t + 1) (row0 :: rest)).
  { split; [assumption|]. exists c. auto. }
  destruct (init_row_loop s t _ Hs1 Hk1) as (m2 & -> & Hs2 & Hk2). simpl.
  destruct (fill_loops s t _ Hs2 Hk2) as (m3 & -> & Hs3 & Hk3). simpl.
  rewrite (Hk3 (String.length s) (String.length t)) by lia.
  exists m3. split; [reflexivity | assumption].
Qed.

Lemma string_length_0 (s : string) : String.length s = 0 -> s = EmptyString.
Proof. destruct s; [reflexivity | discriminate]. Qed.

Lemma engine_spec m a b :
  uniform m ->
  exists m',
    calculateLevenshteinDistanceOptimized m a b
      = Ok (textbook_levenshtein a b) m' /\ uniform m'.
Proof.
  intros Hu. unfold calculateLevenshteinDistanceOptimized.
  destruct (String.eqb_spec a b) as [->|_].
  { exists m. rewrite textbook_levenshtein_refl. auto. }
  destruct (Nat.eqb_spec (String.length a) 0) as [Ha|_].
  { apply string_length_0 in Ha. subst a. exists m. auto. }
  destruct (Nat.eqb_spec (String.length b) 0) as [Hb|_].
  { apply string_length_0 in Hb. subst b. exists m.
    rewrite textbook_levenshtein_empty_r. auto. }
  destruct (String.length b <? String.length a).
  - rewrite (textbook_levenshtein_sym a b).
    destruct (distance_on_matrix_spec m b a Hu) as (m' & Hrun & Hs).
    exists m'. split; [assumption | eapply shaped_uniform; eassumption].
  - destruct (distance_on_matrix_spec m a b Hu) as (m' & Hrun & Hs).
    exists m'. split; [assumption | eapply shaped_uniform; eassumption].
Qed.

Lemma shaped_row0_length rows cols m :
  1 <= rows -> shaped rows cols m -> cols <= row0_length m.
Proof.
  intros Hrows (Hlen & c & Hc & Hall).
  destruct m as [|row0 rest]; [simpl in Hlen; lia|].
  unfold row0_length. simpl. inversion Hall; subst. assumption.
Qed.

Lemma engine_matrix_shaped m a b :
  uniform m -> uses_matrix a b = true ->
  shaped (required_rows a b) (required_cols a b)
    (matrix_after m (calculateLevenshteinDistanceOptimized m a b)).
Proof.
  intros Hu Huse. unfold uses_matrix in Huse.
  apply andb_prop in Huse as [Huse Hb]. apply andb_prop in Huse as [Hab Ha].
  unfold calculateLevenshteinDistanceOptimized, required_rows, required_cols.
  destruct (String.eqb a b); [discriminate|].
  destruct (String.length a =? 0); [discriminate|].
  destruct (String.length b =? 0); [discriminate|].
  destruct (Nat.ltb_spec (String.length b) (String.length a)).
  - destruct (distance_on_matrix_spec m b a Hu) as (m' & -> & Hs). simpl.
    replace (Nat.min _ _) with (String.length b) by lia.
    replace (Nat.max _ _) with (String.length a) by lia. assumption.
  - destruct (distance_on_matrix_spec m a b Hu) as (m' & -> & Hs). simpl.
    replace (Nat.min _ _) with (String.length a) by lia.
    replace (Nat.max _ _) with (String.length b) by lia. assumption.
Qed.

Lemma reachable_uniform m : reachable m -> uniform m.
Proof.
  induction 1 as [|m a b _ IH].
  - exists 0. constructor.
  - destruct (engine_spec m a b IH) as (m' & -> & Hu). assumption.
Qed.

(** C4: on every matrix the adapter can hold, the engine returns the
    textbook edit distance of its two arguments; so its result is the same
    whatever the earlier calls were, is symmetric, is [0] on equal strings
    and is the length of [a] when [b] is empty. *)
Theorem levenshtein_refines_textbook (m m' : Matrix) (a b : string) :
  reachable m -> reachable m' ->
  returned (calculateLevenshteinDistanceOptimized m a b)
    = Some (textbook_levenshtein a b) /\
  returned (calculateLevenshteinDistanceOptimized m a b)
    = returned (calculateLevenshteinDistanceOptimized [] a b) /\
  returned (calculateLevenshteinDistanceOptimized m a b)
    = returned (calculateLevenshteinDistanceOptimized m' b a) /\
  returned (calculateLevenshteinDistanceOptimized m a a) = Some 0 /\
  returned (calculateLevenshteinDistanceOptimized m a "") = Some (String.length a).
Proof.
  intros Hm Hm'.
  assert (Hspec : forall mx x y, reachable mx ->
            returned (calculateLevenshteinDistanceOptimized mx x y)
            = Some (textbook_levenshtein x y)).
  { intros mx x y Hr.
    destruct (engine_spec mx x y (reachable_uniform mx Hr)) as (m1 & -> & _).
    reflexivity. }
  repeat split.
  - apply Hspec, Hm.
  - rewrite !Hspec; [reflexivity | constructor | assumption].
  - rewrite !Hspec by assumption. now rewrite textbook_levenshtein_sym.
  - rewrite Hspec by assumption. now rewrite textbook_levenshtein_refl.
  - rewrite Hspec by assumption. now rewrite textbook_levenshtein_empty_r.
Qed.

Lemma levenshtein_refines_textbook_witness :
  returned (calculateLevenshteinDistanceOptimized
              (matrix_after [] (calculateLevenshteinDistanceOptimized [] "ab" "abcdefghi"))
              "flaw" "lawn")
  = Some (textbook_levenshtein "flaw" "lawn").
Proof.
  apply (levenshtein_refines_textbook
           (matrix_after [] (calculateLevenshteinDistanceOptimized [] "ab" "abcdefghi"))
           [] "flaw" "lawn").
  - apply reachable_call, reachable_init.
  - apply reachable_init.
Defined.

(** *** Growth of the scratch matrix *)

Example matrix_dims_sequence :
  let m1 := matrix_after_calls [] [("ab", "abcdefghi")] in
  let m2 := matrix_after_calls [] [("ab", "abcdefghi"); ("abcd", "abcde")] in
  (length m1, row0_length m1) = (3, 10) /\ (length m2, row0_length m2) = (5, 6).
Proof. split; reflexivity. Qed.

(** C7, as stated, fails: after the calls on ("ab", "abcdefghi") and then
    ("abcd", "abcde") the first row of the matrix has fewer columns than
    the first call required. *)
Lemma scratch_matrix_can_shrink :
  ~ (forall a b,
       In (a, b) [("ab", "abcdefghi"); ("abcd", "abcde")] ->
       uses_matrix a b = true ->
       required_rows a b
         <= length (matrix_after_calls [] [("ab", "abcdefghi"); ("abcd", "abcde")])
       /\ required_cols a b
         <= row0_length
              (matrix_after_calls [] [("ab", "abcdefghi"); ("abcd", "abcde")])).
Proof.
  intros H.
  destruct (H "ab" "abcdefghi") as [_ Hcols]; [left; reflexivity | reflexivity |].
  vm_compute in Hcols. lia.
Qed.

(** C7, amended: after a call that works on the matrix, the matrix has at
    least the rows and row-0 columns that this call required. *)
Theorem scratch_matrix_fits_latest_call (m : Matrix) (a b : string) :
  reachable m -> uses_matrix a b = true ->
  required_rows a b
    <= length (matrix_after m (calculateLevenshteinDistanceOptimized m a b)) /\
  required_cols a b
    <= row0_length (matrix_after m (calculateLevenshteinDistanceOptimized m a b)).
Proof.
  intros Hr Huse.
  pose proof (engine_matrix_shaped m a b (reachable_uniform m Hr) Huse) as Hs.
  split; [apply Hs|].
  eapply shaped_row0_length; [|exact Hs]. unfold required_rows. lia.
Qed.

Lemma scratch_matrix_fits_latest_call_witness :
  required_rows "abcd" "abcde"
    <= length (matrix_after
                 (matrix_after [] (calculateLevenshteinDistanceOptimized [] "ab" "abcdefghi"))
                 (calculateLevenshteinDistanceOptimized
                    (matrix_after [] (calculateLevenshteinDistanceOptimized [] "ab" "abcdefghi"))
                    "abcd" "abcde")) /\
  required_cols "abcd" "abcde"
    <= row0_length (matrix_after
                 (matrix_after [] (calculateLevenshteinDistanceOptimized [] "ab" "abcdefghi"))
                 (calculateLevenshteinDistanceOptimized
                    (matrix_after [] (calculateLevenshteinDistanceOptimized [] "ab" "abcdefghi"))
                    "abcd" "abcde")).
Proof.
  apply (scratch_matrix_fits_latest_call
           (matrix_after [] (calculateLevenshteinDistanceOptimized [] "ab" "abcdefghi"))
           "abcd" "abcde").
  - apply reachable_call, reachable_init.
  - reflexivity.
Defined.

(** ** The adapter's methods *)

Example demo_fallback_search :
  fst (searchMemories literal_runtime demo_search
         (connected false (store_of [orthogonal_memory] [])))
  = Resolved [{| hit := orthogonal_memory; similarity := Some 0%float |}].
Proof. reflexivity. Qed.

Example demo_cached_embeddings :
  fst (getCachedEmbeddings literal_runtime demo_opts
         (connected false (store_of [scorable_memory; fieldless_memory] [])))
  = Resolved [Scored (Some [1%float; 0%float]) 3; EmptyArray].
Proof. reflexivity. Qed.

Example demo_knowledge_fallback :
  fst (fallbackSearchKnowledge literal_runtime demo_knowledge_search
         (connected false (store_of [] demo_documents)))
  = Resolved demo_ranked.
Proof. reflexivity. Qed.

(** *** Steps of a method *)

Lemma ensureConnection_connected st :
  isConnected st = true -> ensureConnection st = (Resolved tt, st).
Proof. intros H. unfold ensureConnection, bindM, getM. now rewrite H. Qed.

Lemma issue_run op st :
  issue op st =
  (if fails (database st) op then Rejected (StoreError op) else Resolved tt,
   with_events (events st ++ [Issued op]) st).
Proof.
  unfold issue, bindM, record, record_all, getM. simpl.
  destruct (fails (database st) op); reflexivity.
Qed.

(** *** The capability flag and the native search *)

(** C6, on the code: [searchMemoriesByEmbedding] sends the native
    vector-search request although the capability flag is fallback-only. *)
Theorem searchMemoriesByEmbedding_ignores_flag (E : Runtime) (emb : list float)
    (params : SearchByEmbeddingParams) (st : Adapter) :
  isConnected st = true -> hasVectorSearch st = false ->
  In (Issued (VectorSearch Memories))
     (events (snd (searchMemoriesByEmbedding E emb params st))).
Proof.
  intros Hc _. unfold searchMemoriesByEmbedding, bindM.
  rewrite (ensureConnection_connected st Hc), issue_run.
  destruct (fails (database st) (VectorSearch Memories)); simpl.
  - apply in_or_app. right. left. reflexivity.
  - unfold liftC. simpl. apply in_or_app. right. left. reflexivity.
Qed.

Lemma searchMemoriesByEmbedding_ignores_flag_witness :
  In (Issued (VectorSearch Memories))
     (events (snd (searchMemoriesByEmbedding literal_runtime [1%float; 0%float]
                     demo_by_embedding
                     (connected false (store_of [orthogonal_memory] []))))).
Proof.
  apply (searchMemoriesByEmbedding_ignores_flag literal_runtime [1%float; 0%float]
           demo_by_embedding (connected false (store_of [orthogonal_memory] [])));
    reflexivity.
Defined.

(** The sibling [searchMemories] does consult the flag: fallback-only, it
    sends no native request. *)
Lemma searchMemories_consults_flag E params st :
  isConnected st = true -> hasVectorSearch st = false ->
  events (snd (searchMemories E params st))
  = events st ++ [Issued (Find Memories)].
Proof.
  intros Hc Hv. unfold searchMemories, bindM.
  rewrite (ensureConnection_connected st Hc). unfold getM at 1. rewrite Hv.
  unfold searchMemoriesFallback, bindM.
  rewrite (ensureConnection_connected st Hc), issue_run.
  destruct (fails (database st) (Find Memories)); [reflexivity|].
  unfold getM, liftC. simpl.
  destruct (mapC (with_similarity _) _); [|reflexivity].
  destruct (mapC _ _); reflexivity.
Qed.

(** *** The fallback vector score *)

(** C2, on the code: in the fallback pipeline the candidate with the higher
    cosine similarity gets the strictly lower [vectorScore]; the score
    leaves [0, 1] for a negative cosine similarity, and the stage fails for
    an opposite embedding. *)
Theorem fallback_vectorScore_decreases :
  (cosineSimilarity [1; 0] [0; 1] <? cosineSimilarity [1; 0] [1; 0])%float = true /\
  fallbackVectorScore [1; 0]%float (Some [1; 0]%float) = Resolved 0.5%float /\
  fallbackVectorScore [1; 0]%float (Some [0; 1]%float) = Resolved 1%float /\
  fallbackVectorScore [1; 0]%float (Some [-3; 4]%float) = Resolved 2.5%float /\
  fallbackVectorScore [1; 0]%float (Some [-1; 0]%float) = Rejected DivideByZero.
Proof. repeat split; reflexivity. Qed.

(** *** Per-document failures in [getCachedEmbeddings] *)

(** C8, on the code: a candidate whose scoring throws is not dropped; the
    empty array its handler returns is an element of the result. *)
Theorem getCachedEmbeddings_keeps_failed_candidate :
  fst (getCachedEmbeddings literal_runtime demo_opts
         (connected false (store_of [fieldless_memory; scorable_memory] [])))
  = Resolved [EmptyArray; Scored (Some [1; 0]%float) 3].
Proof. reflexivity. Qed.

(** *** Sorting *)

Section Sorting.
Context {A : Type} (before : A -> A -> bool).

Lemma insert_by_perm x l : Permutation (insert_by before x l) (x :: l).
Proof.
  induction l as [|y l IH]; simpl; [reflexivity|].
  destruct (before x y); [reflexivity|].
  rewrite IH. apply perm_swap.
Qed.

Lemma sort_by_perm l : Permutation (sort_by before l) l.
Proof.
  induction l as [|x l IH]; simpl; [reflexivity|].
  unfold sort_by in *. simpl. rewrite insert_by_perm. now rewrite IH.
Qed.

Hypothesis before_total : forall x y, before x y = false -> before y x = true.

Lemma insert_by_sorted x l :
  Sorted (fun a b => before a b = true) l ->
  Sorted (fun a b => before a b = true) (insert_by before x l).
Proof.
  induction 1 as [|y l Hsorted IH Hhd]; simpl.
  - repeat constructor.
  - destruct (before x y) eqn:Hxy.
    + constructor; [constructor; assumption|]. constructor. assumption.
    + constructor; [assumption|].
      destruct l as [|z l]; simpl.
      * constructor. now apply before_total.
      * destruct (before x z); constructor;
          [now apply before_total | now inversion Hhd].
Qed.

Lemma sort_by_sorted l : Sorted (fun a b => before a b = true) (sort_by before l).
Proof.
  induction l as [|x l IH]; [constructor|].
  apply insert_by_sorted, IH.
Qed.

End Sorting.

(** *** The order of the sort stage *)







(** *** Maps that can throw *)

Lemma mapC_resolved {A B} (f : A -> Completion B) l ys :
  mapC f l = Resolved ys -> Forall2 (fun x y => f x = Resolved y) l ys.
Proof.
  revert ys. induction l as [|x l IH]; simpl; intros ys H.
  - injection H as <-. constructor.
  - destruct (f x) as [y|] eqn:Hfx; [|discriminate].
    destruct (mapC f l) as [ys'|]; [|discriminate].
    injection H as <-. constructor; auto.
Qed.

Lemma Forall2_In_r {A B} (R : A -> B -> Prop) l ys y :
  Forall2 R l ys -> In y ys -> exists x, In x l /\ R x y.
Proof.
  induction 1 as [|x y' l ys Hxy _ IH]; simpl; [tauto|].
  intros [->|Hin]; [exists x; auto|].
  destruct (IH Hin) as (x' & Hx' & HR). exists x'. auto.
Qed.

(** *** The hybrid scorer *)

(** C1: [searchMemories] never reads [match_threshold]. Its fallback
    path, called with threshold 0.95, returns a memory whose similarity to
    the query is 0, which satisfies neither branch of the acceptance rule
    whatever its keyword score. *)
Lemma searchMemories_returns_rejected_candidate :
  exists h,
    fst (searchMemories literal_runtime demo_search
           (connected false (store_of [orthogonal_memory] []))) = Resolved [h]
    /\ similarity h = Some 0%float
    /\ forall ks : float,
         bson_gte 0 (sm_match_threshold demo_search)
         || (bson_gt ks 1.0 && bson_gte 0 0.3) = false.
Proof.
  eexists. split; [reflexivity|]. split; [reflexivity|].
  intros ks. change (bson_gte 0 (sm_match_threshold demo_search)) with false.
  change (bson_gte 0 0.3) with false. simpl. apply andb_false_r.
Qed.

(** An empty query text earns no boost, although every text contains it:
    [calculateKeywordScore] tests [searchText] for truthiness first. *)
Example empty_query_text_no_boost :
  match calculateKeywordScore literal_runtime (Some "") with
  | Resolved keyword =>
      keyword (demo_knowledge "far" "say hello" false [0; 1]%float)
  | Rejected e => Rejected e
  end = Resolved 1%float
  /\ contains "" (toLowerCase "say hello") = true.
Proof. split; reflexivity. Qed.

(** [toLowerCase] lowers the capitals of Latin-1, [$toLower] those of
    ASCII only: a query text of the code unit 201 is lowered to 233, and
    does not match a stored text of the code unit 201, which the store
    leaves as it is. *)
Example lower_case_latin1 :
  toLowerCase (String (ascii_of_nat 201) "A") = String (ascii_of_nat 233) "a" /\
  bson_lower (String (ascii_of_nat 201) "A") = String (ascii_of_nat 201) "a" /\
  match calculateKeywordScore literal_runtime
          (Some (String (ascii_of_nat 201) "")) with
  | Resolved keyword =>
      keyword (demo_knowledge "far" (String (ascii_of_nat 201) "") false
                 [0; 1]%float)
  | Rejected e => Rejected e
  end = Resolved 1%float.
Proof. repeat split; reflexivity. Qed.



Section Scorer.
Variable E : Runtime.
Variable params : SearchKnowledgeParams.

(** The regular-expression engine reads the lower-cased query text as a
    literal: matching is containment. *)
Hypothesis query_literal :
  forall q input,
    kp_searchText params = Some q ->
    regexMatch E (toLowerCase q) input = contains (toLowerCase q) input.



End Scorer.

Lemma accepted_spec threshold c :
  accepted threshold c = true <->
  exists v,
    vectorScore c = Some v /\
    (bson_gte v threshold = true \/
     (bson_gt (keywordScore c) 1.0 = true /\ bson_gte v 0.3 = true)).
Proof.
  unfold accepted. destruct (vectorScore c) as [v|].
  - rewrite orb_true_iff, andb_true_iff. split.
    + intros H. exists v. auto.
    + intros (v' & [= <-] & H). assumption.
  - split; [discriminate | intros (v & H & _); discriminate].
Qed.


Lemma fallbackSearchKnowledge_resolved E params st r st' :
  fallbackSearchKnowledge E params st = (Resolved r, st') ->
  exists pipeline,
    getKnowledgeSearchPipeline E (hasVectorSearch st) params = Resolved pipeline /\
    pipeline (fallback_candidates params (database st)) = Resolved r.
Proof.
  unfold fallbackSearchKnowledge, bindM, getM, liftC.
  destruct (getKnowledgeSearchPipeline E (hasVectorSearch st) params)
    as [pipeline|]; [|discriminate].
  rewrite issue_run.
  destruct (fails (database st) (Aggregate Knowledge)); [discriminate|].
  simpl. intros [= H _]. exists pipeline. auto.
Qed.

(** *** Failure of the native search *)

Lemma vectorSearchKnowledge_isConnected E params st :
  isConnected (snd (vectorSearchKnowledge E params st)) = isConnected st.
Proof.
  unfold vectorSearchKnowledge, bindM, getM, liftC.
  destruct (getKnowledgeSearchPipeline E (hasVectorSearch st) params);
    [|reflexivity].
  rewrite issue_run.
  destruct (fails (database st) (VectorSearch Knowledge)); reflexivity.
Qed.

Lemma fallbackSearchKnowledge_isConnected E params st :
  isConnected (snd (fallbackSearchKnowledge E params st)) = isConnected st.
Proof.
  unfold fallbackSearchKnowledge, bindM, getM, liftC.
  destruct (getKnowledgeSearchPipeline E (hasVectorSearch st) params);
    [|reflexivity].
  rewrite issue_run.
  destruct (fails (database st) (Aggregate Knowledge)); reflexivity.
Qed.

Lemma getCache_run key agent st :
  isConnected st = true ->
  getCache key agent st =
  (if fails (database st) (FindOne Cache)
   then Rejected (StoreError (FindOne Cache))
   else Resolved
          (option_map c_value
             (List.find (cache_hit key agent (now (database st)))
                (cache (database st)))),
   with_events (events st ++ [Issued (FindOne Cache)]) st).
Proof.
  intros Hc. unfold getCache, bindM.
  rewrite (ensureConnection_connected st Hc), issue_run.
  destruct (fails (database st) (FindOne Cache)); reflexivity.
Qed.

Lemma setCache_run key agent value st :
  isConnected st = true ->
  setCache key agent value st =
  if fails (database st) (UpdateOne Cache)
  then (Resolved false,
        with_events
          ((events st ++ [Issued (UpdateOne Cache)])
           ++ [Logged (StoreError (UpdateOne Cache))]) st)
  else (Resolved true,
        with_database
          (with_cache
             (upsert_cache key agent value (now (database st)) (cache (database st)))
             (database st))
          (with_events (events st ++ [Issued (UpdateOne Cache)]) st)).
Proof.
  intros Hc. unfold setCache, bindM, try_catch.
  rewrite (ensureConnection_connected st Hc), issue_run.
  destruct (fails (database st) (UpdateOne Cache)); reflexivity.
Qed.

Lemma cache_results_run E params results st :
  isConnected st = true ->
  cache_results E params results st =
  match mapC (to_item E) results with
  | Rejected e => (Rejected e, st)
  | Resolved items =>
      (Resolved items,
       snd (setCache (cacheKey params) (kp_agentId params)
              (JSON_stringify_items E items) st))
  end.
Proof.
  intros Hc. unfold cache_results, bindM, liftC.
  destruct (mapC (to_item E) results) as [items|]; [|reflexivity].
  rewrite (setCache_run _ _ _ st Hc).
  destruct (fails (database st) (UpdateOne Cache)); reflexivity.
Qed.

Lemma searchKnowledge_miss E params st cached st0 :
  isConnected st = true ->
  getCache (cacheKey params) (kp_agentId params) st = (Resolved cached, st0) ->
  when_truthy cached = None ->
  searchKnowledge E params st
  = try_catch
      (let! results := search_paths E params in cache_results E params results)
      (fun e => run! logError e in throwM e) st0.
Proof.
  intros Hc Hcache Hmiss. unfold searchKnowledge, bindM at 1.
  rewrite (ensureConnection_connected st Hc).
  unfold bindM at 1. rewrite Hcache, Hmiss. reflexivity.
Qed.

Lemma search_paths_native_failed E params st e st1 :
  hasVectorSearch st = true ->
  vectorSearchKnowledge E params st = (Rejected e, st1) ->
  search_paths E params st
  = fallbackSearchKnowledge E params (with_events (events st1 ++ [Logged e]) st1).
Proof.
  intros Hv Hnative. unfold search_paths, bindM at 1, getM.
  rewrite Hv. unfold try_catch. rewrite Hnative. reflexivity.
Qed.

Lemma vectorSearchKnowledge_down E params st :
  fails (database st) (VectorSearch Knowledge) = true ->
  exists e st1,
    vectorSearchKnowledge E params st = (Rejected e, st1) /\ framed st st1.
Proof.
  intros Hfail. unfold vectorSearchKnowledge, bindM, getM, liftC.
  destruct (getKnowledgeSearchPipeline E (hasVectorSearch st) params).
  - rewrite issue_run, Hfail. eexists _, _. split; [reflexivity|].
    repeat split.
  - eexists _, _. split; [reflexivity|]. repeat split.
Qed.

Lemma filter_none {A} (f : A -> bool) l :
  (forall x, In x l -> f x = false) -> List.filter f l = [].
Proof.
  induction l as [|x l IH]; simpl; intros H; [reflexivity|].
  rewrite (H x) by auto. apply IH. auto.
Qed.

Lemma mapC_resolves {A B} (f : A -> Completion B) l :
  (forall x, In x l -> exists y, f x = Resolved y) ->
  exists ys, mapC f l = Resolved ys.
Proof.
  induction l as [|x l IH]; simpl; intros H; [eexists; reflexivity|].
  destruct (H x) as (y & ->); [auto|].
  destruct IH as (ys & ->); [auto|]. eexists; reflexivity.
Qed.

(** With the capability flag set, the pipeline reads [vectorScore] from
    the metadata of a search stage; the candidates of the fallback path
    carry none, and the filter accepts none of them. *)
Lemma flagged_pipeline_accepts_nothing query keyword threshold candidates scored :
  (forall p, In p candidates -> snd p = None) ->
  mapC (add_scores true query keyword) candidates = Resolved scored ->
  List.filter (accepted threshold) scored = [].
Proof.
  intros Hmeta Hmap. apply filter_none. intros c Hin.
  apply mapC_resolved in Hmap.
  destruct (Forall2_In_r _ _ _ _ Hmap Hin) as ([d meta] & Hd & Hc).
  apply Hmeta in Hd. simpl in Hd. subst meta.
  unfold add_scores in Hc. destruct (keyword d); [|discriminate].
  injection Hc as <-. reflexivity.
Qed.

Lemma fallback_candidates_meta params db p :
  In p (fallback_candidates params db) -> snd p = None.
Proof.
  unfold fallback_candidates. intros Hin. apply in_map_iff in Hin.
  destruct Hin as (d & <- & _). reflexivity.
Qed.

Lemma fallbackSearchKnowledge_flagged E params st r st' :
  hasVectorSearch st = true ->
  fallbackSearchKnowledge E params st = (Resolved r, st') -> r = [].
Proof.
  intros Hv Hrun. apply fallbackSearchKnowledge_resolved in Hrun.
  destruct Hrun as (pipeline & Hpipe & Hr). rewrite Hv in Hpipe.
  unfold getKnowledgeSearchPipeline in Hpipe.
  destruct (calculateKeywordScore E (kp_searchText params)) as [keyword|];
    [|discriminate].
  injection Hpipe as <-.
  destruct (mapC _ _) as [scored|] eqn:Hmap; [|discriminate].
  injection Hr as <-.
  rewrite (flagged_pipeline_accepts_nothing _ _ _ _ _
             (fallback_candidates_meta params (database st)) Hmap).
  reflexivity.
Qed.

Lemma fallbackSearchKnowledge_flagged_resolves E params st keyword :
  hasVectorSearch st = true ->
  calculateKeywordScore E (kp_searchText params) = Resolved keyword ->
  (forall d, In d (knowledge (database st)) -> exists ks, keyword d = Resolved ks) ->
  fails (database st) (Aggregate Knowledge) = false ->
  fst (fallbackSearchKnowledge E params st) = Resolved [].
Proof.
  intros Hv Hkw Hall Hagg.
  unfold fallbackSearchKnowledge, bindM, getM, liftC.
  rewrite Hv. unfold getKnowledgeSearchPipeline. rewrite Hkw.
  rewrite issue_run, Hagg. cbn [fst snd database with_events].
  destruct (mapC_resolves (add_scores true (kp_embedding params) keyword)
              (fallback_candidates params (database st))) as (scored & Hmap).
  { intros [d meta] Hin.
    pose proof (fallback_candidates_meta _ _ _ Hin) as Hmeta. simpl in Hmeta.
    subst meta. unfold fallback_candidates in Hin. apply in_map_iff in Hin.
    destruct Hin as (d0 & [= <-] & Hd0). apply filter_In in Hd0.
    destruct (Hall d0 (proj1 Hd0)) as (ks & Hks).
    unfold add_scores. rewrite Hks. eexists; reflexivity. }
  rewrite Hmap.
  rewrite (flagged_pipeline_accepts_nothing _ _ _ _ _
             (fallback_candidates_meta params (database st)) Hmap).
  reflexivity.
Qed.

(** C3: the claim fails for [searchKnowledge]. While the capability flag
    reads native-available and the native request throws, the call does
    catch the failure and run the fallback search, but with the flag still
    set: the pipeline of the retry takes [vectorScore] from the metadata of
    a search stage that the fallback does not have, and its filter rejects
    every candidate. So every result the call resolves with is empty, and
    it does resolve with the empty list when the aggregation succeeds,
    whatever the store holds. *)
Theorem native_failure_knowledge_fallback_empty (E : Runtime)
    (params : SearchKnowledgeParams) (st : Adapter) :
  isConnected st = true -> hasVectorSearch st = true ->
  fails (database st) (FindOne Cache) = false ->
  List.find (cache_hit (cacheKey params) (kp_agentId params) (now (database st)))
    (cache (database st)) = None ->
  fails (database st) (VectorSearch Knowledge) = true ->
  (forall items,
     fst (searchKnowledge E params st) = Resolved items -> items = []) /\
  (forall keyword,
     calculateKeywordScore E (kp_searchText params) = Resolved keyword ->
     (forall d, In d (knowledge (database st)) ->
        exists ks, keyword d = Resolved ks) ->
     fails (database st) (Aggregate Knowledge) = false ->
     fst (searchKnowledge E params st) = Resolved []).
Proof.
  intros Hc Hv Hfind Hmiss Hnative.
  set (st0 := with_events (events st ++ [Issued (FindOne Cache)]) st).
  destruct (vectorSearchKnowledge_down E params st0 Hnative)
    as (e & st1 & Hn & Hc1 & Hv1 & Hdb1).
  change (isConnected st0) with (isConnected st) in Hc1.
  change (hasVectorSearch st0) with (hasVectorSearch st) in Hv1.
  change (database st0) with (database st) in Hdb1.
  set (st2 := with_events (events st1 ++ [Logged e]) st1).
  assert (Hc2 : isConnected st2 = true) by (subst st2; simpl; congruence).
  assert (Hv2 : hasVectorSearch st2 = true) by (subst st2; simpl; congruence).
  assert (Hdb2 : database st2 = database st) by (subst st2; simpl; congruence).
  assert (Hsk : fst (searchKnowledge E params st)
                = match fst (fallbackSearchKnowledge E params st2) with
                  | Resolved results => mapC (to_item E) results
                  | Rejected e' => Rejected e'
                  end).
  { rewrite (searchKnowledge_miss E params st None st0 Hc);
      [| now rewrite (getCache_run _ _ st Hc), Hfind, Hmiss | reflexivity].
    unfold try_catch, bindM at 1.
    rewrite (search_paths_native_failed E params st0 e st1 Hv Hn).
    fold st2.
    pose proof (fallbackSearchKnowledge_isConnected E params st2) as Hc3.
    destruct (fallbackSearchKnowledge E params st2) as [[results|e'] st3];
      [|reflexivity].
    simpl in Hc3.
    rewrite (cache_results_run E params results st3) by congruence.
    simpl. destruct (mapC (to_item E) results); reflexivity. }
  split.
  - intros items Hitems. rewrite Hsk in Hitems.
    destruct (fallbackSearchKnowledge E params st2) as [[results|e'] st3] eqn:Hfb;
      [|discriminate].
    apply (fallbackSearchKnowledge_flagged E params st2 _ _ Hv2) in Hfb.
    subst results. simpl in Hitems. now injection Hitems as <-.
  - intros keyword Hkw Hall Hagg. rewrite Hsk.
    rewrite (fallbackSearchKnowledge_flagged_resolves E params st2 keyword Hv2 Hkw);
      [reflexivity | now rewrite Hdb2 | now rewrite Hdb2].
Qed.

Lemma native_failure_knowledge_fallback_empty_witness :
  fst (searchKnowledge literal_runtime demo_knowledge_search native_down)
  = Resolved [] /\
  option_map (map r_id)
    (match fst (searchKnowledge literal_runtime demo_knowledge_search
                  (connected false (store_of [orthogonal_memory] demo_documents)))
     with Resolved items => Some items | Rejected _ => None end)
  = Some ["far"; "chunk"].
Proof.
  split; [|reflexivity].
  destruct (calculateKeywordScore literal_runtime
              (kp_searchText demo_knowledge_search)) as [keyword|] eqn:Hkw;
    [|discriminate].
  apply (native_failure_knowledge_fallback_empty literal_runtime
           demo_knowledge_search native_down
           eq_refl eq_refl eq_refl eq_refl eq_refl) with (keyword := keyword).
  - exact Hkw.
  - injection Hkw as <-. intros d Hd. simpl in Hd.
    destruct Hd as [<-|[<-|[<-|[]]]]; eexists; reflexivity.
  - reflexivity.
Defined.

(** *** The dedup gate *)

Lemma insertMemory_run d st :
  insertMemory d st =
  if fails (database st) (InsertOne d)
  then (Rejected (StoreError (InsertOne d)),
        with_events (events st ++ [Issued (InsertOne d)]) st)
  else (Resolved tt,
        with_database (with_memories (memories (database st) ++ [d]) (database st))
          (with_events (events st ++ [Issued (InsertOne d)]) st)).
Proof.
  unfold insertMemory, bindM. rewrite issue_run.
  destruct (fails (database st) (InsertOne d)); reflexivity.
Qed.

(** [createMemory] on a connected adapter, step by step. *)
Lemma createMemory_run E memory tableName st :
  isConnected st = true ->
  createMemory E memory tableName st =
  let finish (isUnique : bool) (st1 : Adapter) :=
    let doc := memory_document memory tableName isUnique (database st1) in
    if fails (database st1) (InsertOne doc)
    then (Resolved tt,
          with_events
            ((events st1 ++ [Issued (InsertOne doc)])
             ++ [Logged (StoreError (InsertOne doc))]) st1)
    else (Resolved tt,
          with_database
            (with_memories (memories (database st1) ++ [doc]) (database st1))
            (with_events (events st1 ++ [Issued (InsertOne doc)]) st1)) in
  match embedding memory with
  | None => finish true st
  | Some emb =>
      match searchMemories E (dedup_search memory tableName emb) st with
      | (Resolved hits, st1) => finish (length hits =? 0) st1
      | (Rejected e, st1) =>
          (Resolved tt, with_events (events st1 ++ [Logged e]) st1)
      end
  end.
Proof.
  intros Hc. unfold createMemory, bindM at 1.
  rewrite (ensureConnection_connected st Hc).
  unfold try_catch, bindM at 1.
  destruct (embedding memory) as [emb|].
  - unfold bindM at 1.
    destruct (searchMemories E (dedup_search memory tableName emb) st)
      as [[hits|e] st1]; [|reflexivity].
    unfold retM, bindM, getM. rewrite insertMemory_run.
    destruct (fails (database st1) _); reflexivity.
  - unfold retM, bindM, getM. rewrite insertMemory_run.
    destruct (fails (database st) _); reflexivity.
Qed.

(** C5: with an embedding, [createMemory] runs the similarity search over
    the same table, room and agent, restricted to unique records, with
    threshold 0.95 and count 1, and inserts the record with [unique] true
    exactly when the search returned nothing; without an embedding it
    sends no search and inserts the record with [unique] true. *)
Theorem createMemory_dedup (E : Runtime) (memory : Memory) (tableName : string)
    (st : Adapter) :
  isConnected st = true ->
  (forall emb hits st1,
     embedding memory = Some emb ->
     searchMemories E
       {| sm_tableName := tableName;
          sm_roomId := roomId memory;
          sm_agentId := Some (agentId memory);
          sm_embedding := emb;
          sm_match_threshold := 0.95%float;
          sm_match_count := 1;
          sm_unique := true |} st = (Resolved hits, st1) ->
     exists doc,
       doc = memory_document memory tableName (length hits =? 0) (database st1) /\
       (m_unique doc = true <-> hits = []) /\
       (fails (database st1) (InsertOne doc) = false ->
        createMemory E memory tableName st
        = (Resolved tt,
           with_database
             (with_memories (memories (database st1) ++ [doc]) (database st1))
             (with_events (events st1 ++ [Issued (InsertOne doc)]) st1)))) /\
  (embedding memory = None ->
   exists doc,
     doc = memory_document memory tableName true (database st) /\
     m_unique doc = true /\
     events (snd (createMemory E memory tableName st))
       = events st ++ [Issued (InsertOne doc)]
         ++ (if fails (database st) (InsertOne doc)
             then [Logged (StoreError (InsertOne doc))] else []) /\
     (fails (database st) (InsertOne doc) = false ->
      createMemory E memory tableName st
      = (Resolved tt,
         with_database
           (with_memories (memories (database st) ++ [doc]) (database st))
           (with_events (events st ++ [Issued (InsertOne doc)]) st)))).
Proof.
  intros Hc. pose proof (createMemory_run E memory tableName st Hc) as Hrun.
  cbv zeta in Hrun. split.
  - intros emb hits st1 Hemb Hsearch. eexists. split; [reflexivity|]. split.
    + simpl. rewrite Nat.eqb_eq. apply length_zero_iff_nil.
    + intros Hok. rewrite Hrun, Hemb. unfold dedup_search.
      rewrite Hsearch, Hok. reflexivity.
  - intros Hemb. eexists. split; [reflexivity|]. split; [reflexivity|].
    rewrite Hrun, Hemb.
    destruct (fails (database st) _); (split; [|try discriminate; reflexivity]);
      simpl; [now rewrite <- app_assoc | reflexivity].
Qed.

Lemma createMemory_dedup_witness :
  map m_unique
    (memories (database (snd (createMemory literal_runtime
                                (demo_memory (Some [0; 1]%float)) "messages"
                                (connected false (store_of [orthogonal_memory] []))))))
  = [true; false] /\
  map m_unique
    (memories (database (snd (createMemory literal_runtime
                                (demo_memory None) "messages"
                                (connected false (store_of [orthogonal_memory] []))))))
  = [true; true].
Proof.
  split.
  - destruct (createMemory_dedup literal_runtime (demo_memory (Some [0; 1]%float))
                "messages" (connected false (store_of [orthogonal_memory] []))
                eq_refl) as [Hwith _].
    destruct (Hwith [0; 1]%float
                [{| hit := orthogonal_memory; similarity := Some 1%float |}]
                (with_events [Issued (Find Memories)]
                   (connected false (store_of [orthogonal_memory] [])))
                eq_refl eq_refl) as (doc & -> & _ & Hrun).
    rewrite (Hrun eq_refl). reflexivity.
  - destruct (createMemory_dedup literal_runtime (demo_memory None)
                "messages" (connected false (store_of [orthogonal_memory] []))
                eq_refl) as [_ Hwithout].
    destruct (Hwithout eq_refl) as (doc & -> & _ & _ & Hrun).
    rewrite (Hrun eq_refl). reflexivity.
Defined.

(** *** Failures inside [createMemory] *)

(** C10, as stated, fails: on an adapter that is not connected and whose
    store refuses the connection, [createMemory] rejects. *)
Lemma createMemory_raises_connection_failure :
  fst (createMemory literal_runtime (demo_memory None) "messages" unreachable_store)
  = Rejected (StoreError Connect).
Proof. reflexivity. Qed.

Lemma searchMemoriesFallback_database E emb query limit st :
  isConnected st = true ->
  database (snd (searchMemoriesFallback E emb query limit st)) = database st.
Proof.
  intros Hc. unfold searchMemoriesFallback, bindM.
  rewrite (ensureConnection_connected st Hc), issue_run.
  destruct (fails (database st) (Find Memories)); [reflexivity|].
  unfold getM, liftC. simpl.
  destruct (mapC (with_similarity _) _); [|reflexivity].
  destruct (mapC _ _); reflexivity.
Qed.

Lemma searchMemories_database E params st :
  isConnected st = true ->
  database (snd (searchMemories E params st)) = database st.
Proof.
  intros Hc. unfold searchMemories, bindM at 1.
  rewrite (ensureConnection_connected st Hc).
  unfold bindM at 1, getM at 1.
  destruct (hasVectorSearch st).
  - unfold try_catch, bindM at 1. rewrite issue_run.
    destruct (fails (database st) (VectorSearch Memories)).
    + unfold bindM, logError, record, record_all.
      rewrite searchMemoriesFallback_database; [reflexivity | exact Hc].
    + unfold bindM, getM, liftC. simpl.
      destruct (mapC _ _); [reflexivity|].
      unfold logError, record, record_all.
      rewrite searchMemoriesFallback_database; [reflexivity | exact Hc].
  - apply searchMemoriesFallback_database, Hc.
Qed.

Lemma ensureConnection_resolved st st0 :
  ensureConnection st = (Resolved tt, st0) -> isConnected st0 = true.
Proof.
  unfold ensureConnection, bindM at 1, getM at 1.
  destruct (isConnected st) eqn:Hc.
  { intros [= <-]. exact Hc. }
  unfold init, bindM at 1, getM at 1. rewrite Hc.
  unfold try_catch, bindM at 1. rewrite issue_run.
  destruct (fails (database st) Connect); [discriminate|].
  unfold bindM at 1.
  destruct (initializeStandardIndexes _) as [[[]|e] st1]; [|discriminate].
  unfold bindM at 1.
  destruct (initializeVectorSearch _) as [[[]|e] st2]; [|discriminate].
  unfold bindM, getM, set_flags. intros [= <-]. reflexivity.
Qed.

Lemma createMemory_after_connection E memory tableName st st0 :
  ensureConnection st = (Resolved tt, st0) ->
  createMemory E memory tableName st = createMemory E memory tableName st0.
Proof.
  intros Hens. pose proof (ensureConnection_resolved st st0 Hens) as Hc.
  unfold createMemory. unfold bindM at 1. rewrite Hens.
  symmetry. unfold bindM at 1.
  rewrite (ensureConnection_connected st0 Hc). reflexivity.
Qed.

(** C10, amended: once [ensureConnection] has resolved, [createMemory]
    resolves whatever fails afterwards: an error of the similarity search
    is caught and logged, and so is an error of the insert, after which the
    [memories] collection is as it was. *)
Theorem createMemory_swallows_failures (E : Runtime) (memory : Memory)
    (tableName : string) (st st0 : Adapter) :
  ensureConnection st = (Resolved tt, st0) ->
  fst (createMemory E memory tableName st) = Resolved tt /\
  (forall emb e st1,
     embedding memory = Some emb ->
     searchMemories E (dedup_search memory tableName emb) st0 = (Rejected e, st1) ->
     snd (createMemory E memory tableName st)
       = with_events (events st1 ++ [Logged e]) st1 /\
     memories (database (snd (createMemory E memory tableName st)))
       = memories (database st0)) /\
  (forall isUnique st1,
     (embedding memory = None /\ st1 = st0 /\ isUnique = true) \/
     (exists emb hits,
        embedding memory = Some emb /\
        searchMemories E (dedup_search memory tableName emb) st0
          = (Resolved hits, st1) /\
        isUnique = (length hits =? 0)) ->
     fails (database st1)
       (InsertOne (memory_document memory tableName isUnique (database st1)))
       = true ->
     In (Logged (StoreError
           (InsertOne (memory_document memory tableName isUnique (database st1)))))
        (events (snd (createMemory E memory tableName st))) /\
     memories (database (snd (createMemory E memory tableName st)))
       = memories (database st0)).
Proof.
  intros Hens. pose proof (ensureConnection_resolved st st0 Hens) as Hc.
  rewrite (createMemory_after_connection E memory tableName st st0 Hens).
  pose proof (createMemory_run E memory tableName st0 Hc) as Hrun.
  cbv zeta in Hrun. split; [|split].
  - rewrite Hrun. destruct (embedding memory) as [emb|].
    + destruct (searchMemories E _ st0) as [[hits|e] st1]; [|reflexivity].
      destruct (fails (database st1) _); reflexivity.
    + destruct (fails (database st0) _); reflexivity.
  - intros emb e st1 Hemb Hsearch. rewrite Hrun, Hemb, Hsearch.
    split; [reflexivity|]. simpl.
    pose proof (searchMemories_database E (dedup_search memory tableName emb)
                  st0 Hc) as Hdb.
    rewrite Hsearch in Hdb. simpl in Hdb. now rewrite Hdb.
  - intros isUnique st1 Hcase Hfail. rewrite Hrun.
    destruct Hcase as [(Hemb & -> & ->)|(emb & hits & Hemb & Hsearch & ->)].
    + rewrite Hemb, Hfail. simpl. split; [|reflexivity].
      apply in_or_app. right. left. reflexivity.
    + rewrite Hemb, Hsearch, Hfail. simpl. split.
      * apply in_or_app. right. left. reflexivity.
      * pose proof (searchMemories_database E (dedup_search memory tableName emb)
                      st0 Hc) as Hdb.
        rewrite Hsearch in Hdb. simpl in Hdb. now rewrite Hdb.
Qed.

Lemma createMemory_swallows_failures_witness :
  fst (createMemory literal_runtime (demo_memory None) "messages" insert_down)
  = Resolved tt /\
  memories (database (snd (createMemory literal_runtime (demo_memory None)
                             "messages" insert_down)))
  = [orthogonal_memory].
Proof.
  destruct (createMemory_swallows_failures literal_runtime (demo_memory None)
              "messages" insert_down insert_down eq_refl)
    as (Hres & _ & Hinsert).
  split; [exact Hres|].
  destruct (Hinsert true insert_down (or_introl (conj eq_refl (conj eq_refl eq_refl)))
              eq_refl) as [_ Hmem].
  exact Hmem.
Defined.

(** *** The result cache *)

Lemma framed_refl st : framed st st.
Proof. repeat split. Qed.

Lemma framed_trans st st' st'' : framed st st' -> framed st' st'' -> framed st st''.
Proof. unfold framed. intros (-> & -> & ->) (-> & -> & ->). repeat split. Qed.

Lemma framed_events st evs : framed st (with_events evs st).
Proof. repeat split. Qed.

Lemma vectorSearchKnowledge_framed E params st :
  framed st (snd (vectorSearchKnowledge E params st)).
Proof.
  unfold vectorSearchKnowledge, bindM, getM, liftC.
  destruct (getKnowledgeSearchPipeline E (hasVectorSearch st) params);
    [|apply framed_refl].
  rewrite issue_run.
  destruct (fails (database st) (VectorSearch Knowledge)); apply framed_events.
Qed.

Lemma fallbackSearchKnowledge_framed E params st :
  framed st (snd (fallbackSearchKnowledge E params st)).
Proof.
  unfold fallbackSearchKnowledge, bindM, getM, liftC.
  destruct (getKnowledgeSearchPipeline E (hasVectorSearch st) params);
    [|apply framed_refl].
  rewrite issue_run.
  destruct (fails (database st) (Aggregate Knowledge)); apply framed_events.
Qed.

Lemma search_paths_framed E params st :
  framed st (snd (search_paths E params st)).
Proof.
  unfold search_paths, bindM, getM.
  destruct (hasVectorSearch st); [|apply fallbackSearchKnowledge_framed].
  unfold try_catch.
  pose proof (vectorSearchKnowledge_framed E params st) as Hnative.
  destruct (vectorSearchKnowledge E params st) as [[r|e] st1];
    [exact Hnative|].
  unfold bindM, logError, record, record_all.
  eapply framed_trans; [exact Hnative|].
  eapply framed_trans; [apply (framed_events st1)|].
  apply fallbackSearchKnowledge_framed.
Qed.

Lemma same_cache_key_hit key agent t c :
  cache_hit key agent t c = same_cache_key key agent c && (t <? c_expiresAt c)%Z.
Proof. reflexivity. Qed.

(** After an upsert at time [t0], a lookup before the expiry finds the
    value written. *)
Lemma find_upsert_fresh key agent value t0 t1 l :
  (t1 < t0 + cache_ttl)%Z ->
  exists entry,
    List.find (cache_hit key agent t1) (upsert_cache key agent value t0 l)
      = Some entry /\
    c_value entry = value /\ c_expiresAt entry = (t0 + cache_ttl)%Z.
Proof.
  intros Ht. induction l as [|c l IH]; simpl.
  - unfold cache_hit. simpl. rewrite !String.eqb_refl.
    destruct (Z.ltb_spec t1 (t0 + cache_ttl)); [|lia]. simpl.
    eexists. split; [reflexivity|]. auto.
  - destruct (same_cache_key key agent c) eqn:Hkey; simpl.
    + rewrite same_cache_key_hit. unfold same_cache_key in *. simpl.
      rewrite Hkey. destruct (Z.ltb_spec t1 (t0 + cache_ttl)); [|lia]. simpl.
      eexists. split; [reflexivity|]. auto.
    + rewrite same_cache_key_hit, Hkey. simpl. exact IH.
Qed.

(** After an upsert at time [t0] into a cache with no live entry for the
    key, a lookup at or after the expiry finds nothing. *)
Lemma find_upsert_expired key agent value t0 t1 l :
  List.find (cache_hit key agent t0) l = None ->
  (t0 + cache_ttl <= t1)%Z ->
  List.find (cache_hit key agent t1) (upsert_cache key agent value t0 l) = None.
Proof.
  intros Hmiss Ht.
  assert (Hold : List.find (cache_hit key agent t1) l = None).
  { assert (Hle : (t0 <= t1)%Z) by (unfold cache_ttl in Ht; lia).
    clear Ht. induction l as [|c l IH]; [reflexivity|].
    simpl in *. rewrite same_cache_key_hit in *.
    destruct (same_cache_key key agent c); simpl in *; [|auto].
    destruct (Z.ltb_spec t0 (c_expiresAt c)); [discriminate|].
    destruct (Z.ltb_spec t1 (c_expiresAt c)); [lia|]. auto. }
  clear Hmiss. induction l as [|c l IH]; simpl.
  - unfold cache_hit. simpl.
    destruct (Z.ltb_spec t1 (t0 + cache_ttl)); [lia|].
    now rewrite andb_false_r.
  - simpl in Hold. rewrite same_cache_key_hit in Hold.
    destruct (same_cache_key key agent c) eqn:Hkey; simpl in *.
    + rewrite same_cache_key_hit. unfold same_cache_key in *. simpl.
      rewrite Hkey. destruct (Z.ltb_spec t1 (t0 + cache_ttl)); [lia|]. simpl.
      destruct (t1 <? c_expiresAt c)%Z; [discriminate | exact Hold].
    + rewrite same_cache_key_hit, Hkey. simpl. auto.
Qed.

(** A call that finds a live entry returns what [JSON.parse] makes of the
    stored value, and sends the store nothing but the cache lookup. *)
Lemma searchKnowledge_hit E params st entry :
  isConnected st = true ->
  fails (database st) (FindOne Cache) = false ->
  List.find (cache_hit (cacheKey params) (kp_agentId params) (now (database st)))
    (cache (database st)) = Some entry ->
  truthy (c_value entry) = true ->
  searchKnowledge E params st
  = (match JSON_parse_items E (c_value entry) with
     | Some items => Resolved items
     | None => Rejected SyntaxError
     end,
     with_events (events st ++ [Issued (FindOne Cache)]) st).
Proof.
  intros Hc Hfind Hentry Htruthy. unfold searchKnowledge, bindM at 1.
  rewrite (ensureConnection_connected st Hc). unfold bindM at 1.
  rewrite (getCache_run _ _ st Hc), Hfind, Hentry. simpl. rewrite Htruthy.
  destruct (JSON_parse_items E (c_value entry)); reflexivity.
Qed.

(** A call that finds no live entry runs the search, and on success
    writes the serialized items to the cache and returns the items. *)
Lemma searchKnowledge_miss_run E params st results st1 items :
  isConnected st = true ->
  fails (database st) (FindOne Cache) = false ->
  fails (database st) (UpdateOne Cache) = false ->
  List.find (cache_hit (cacheKey params) (kp_agentId params) (now (database st)))
    (cache (database st)) = None ->
  search_paths E params (with_events (events st ++ [Issued (FindOne Cache)]) st)
    = (Resolved results, st1) ->
  mapC (to_item E) results = Resolved items ->
  searchKnowledge E params st
  = (Resolved items,
     with_database
       (with_cache
          (upsert_cache (cacheKey params) (kp_agentId params)
             (JSON_stringify_items E items) (now (database st))
             (cache (database st)))
          (database st))
       (with_events (events st1 ++ [Issued (UpdateOne Cache)]) st1)).
Proof.
  intros Hc Hfind Hupd Hmiss Hsearch Hitems.
  pose proof (search_paths_framed E params
                (with_events (events st ++ [Issued (FindOne Cache)]) st)) as Hfr.
  rewrite Hsearch in Hfr. destruct Hfr as (Hc1 & _ & Hdb1). simpl in Hc1, Hdb1.
  rewrite (searchKnowledge_miss E params st None
             (with_events (events st ++ [Issued (FindOne Cache)]) st) Hc).
  - unfold try_catch, bindM at 1. rewrite Hsearch.
    rewrite cache_results_run by congruence. rewrite Hitems.
    rewrite setCache_run by congruence. rewrite Hdb1, Hupd. reflexivity.
  - rewrite (getCache_run _ _ st Hc), Hfind, Hmiss. reflexivity.
  - reflexivity.
Qed.

(** C9: a [searchKnowledge] call that misses the cache computes the
    search and writes its serialized result under the key of the agent and
    the query text; an identical call less than the 24-hour TTL later
    returns that serialized result as [JSON.parse] reads it, sending the
    store nothing but the cache lookup; an identical call once the TTL has
    elapsed finds no entry, computes the search again and writes its
    result to the cache with a new expiry. *)
Theorem searchKnowledge_cache_ttl (E : Runtime) (params : SearchKnowledgeParams)
    (st st1 : Adapter) (results : list ScoredKnowledge)
    (items : list RAGKnowledgeItem) (t1 : Z) :
  isConnected st = true ->
  fails (database st) (FindOne Cache) = false ->
  fails (database st) (UpdateOne Cache) = false ->
  List.find (cache_hit (cacheKey params) (kp_agentId params) (now (database st)))
    (cache (database st)) = None ->
  search_paths E params (with_events (events st ++ [Issued (FindOne Cache)]) st)
    = (Resolved results, st1) ->
  mapC (to_item E) results = Resolved items ->
  truthy (JSON_stringify_items E items) = true ->
  (now (database st) <= t1)%Z ->
  fst (searchKnowledge E params st) = Resolved items /\
  ((t1 < now (database st) + cache_ttl)%Z ->
   searchKnowledge E params (at_time t1 (snd (searchKnowledge E params st)))
   = (match JSON_parse_items E (JSON_stringify_items E items) with
      | Some cached => Resolved cached
      | None => Rejected SyntaxError
      end,
      with_events
        (events (at_time t1 (snd (searchKnowledge E params st)))
         ++ [Issued (FindOne Cache)])
        (at_time t1 (snd (searchKnowledge E params st))))) /\
  ((now (database st) + cache_ttl <= t1)%Z ->
   forall results' st2 items',
     search_paths E params
       (with_events
          (events (at_time t1 (snd (searchKnowledge E params st)))
           ++ [Issued (FindOne Cache)])
          (at_time t1 (snd (searchKnowledge E params st))))
       = (Resolved results', st2) ->
     mapC (to_item E) results' = Resolved items' ->
     fst (searchKnowledge E params (at_time t1 (snd (searchKnowledge E params st))))
       = Resolved items' /\
     exists entry,
       List.find (cache_hit (cacheKey params) (kp_agentId params) t1)
         (cache (database
                   (snd (searchKnowledge E params
                           (at_time t1 (snd (searchKnowledge E params st)))))))
         = Some entry /\
       c_value entry = JSON_stringify_items E items' /\
       c_expiresAt entry = (t1 + cache_ttl)%Z).
Proof.
  intros Hc Hfind Hupd Hmiss Hsearch Hitems Htruthy Hle.
  pose proof (search_paths_framed E params
                (with_events (events st ++ [Issued (FindOne Cache)]) st)) as Hfr.
  rewrite Hsearch in Hfr. destruct Hfr as (Hc1 & _ & Hdb1). simpl in Hc1, Hdb1.
  rewrite (searchKnowledge_miss_run E params st results st1 items
             Hc Hfind Hupd Hmiss Hsearch Hitems).
  simpl fst. simpl snd.
  set (later := at_time t1 _).
  assert (Hcl : isConnected later = true) by (subst later; simpl; congruence).
  assert (Hfl : fails (database later) = fails (database st)) by reflexivity.
  assert (Hnow : now (database later) = t1) by reflexivity.
  assert (Hcache : cache (database later)
                   = upsert_cache (cacheKey params) (kp_agentId params)
                       (JSON_stringify_items E items) (now (database st))
                       (cache (database st))) by reflexivity.
  split; [reflexivity|]. split.
  - intros Hlt.
    destruct (find_upsert_fresh (cacheKey params) (kp_agentId params)
                (JSON_stringify_items E items) (now (database st)) t1
                (cache (database st)) Hlt) as (entry & Hentry & Hval & _).
    rewrite (searchKnowledge_hit E params later entry Hcl).
    + now rewrite Hval.
    + now rewrite Hfl.
    + now rewrite Hnow, Hcache.
    + now rewrite Hval.
  - intros Hge results' st2 items' Hsearch' Hitems'.
    assert (Hmiss' : List.find
                       (cache_hit (cacheKey params) (kp_agentId params)
                          (now (database later)))
                       (cache (database later)) = None).
    { rewrite Hnow, Hcache. now apply find_upsert_expired. }
    rewrite (searchKnowledge_miss_run E params later results' st2 items'
               Hcl ltac:(now rewrite Hfl) ltac:(now rewrite Hfl)
               Hmiss' Hsearch' Hitems').
    split; [reflexivity|]. simpl.
    apply find_upsert_fresh. unfold cache_ttl. lia.
Qed.

Lemma searchKnowledge_cache_ttl_witness :
  fst (searchKnowledge literal_runtime demo_empty_search demo_cache_adapter)
  = Resolved [] /\
  events (snd (searchKnowledge literal_runtime demo_empty_search
                 (at_time 5000
                    (snd (searchKnowledge literal_runtime demo_empty_search
                            demo_cache_adapter)))))
  = [Issued (FindOne Cache); Issued (Aggregate Knowledge);
     Issued (UpdateOne Cache); Issued (FindOne Cache)].
Proof.
  destruct (searchKnowledge_cache_ttl literal_runtime demo_empty_search
              demo_cache_adapter
              (with_events [Issued (FindOne Cache); Issued (Aggregate Knowledge)]
                 demo_cache_adapter)
              [] [] 5000%Z eq_refl eq_refl eq_refl eq_refl eq_refl eq_refl eq_refl
              ltac:(discriminate)) as (Hfirst & Hhit & _).
  split; [exact Hfirst|].
  rewrite (Hhit eq_refl). reflexivity.
Defined.

(** * Further properties *)

(** ** The Levenshtein engine as a metric *)

Lemma textbook_table_upper s t i :
  forall j, textbook_table s t i j <= Nat.max i j.
Proof.
  induction i as [|i IHi]; intros j; [simpl; lia|].
  destruct j as [|j]; [rewrite textbook_table_col0; lia|].
  rewrite textbook_table_step. pose proof (IHi j).
  destruct (char_eqb _ _); lia.
Qed.

Lemma textbook_table_lower s t i :
  forall j, i <= textbook_table s t i j + j /\ j <= textbook_table s t i j + i.
Proof.
  induction i as [|i IHi]; intros j; [simpl; lia|].
  induction j as [|j IHj]; [rewrite textbook_table_col0; lia|].
  rewrite textbook_table_step.
  pose proof (IHi (S j)). pose proof (IHi j).
  destruct (char_eqb _ _); lia.
Qed.

Lemma char_eqb_eq a b : char_eqb a b = true -> a = b.
Proof.
  destruct a as [x|], b as [y|]; simpl; try discriminate; [|reflexivity].
  intros H. apply Ascii.eqb_eq in H. now subst.
Qed.

(** A zero entry means equal indices and equal prefixes. *)
Lemma textbook_table_zero s t i :
  forall j,
    textbook_table s t i j = 0 ->
    i = j /\ forall k, k < i -> char_at s k = char_at t k.
Proof.
  induction i as [|i IHi]; intros j H.
  - simpl in H. subst j. split; [reflexivity | lia].
  - destruct j as [|j]; [rewrite textbook_table_col0 in H; discriminate|].
    rewrite textbook_table_step in H.
    destruct (char_eqb (char_at s i) (char_at t j)) eqn:Hc; [|lia].
    assert (Hdiag : textbook_table s t i j = 0) by lia.
    destruct (IHi j Hdiag) as [-> Hpre]. split; [reflexivity|].
    intros k Hk. destruct (Nat.eq_dec k j) as [->|Hne].
    + now apply char_eqb_eq.
    + apply Hpre. lia.
Qed.

Lemma string_ext (s t : string) :
  String.length s = String.length t ->
  (forall k, k < String.length s -> char_at s k = char_at t k) ->
  s = t.
Proof.
  revert t. induction s as [|c s IH]; intros [|d t] Hlen Hget;
    try discriminate; [reflexivity|].
  simpl in Hlen.
  assert (Hhd : Some c = Some d) by (apply (Hget 0); simpl; lia).
  injection Hhd as <-. f_equal. apply IH; [lia|].
  intros k Hk. apply (Hget (S k)). simpl. lia.
Qed.

Lemma textbook_levenshtein_zero s t : textbook_levenshtein s t = 0 -> s = t.
Proof.
  intros H. destruct (textbook_table_zero _ _ _ _ H) as [Hlen Hpre].
  now apply string_ext.
Qed.

Lemma substitution_cost_triangle (x y z : option ascii) :
  (if char_eqb x z then 0 else 1)
  <= (if char_eqb x y then 0 else 1) + (if char_eqb y z then 0 else 1).
Proof.
  destruct (char_eqb x y) eqn:Hxy, (char_eqb y z) eqn:Hyz;
    destruct (char_eqb x z) eqn:Hxz; try lia.
  apply char_eqb_eq in Hxy, Hyz. subst.
  rewrite char_eqb_refl in Hxz. discriminate.
Qed.

Lemma textbook_table_triangle a b c n :
  forall i j k,
    i + j + k <= n ->
    textbook_table a c i k <= textbook_table a b i j + textbook_table b c j k.
Proof.
  induction n as [|n IH]; intros i j k Hn.
  - assert (i = 0) by lia. subst i. simpl. lia.
  - destruct i as [|i].
    + simpl. pose proof (textbook_table_lower b c j k). lia.
    + destruct k as [|k].
      * rewrite !textbook_table_col0.
        pose proof (textbook_table_lower a b (S i) j). lia.
      * destruct j as [|j].
        { rewrite textbook_table_col0. simpl (textbook_table b c 0 _).
          pose proof (textbook_table_upper a c (S i) (S k)). lia. }
        pose proof (textbook_table_step a b i j) as Hab.
        pose proof (textbook_table_step b c j k) as Hbc.
        pose proof (textbook_table_down_le a c i (S k)).
        pose proof (textbook_table_right_le a c (S i) k).
        pose proof (textbook_table_step a c i k) as Hac.
        pose proof (substitution_cost_triangle (char_at a i) (char_at b j)
                      (char_at c k)).
        pose proof (IH i (S j) (S k) ltac:(lia)).
        pose proof (IH (S i) (S j) k ltac:(lia)).
        pose proof (IH (S i) j (S k) ltac:(lia)).
        pose proof (IH (S i) j k ltac:(lia)).
        pose proof (IH i j (S k) ltac:(lia)).
        pose proof (IH i j k ltac:(lia)).
        pose proof (textbook_table_right_le a c i k).
        destruct (char_eqb (char_at a i) (char_at b j)),
                 (char_eqb (char_at b j) (char_at c k)),
                 (char_eqb (char_at a i) (char_at c k)); lia.
Qed.

Lemma engine_returns m a b :
  reachable m ->
  returned (calculateLevenshteinDistanceOptimized m a b)
  = Some (textbook_levenshtein a b).
Proof.
  intros Hr.
  destruct (engine_spec m a b (reachable_uniform m Hr)) as (m' & -> & _).
  reflexivity.
Qed.

(** X1: the distance the engine returns lies between the difference of the
    two lengths and the greater length. *)
Theorem levenshtein_bounds (m : Matrix) (a b : string) :
  reachable m ->
  exists d,
    returned (calculateLevenshteinDistanceOptimized m a b) = Some d /\
    String.length a - String.length b <= d /\
    String.length b - String.length a <= d /\
    d <= Nat.max (String.length a) (String.length b).
Proof.
  intros Hr. exists (textbook_levenshtein a b).
  split; [now apply engine_returns|].
  unfold textbook_levenshtein.
  pose proof (textbook_table_lower a b (String.length a) (String.length b)).
  pose proof (textbook_table_upper a b (String.length a) (String.length b)).
  lia.
Qed.

Lemma levenshtein_bounds_witness :
  exists d,
    returned (calculateLevenshteinDistanceOptimized [] "kitten" "sitting") = Some d /\
    String.length "kitten" - String.length "sitting" <= d /\
    String.length "sitting" - String.length "kitten" <= d /\
    d <= Nat.max (String.length "kitten") (String.length "sitting").
Proof. apply (levenshtein_bounds [] "kitten" "sitting"), reachable_init. Defined.

(** X2: the engine returns 0 only for equal strings. *)
Theorem levenshtein_zero_iff_equal (m : Matrix) (a b : string) :
  reachable m ->
  (returned (calculateLevenshteinDistanceOptimized m a b) = Some 0 <-> a = b).
Proof.
  intros Hr. rewrite (engine_returns m a b Hr). split.
  - intros [= H]. now apply textbook_levenshtein_zero.
  - intros ->. now rewrite textbook_levenshtein_refl.
Qed.

Lemma levenshtein_zero_iff_equal_witness :
  returned (calculateLevenshteinDistanceOptimized [] "flaw" "lawn") = Some 0
  <-> "flaw" = "lawn".
Proof. apply (levenshtein_zero_iff_equal [] "flaw" "lawn"), reachable_init. Defined.

(** X3: the distances the engine returns satisfy the triangle inequality,
    whatever the scratch matrices the three calls run on. *)
Theorem levenshtein_triangle (m1 m2 m3 : Matrix) (a b c : string) :
  reachable m1 -> reachable m2 -> reachable m3 ->
  exists dac dab dbc,
    returned (calculateLevenshteinDistanceOptimized m1 a c) = Some dac /\
    returned (calculateLevenshteinDistanceOptimized m2 a b) = Some dab /\
    returned (calculateLevenshteinDistanceOptimized m3 b c) = Some dbc /\
    dac <= dab + dbc.
Proof.
  intros H1 H2 H3.
  exists (textbook_levenshtein a c), (textbook_levenshtein a b),
         (textbook_levenshtein b c).
  repeat (split; [now apply engine_returns|]).
  unfold textbook_levenshtein. eapply textbook_table_triangle. reflexivity.
Qed.

Lemma levenshtein_triangle_witness :
  exists dac dab dbc,
    returned (calculateLevenshteinDistanceOptimized [] "kitten" "sitting") = Some dac /\
    returned (calculateLevenshteinDistanceOptimized [] "kitten" "mitten") = Some dab /\
    returned (calculateLevenshteinDistanceOptimized [] "mitten" "sitting") = Some dbc /\
    dac <= dab + dbc.
Proof.
  apply (levenshtein_triangle [] [] [] "kitten" "mitten" "sitting");
    apply reachable_init.
Defined.

(** ** The dimensions of the scratch matrix *)

(** A write into an existing cell keeps the length of every row. *)
Lemma mset_lengths m i j v m' (L : list nat) l :
  length <$> m = L -> L !! i = Some l -> j < l ->
  mset m i j v = Ok tt m' -> length <$> m' = L.
Proof.
  intros HL Hl Hj. unfold mset, row_set.
  destruct (m !! i) as [row|] eqn:Hrow; [|discriminate].
  assert (Hlen : length row = l).
  { subst L. rewrite list_lookup_fmap, Hrow in Hl. simpl in Hl. congruence. }
  destruct (Nat.ltb_spec j (length row)); [|lia].
  intros [= <-]. rewrite list_fmap_insert, length_insert, HL.
  apply list_insert_id. congruence.
Qed.

(** A loop whose body keeps the row lengths keeps them. *)
Lemma for_range_lengths (L : list nat) body count :
  forall start m m',
    (forall i m0 m1, start <= i < start + count ->
       length <$> m0 = L -> body i m0 = Ok tt m1 -> length <$> m1 = L) ->
    length <$> m = L ->
    for_range start count body m = Ok tt m' ->
    length <$> m' = L.
Proof.
  induction count as [|c IH]; intros start m m' Hbody HL; simpl.
  - now intros [= <-].
  - destruct (body start m) as [[] m1| |] eqn:Hstep; try discriminate.
    apply (IH (S start)).
    + intros i m0 m2 Hi. apply Hbody. lia.
    + eapply Hbody; [|exact HL|exact Hstep]. lia.
Qed.

Lemma wide_lookup (L : list nat) rows cols i :
  rows <= length L -> Forall (fun l => cols <= l) L -> i < rows ->
  exists l, L !! i = Some l /\ cols <= l.
Proof.
  intros Hrows Hall Hi.
  destruct (lookup_lt_is_Some_2 L i) as [l Hl]; [lia|].
  exists l. split; [assumption|].
  eapply (proj1 (Forall_lookup _ _) Hall); eassumption.
Qed.

Lemma fill_body_lengths s t (L : list nat) i j m m' l :
  length <$> m = L -> L !! i = Some l -> j < l ->
  fill_body s t i j m = Ok tt m' -> length <$> m' = L.
Proof.
  intros HL Hl Hj. unfold fill_body.
  destruct (char_eqb _ _).
  - destruct (mget m (i - 1) (j - 1)); [|discriminate].
    eapply mset_lengths; eassumption.
  - destruct (mget m (i - 1) (j - 1)); [|discriminate].
    destruct (mget m i (j - 1)); [|discriminate].
    destruct (mget m (i - 1) j); [|discriminate].
    eapply mset_lengths; eassumption.
Qed.

Lemma init_column_body_lengths cols (L : list nat) i m m' l :
  length <$> m = L -> L !! i = Some l -> 0 < l ->
  init_column_body cols i m = Ok tt m' -> length <$> m' = L.
Proof.
  intros HL Hl Hpos. unfold init_column_body.
  destruct (m !! i); [|discriminate].
  destruct (_ && _); [discriminate|].
  eapply mset_lengths; eassumption.
Qed.

(** The table computation leaves every row of the matrix it obtained at
    its length. *)
Lemma distance_on_matrix_lengths m s t d m' :
  uniform m ->
  distance_on_matrix m s t = Ok d m' ->
  length <$> m'
  = length <$> getLevenshteinMatrix m (String.length s + 1) (String.length t + 1).
Proof.
  intros Hu. unfold distance_on_matrix.
  pose proof (getLevenshteinMatrix_shaped m (String.length s + 1)
                (String.length t + 1) Hu ltac:(lia)) as (Hrows & c & Hc & Hall).
  set (m0 := getLevenshteinMatrix m _ _) in *.
  set (L := length <$> m0).
  assert (HrowsL : String.length s + 1 <= length L)
    by (subst L; now rewrite length_fmap).
  assert (HwideL : Forall (fun l => String.length t + 1 <= l) L).
  { subst L. apply Forall_fmap. eapply Forall_impl; [exact Hall|].
    simpl. intros row ->. exact Hc. }
  destruct (length m0 <? String.length s + 1); [discriminate|].
  destruct (for_range 0 _ (init_column_body _) m0) as [[] m1| |] eqn:H1;
    try discriminate.
  assert (HL1 : length <$> m1 = L).
  { eapply for_range_lengths; [|reflexivity|exact H1].
    intros i mx my Hi HLx Hstep.
    destruct (wide_lookup L _ _ i HrowsL HwideL ltac:(lia)) as (l & Hl & Hge).
    eapply init_column_body_lengths; [exact HLx|exact Hl|lia|exact Hstep]. }
  simpl. destruct (m1 !! 0) as [row0|]; [|discriminate].
  destruct (length row0 <? String.length t + 1); [discriminate|].
  destruct (for_range 0 _ _ m1) as [[] m2| |] eqn:H2; try discriminate.
  assert (HL2 : length <$> m2 = L).
  { eapply for_range_lengths; [|exact HL1|exact H2].
    intros j mx my Hj HLx Hstep.
    destruct (wide_lookup L _ _ 0 HrowsL HwideL ltac:(lia)) as (l & Hl & Hge).
    eapply mset_lengths; [exact HLx|exact Hl| |exact Hstep]. lia. }
  simpl. destruct (for_range 1 _ _ m2) as [[] m3| |] eqn:H3; try discriminate.
  assert (HL3 : length <$> m3 = L).
  { eapply for_range_lengths; [|exact HL2|exact H3].
    intros i mx my Hi HLx Hrow.
    eapply for_range_lengths; [|exact HLx|exact Hrow].
    intros j mz mw Hj HLz Hstep.
    destruct (wide_lookup L _ _ i HrowsL HwideL ltac:(lia)) as (l & Hl & Hge).
    eapply fill_body_lengths; [exact HLz|exact Hl| |exact Hstep]. lia. }
  simpl. destruct (mget m3 _ _); [|discriminate].
  intros [= _ <-]. exact HL3.
Qed.

Lemma lengths_dims (m m' : Matrix) :
  length <$> m' = length <$> m ->
  length m' = length m /\ row0_length m' = row0_length m.
Proof.
  intros H. split.
  - rewrite <- (length_fmap length m'), H. apply length_fmap.
  - unfold row0_length. destruct m as [|r m], m' as [|r' m'];
      simpl in *; congruence.
Qed.

Lemma getLevenshteinMatrix_dims m rows cols :
  1 <= rows ->
  (length (getLevenshteinMatrix m rows cols),
   row0_length (getLevenshteinMatrix m rows cols))
  = if fits m rows cols then (length m, row0_length m) else (rows, cols).
Proof.
  intros Hrows. unfold getLevenshteinMatrix, fits.
  destruct (Nat.ltb_spec (length m) rows), (Nat.leb_spec rows (length m));
    try lia; simpl.
  - rewrite length_replicate. unfold row0_length.
    destruct rows; [lia|]. simpl. now rewrite length_replicate.
  - destruct (Nat.ltb_spec 0 (length m)); [|lia]. simpl.
    destruct (Nat.ltb_spec (row0_length m) cols), (Nat.leb_spec cols (row0_length m));
      try lia; simpl.
    + rewrite length_replicate. unfold row0_length.
      destruct rows; [lia|]. simpl. now rewrite length_replicate.
    + destruct (Nat.eqb_spec (length m) 0); [lia|]. reflexivity.
Qed.

(** X4: a call that returns early leaves the scratch matrix as it is; a
    call that works on the matrix leaves its row count and row-0 column
    count unchanged when the matrix was large enough for the call, and
    leaves exactly the required dimensions otherwise. *)
Theorem scratch_matrix_dimensions (m : Matrix) (a b : string) :
  reachable m ->
  (uses_matrix a b = false ->
   matrix_after m (calculateLevenshteinDistanceOptimized m a b) = m) /\
  (uses_matrix a b = true ->
   (length (matrix_after m (calculateLevenshteinDistanceOptimized m a b)),
    row0_length (matrix_after m (calculateLevenshteinDistanceOptimized m a b)))
   = if fits m (required_rows a b) (required_cols a b)
     then (length m, row0_length m)
     else (required_rows a b, required_cols a b)).
Proof.
  intros Hr. pose proof (reachable_uniform m Hr) as Hu.
  unfold uses_matrix, calculateLevenshteinDistanceOptimized,
    required_rows, required_cols.
  destruct (String.eqb a b); [split; [reflexivity | discriminate]|].
  destruct (String.length a =? 0); [split; [reflexivity | discriminate]|].
  destruct (String.length b =? 0); [split; [reflexivity | discriminate]|].
  split; [discriminate|]. intros _.
  assert (Hcore : forall s t,
            (length (matrix_after m (distance_on_matrix m s t)),
             row0_length (matrix_after m (distance_on_matrix m s t)))
            = if fits m (String.length s + 1) (String.length t + 1)
              then (length m, row0_length m)
              else (String.length s + 1, String.length t + 1)).
  { intros s t.
    destruct (distance_on_matrix_spec m s t Hu) as (m' & Hrun & _).
    pose proof (distance_on_matrix_lengths m s t _ m' Hu Hrun) as HL.
    rewrite Hrun. simpl.
    destruct (lengths_dims _ _ HL) as [-> ->].
    apply getLevenshteinMatrix_dims. lia. }
  destruct (Nat.ltb_spec (String.length b) (String.length a)).
  - replace (Nat.min _ _) with (String.length b) by lia.
    replace (Nat.max _ _) with (String.length a) by lia. apply Hcore.
  - replace (Nat.min _ _) with (String.length a) by lia.
    replace (Nat.max _ _) with (String.length b) by lia. apply Hcore.
Qed.

Lemma scratch_matrix_dimensions_witness :
  (length (matrix_after_calls [] [("ab", "abcdefghi"); ("abc", "abcd")]),
   row0_length (matrix_after_calls [] [("ab", "abcdefghi"); ("abc", "abcd")]))
  = (4, 5).
Proof.
  destruct (scratch_matrix_dimensions
              (matrix_after [] (calculateLevenshteinDistanceOptimized [] "ab" "abcdefghi"))
              "abc" "abcd" (reachable_call [] "ab" "abcdefghi" reachable_init))
    as [_ Hdims].
  exact (Hdims eq_refl).
Defined.

(** ** The capability detector *)

Lemma initializeVectorSearch_run (st : Adapter) :
  fst (initializeVectorSearch st) = Resolved tt /\
  hasVectorSearch (snd (initializeVectorSearch st)) = probe_succeeds st /\
  isVectorSearchIndexComputable (snd (initializeVectorSearch st))
    = probe_succeeds st /\
  isConnected (snd (initializeVectorSearch st)) = isConnected st /\
  database (snd (initializeVectorSearch st)) = database st.
Proof.
  unfold initializeVectorSearch, disableVectorSearch, probe_succeeds,
    logError, issue, record, record_all, set_flags, try_catch, bindM, getM,
    retM, throwM.
  simpl.
  destruct (fails (database st) ServerStatus); simpl; [repeat split|].
  destruct (vectorSearchSupported (database st)); simpl; [|repeat split].
  destruct (isVectorSearchIndexComputable st) eqn:Hcomp; simpl; [|repeat split].
  destruct (fails (database st) CreateVectorIndex); simpl; [repeat split|].
  destruct (fails (database st) ShardingProbe); simpl; [repeat split|].
  destruct (sharded (database st)); simpl; repeat split; exact Hcomp.
Qed.

(** X5: [initializeVectorSearch] never rejects; it leaves the connection
    flag and the store as they are, and sets both [hasVectorSearch] and
    [isVectorSearchIndexComputable] to the outcome of the probe. *)
Theorem initializeVectorSearch_outcome (st : Adapter) :
  fst (initializeVectorSearch st) = Resolved tt /\
  hasVectorSearch (snd (initializeVectorSearch st)) = probe_succeeds st /\
  isVectorSearchIndexComputable (snd (initializeVectorSearch st))
    = probe_succeeds st /\
  isConnected (snd (initializeVectorSearch st)) = isConnected st /\
  database (snd (initializeVectorSearch st)) = database st.
Proof. apply initializeVectorSearch_run. Qed.

Lemma initializeStandardIndexes_run st :
  initializeStandardIndexes st =
  if fails (database st) ListIndexes
  then (Rejected (StoreError ListIndexes),
        with_events (events st ++ [Issued ListIndexes]) st)
  else if standardIndexes (database st)
  then (Resolved tt, with_events (events st ++ [Issued ListIndexes]) st)
  else if fails (database st) CreateIndex
  then (Rejected (StoreError CreateIndex),
        with_events ((events st ++ [Issued ListIndexes]) ++ [Issued CreateIndex])
          st)
  else (Resolved tt,
        with_database (with_standardIndexes true (database st))
          (with_events
             ((events st ++ [Issued ListIndexes]) ++ [Issued CreateIndex]) st)).
Proof.
  unfold initializeStandardIndexes, bindM at 1. rewrite issue_run.
  destruct (fails (database st) ListIndexes); [reflexivity|].
  unfold bindM at 1, getM at 1. cbn [database with_events].
  destruct (standardIndexes (database st)); [reflexivity|].
  unfold bindM at 1. rewrite issue_run. cbn [database with_events].
  destruct (fails (database st) CreateIndex); reflexivity.
Qed.

Lemma probe_succeeds_same st st' :
  fails (database st') = fails (database st) ->
  vectorSearchSupported (database st') = vectorSearchSupported (database st) ->
  sharded (database st') = sharded (database st) ->
  isVectorSearchIndexComputable st' = isVectorSearchIndexComputable st ->
  probe_succeeds st' = probe_succeeds st.
Proof. unfold probe_succeeds. now intros -> -> -> ->. Qed.

(** [init] on an adapter that is not connected, by the request that
    fails. *)
Lemma init_run st :
  isConnected st = false ->
  match init_failure (database st) with
  | Some op =>
      fst (init st) = Rejected (StoreError op) /\
      isConnected (snd (init st)) = false /\
      isVectorSearchIndexComputable (snd (init st)) = false /\
      last (events (snd (init st))) = Some (Logged (StoreError op)) /\
      database (snd (init st)) = database st
  | None =>
      fst (init st) = Resolved tt /\
      isConnected (snd (init st)) = true /\
      hasVectorSearch (snd (init st)) = probe_succeeds st /\
      isVectorSearchIndexComputable (snd (init st)) = probe_succeeds st /\
      database (snd (init st))
      = if standardIndexes (database st) then database st
        else with_standardIndexes true (database st)
  end.
Proof.
  intros Hc. remember (init st) as r eqn:Hr.
  unfold init, bindM at 1, getM at 1 in Hr. rewrite Hc in Hr.
  unfold try_catch, bindM at 1 in Hr. rewrite issue_run in Hr.
  unfold init_failure.
  destruct (fails (database st) Connect) eqn:Hconn.
  { unfold bindM, getM, set_flags, logError, record, record_all, throwM in Hr.
    subst r.
    cbn [fst snd isConnected isVectorSearchIndexComputable events database
         with_flags with_events].
    repeat (split; [reflexivity|]). split; [apply last_snoc | reflexivity]. }
  unfold bindM at 1 in Hr. rewrite initializeStandardIndexes_run in Hr.
  cbn [database with_events] in Hr.
  destruct (fails (database st) ListIndexes) eqn:Hlist.
  { unfold bindM, getM, set_flags, logError, record, record_all, throwM in Hr.
    subst r.
    cbn [fst snd isConnected isVectorSearchIndexComputable events database
         with_flags with_events].
    repeat (split; [reflexivity|]). split; [apply last_snoc | reflexivity]. }
  destruct (standardIndexes (database st)) eqn:Hidx; cbn [negb andb].
  - unfold bindM at 1 in Hr.
    set (st' := with_events (_ ++ [Issued ListIndexes]) _) in Hr.
    pose proof (initializeVectorSearch_run st') as Hvs. revert Hr Hvs.
    destruct (initializeVectorSearch st') as [c st2]. cbn [fst snd].
    intros Hr (Hres & Hhas & Hcomp & _ & Hdb).
    subst c. unfold bindM, getM, set_flags in Hr. subst r.
    cbn [fst snd isConnected hasVectorSearch isVectorSearchIndexComputable
         database with_flags].
    rewrite Hhas, Hcomp, Hdb.
    repeat split; try reflexivity; now apply probe_succeeds_same.
  - destruct (fails (database st) CreateIndex) eqn:Hcreate.
    { unfold bindM, getM, set_flags, logError, record, record_all, throwM in Hr.
      subst r.
      cbn [fst snd isConnected isVectorSearchIndexComputable events database
           with_flags with_events].
      repeat (split; [reflexivity|]). split; [apply last_snoc | reflexivity]. }
    unfold bindM at 1 in Hr.
    set (st' := with_database _ _) in Hr.
    pose proof (initializeVectorSearch_run st') as Hvs. revert Hr Hvs.
    destruct (initializeVectorSearch st') as [c st2]. cbn [fst snd].
    intros Hr (Hres & Hhas & Hcomp & _ & Hdb).
    subst c. unfold bindM, getM, set_flags in Hr. subst r.
    cbn [fst snd isConnected hasVectorSearch isVectorSearchIndexComputable
         database with_flags].
    rewrite Hhas, Hcomp, Hdb.
    repeat split; try reflexivity; now apply probe_succeeds_same.
Qed.



(** X7: once [init] has failed, on connecting, on listing the standard
    indexes or on creating them, a later connection of the same adapter
    that succeeds comes up without native vector search, whatever the
    store then supports. *)
Theorem failed_init_disables_native_search (st st1 st2 st3 : Adapter) (e : Error) :
  init st = (Rejected e, st1) ->
  isConnected st2 = isConnected st1 ->
  isVectorSearchIndexComputable st2 = isVectorSearchIndexComputable st1 ->
  ensureConnection st2 = (Resolved tt, st3) ->
  isConnected st3 = true /\ hasVectorSearch st3 = false.
Proof.
  intros Hfail Hconn Hcomp Hens.
  assert (Hc : isConnected st = false).
  { destruct (isConnected st) eqn:Hc; [|reflexivity].
    unfold init, bindM, getM in Hfail. rewrite Hc in Hfail. discriminate. }
  pose proof (init_run st Hc) as Hrun. rewrite Hfail in Hrun. cbn [fst snd] in Hrun.
  assert (Hst1 : isConnected st1 = false /\
                 isVectorSearchIndexComputable st1 = false).
  { destruct (init_failure (database st)).
    - destruct Hrun as (_ & Ha & Hb & _). auto.
    - destruct Hrun as (Hres & _). discriminate. }
  destruct Hst1 as [Hc1 Hk1]. rewrite Hc1 in Hconn. rewrite Hk1 in Hcomp.
  unfold ensureConnection, bindM, getM in Hens. rewrite Hconn in Hens.
  pose proof (init_run st2 Hconn) as Hrun2. rewrite Hens in Hrun2.
  cbn [fst snd] in Hrun2.
  destruct (init_failure (database st2)).
  { destruct Hrun2 as (Hres & _). discriminate. }
  destruct Hrun2 as (_ & Ha & Hb & _). split; [exact Ha|].
  rewrite Hb. unfold probe_succeeds. rewrite Hcomp.
  now rewrite andb_false_r.
Qed.

Lemma failed_init_disables_native_search_witness :
  hasVectorSearch
    (snd (ensureConnection
            (with_database vector_store
               (snd (init (new_adapter index_creation_down))))))
  = false.
Proof.
  eapply (failed_init_disables_native_search
            (new_adapter index_creation_down)
            _ (with_database vector_store _) _ _); reflexivity.
Defined.

(** ** Memory searches *)

Lemma normalize_memory_fields E sim d h :
  normalize_memory E sim d = Resolved h ->
  similarity h = sim /\
  m_id (hit h) = m_id d /\ m_type (hit h) = m_type d /\
  m_roomId (hit h) = m_roomId d /\ m_agentId (hit h) = m_agentId d /\
  m_userId (hit h) = m_userId d /\ m_unique (hit h) = m_unique d /\
  m_embedding (hit h) = m_embedding d.
Proof.
  unfold normalize_memory.
  destruct (normalize_content E (m_content d)); [|discriminate].
  intros [= <-]. simpl. repeat split.
Qed.

(** What a document selected by a memory filter satisfies. *)
Lemma matches_query_fields q d :
  matches_query q d = true ->
  m_type d = q_type q /\
  (forall r, q_roomId q = Some r -> m_roomId d = r) /\
  (forall a, q_agentId q = Some a -> m_agentId d = a) /\
  (q_unique q = true -> m_unique d = true).
Proof.
  unfold matches_query. rewrite !andb_true_iff.
  intros [[[Ht Hr] Ha] Hu]. apply String.eqb_eq in Ht.
  split; [assumption|]. split; [|split].
  - intros r Hq. rewrite Hq in Hr. now apply String.eqb_eq.
  - intros a Hq. rewrite Hq in Ha. now apply String.eqb_eq.
  - intros Hq. now rewrite Hq in Hu.
Qed.

Lemma In_take {A} (x : A) n l : In x (take n l) -> In x l.
Proof.
  revert l. induction n as [|n IH]; intros [|y l]; simpl; try tauto.
  intros [->|H]; [left; reflexivity | right; auto].
Qed.

(** Every hit of the fallback path is a normalised document that the
    filter selects. *)
Lemma searchMemoriesFallback_hits E emb query limit st hits st' :
  searchMemoriesFallback E emb query limit st = (Resolved hits, st') ->
  forall h, In h hits ->
    exists d e,
      matches_query query d = true /\ m_embedding d = Some e /\
      normalize_memory E (Some (cosineSimilarity emb e)) d = Resolved h.
Proof.
  unfold searchMemoriesFallback, bindM at 1.
  destruct (ensureConnection st) as [[[]|e0] st0]; [|discriminate].
  unfold bindM at 1. rewrite issue_run.
  destruct (fails (database st0) (Find Memories)); [discriminate|].
  unfold bindM, getM, liftC. simpl database.
  destruct (mapC (with_similarity emb) _) as [scored|] eqn:Hscored;
    [|discriminate].
  destruct (mapC _ (sort_by _ scored)) as [hits'|] eqn:Hhits; [|discriminate].
  intros [= <- _] h Hin.
  apply mapC_resolved in Hscored, Hhits.
  destruct (Forall2_In_r _ _ _ _ Hhits Hin) as ([d s] & Hd & Hnorm).
  apply (Permutation_in _ (sort_by_perm _ _)) in Hd.
  destruct (Forall2_In_r _ _ _ _ Hscored Hd) as (d0 & Hd0 & Hsim).
  unfold with_similarity in Hsim.
  destruct (m_embedding d0) as [e|] eqn:He; [|discriminate].
  injection Hsim as <- <-.
  apply In_take, filter_In in Hd0. destruct Hd0 as [_ Hmatch].
  exists d0, e. auto.
Qed.

(** Every hit of [searchMemories], on either path, is a normalised
    document that the filter selects. *)
Lemma searchMemories_hits E params st hits st' :
  searchMemories E params st = (Resolved hits, st') ->
  forall h, In h hits ->
    exists d sim,
      matches_query
        {| q_type := sm_tableName params;
           q_roomId := Some (sm_roomId params);
           q_agentId := when_truthy (sm_agentId params);
           q_unique := sm_unique params |} d = true /\
      normalize_memory E sim d = Resolved h.
Proof.
  unfold searchMemories, bindM at 1.
  destruct (ensureConnection st) as [[[]|e0] st0]; [|discriminate].
  unfold bindM at 1, getM at 1.
  destruct (hasVectorSearch st0).
  - unfold try_catch, bindM at 1. rewrite issue_run.
    destruct (fails (database st0) (VectorSearch Memories)).
    + unfold bindM at 1, logError, record, record_all. intros Hrun h Hin.
      destruct (searchMemoriesFallback_hits _ _ _ _ _ _ _ Hrun h Hin)
        as (d & emb0 & Hm & _ & Hn).
      eauto.
    + unfold bindM at 1, getM at 1, liftC. simpl database.
      destruct (mapC (normalize_memory E None) _) as [hits'|] eqn:Hmap.
      * intros [= <- _] h Hin. apply mapC_resolved in Hmap.
        destruct (Forall2_In_r _ _ _ _ Hmap Hin) as (d & Hd & Hn).
        apply filter_In in Hd. destruct Hd as [_ Hm]. eauto.
      * unfold bindM at 1, logError, record, record_all. intros Hrun h Hin.
        destruct (searchMemoriesFallback_hits _ _ _ _ _ _ _ Hrun h Hin)
          as (d & emb0 & Hm & _ & Hn).
        eauto.
  - intros Hrun h Hin.
    destruct (searchMemoriesFallback_hits _ _ _ _ _ _ _ Hrun h Hin)
      as (d & emb0 & Hm & _ & Hn).
    eauto.
Qed.

Lemma when_truthy_some x s : when_truthy x = Some s -> x = Some s /\ truthy s = true.
Proof.
  unfold when_truthy. destruct x as [s'|]; [|discriminate].
  destruct (truthy s') eqn:Ht; [|discriminate]. intros [= <-]. auto.
Qed.

(** X8: whichever path answers, every memory [searchMemories] returns is
    of the requested table and room, is flagged unique when the search asks
    for unique records, and belongs to the agent when a non-empty agent id
    is given. *)
Theorem searchMemories_scoped (E : Runtime) (params : SearchMemoriesParams)
    (st st' : Adapter) (hits : list MemoryHit) :
  searchMemories E params st = (Resolved hits, st') ->
  forall h, In h hits ->
    m_type (hit h) = sm_tableName params /\
    m_roomId (hit h) = sm_roomId params /\
    (sm_unique params = true -> m_unique (hit h) = true) /\
    (forall a, sm_agentId params = Some a -> a <> "" -> m_agentId (hit h) = a).
Proof.
  intros Hrun h Hin.
  destruct (searchMemories_hits E params st hits st' Hrun h Hin)
    as (d & sim & Hm & Hn).
  apply matches_query_fields in Hm. simpl in Hm.
  destruct Hm as (Ht & Hr & Ha & Hu).
  apply normalize_memory_fields in Hn.
  destruct Hn as (_ & _ & -> & -> & -> & _ & -> & _).
  split; [assumption|]. split; [now apply Hr|]. split; [assumption|].
  intros a Hagent Hne. apply Ha. rewrite Hagent. unfold when_truthy, truthy.
  destruct (String.eqb_spec a ""); [contradiction | reflexivity].
Qed.

Lemma searchMemories_scoped_witness :
  m_type orthogonal_memory = sm_tableName demo_search /\
  m_roomId orthogonal_memory = sm_roomId demo_search /\
  (sm_unique demo_search = true -> m_unique orthogonal_memory = true) /\
  (forall a, sm_agentId demo_search = Some a -> a <> "" ->
     m_agentId orthogonal_memory = a).
Proof.
  refine (searchMemories_scoped literal_runtime demo_search
            (connected false (store_of [orthogonal_memory] [])) _
            [{| hit := orthogonal_memory; similarity := Some 0%float |}] _
            {| hit := orthogonal_memory; similarity := Some 0%float |}
            (or_introl eq_refl)).
  vm_compute. reflexivity.
Defined.

Lemma Forall2_map_eq {A B C} (R : A -> B -> Prop) (g : B -> C) (g' : A -> C) l ys :
  Forall2 R l ys -> (forall x y, R x y -> g y = g' x) -> map g ys = map g' l.
Proof.
  intros H Hg. induction H as [|x y l ys Hxy _ IH]; simpl; [reflexivity|].
  f_equal; auto.
Qed.

Lemma length_take_le {A} n (l : list A) : length (take n l) <= n.
Proof. rewrite length_take. lia. Qed.

(** X9: on a connected adapter, what the fallback path returns is the
    first [limit] documents the filter selects ([10] when [limit] is 0),
    reordered, each with the cosine similarity of its embedding to the
    query. *)
Theorem searchMemoriesFallback_selection (E : Runtime) (emb : list float)
    (query : MemoryQuery) (limit : nat) (st st' : Adapter)
    (hits : list MemoryHit) :
  isConnected st = true ->
  searchMemoriesFallback E emb query limit st = (Resolved hits, st') ->
  Permutation
    (map (fun h => m_id (hit h)) hits)
    (map m_id (take (if limit =? 0 then 10 else limit)
                 (List.filter (matches_query query) (memories (database st))))) /\
  length hits <= (if limit =? 0 then 10 else limit) /\
  forall h, In h hits ->
    exists e,
      m_embedding (hit h) = Some e /\
      similarity h = Some (cosineSimilarity emb e).
Proof.
  intros Hc Hrun.
  assert (Hsim : forall h, In h hits ->
            exists e, m_embedding (hit h) = Some e /\
                      similarity h = Some (cosineSimilarity emb e)).
  { intros h Hin.
    destruct (searchMemoriesFallback_hits _ _ _ _ _ _ _ Hrun h Hin)
      as (d & e & _ & He & Hn).
    apply normalize_memory_fields in Hn.
    destruct Hn as (-> & _ & _ & _ & _ & _ & _ & ->). eauto. }
  unfold searchMemoriesFallback, bindM at 1 in Hrun.
  rewrite (ensureConnection_connected st Hc) in Hrun.
  unfold bindM at 1 in Hrun. rewrite issue_run in Hrun.
  destruct (fails (database st) (Find Memories)); [discriminate|].
  unfold bindM, getM, liftC, limit_or_10 in Hrun. simpl database in Hrun.
  set (found := take _ _) in *.
  destruct (mapC (with_similarity emb) found) as [scored|] eqn:Hscored;
    [|discriminate].
  destruct (mapC _ (sort_by _ scored)) as [hits'|] eqn:Hhits; [|discriminate].
  injection Hrun as -> _.
  apply mapC_resolved in Hscored, Hhits.
  assert (Hids : map (fun h => m_id (hit h)) hits
                 = map (fun p => m_id (fst p)) (sort_by by_similarity_desc scored)).
  { eapply Forall2_map_eq; [exact Hhits|].
    intros [d s] h Hn. apply normalize_memory_fields in Hn. simpl in Hn.
    destruct Hn as (_ & Hid & _). exact Hid. }
  assert (Hfound : map (fun p : MemoryDoc * float => m_id (fst p)) scored
                   = map m_id found).
  { eapply Forall2_map_eq; [exact Hscored|].
    intros d [d' s] Hw. unfold with_similarity in Hw.
    destruct (m_embedding d); [|discriminate]. now injection Hw as <- _. }
  split; [|split; [|exact Hsim]].
  - rewrite Hids, <- Hfound. apply Permutation_map, sort_by_perm.
  - rewrite <- (length_map (fun h => m_id (hit h)) hits), Hids, length_map.
    rewrite (Permutation_length (sort_by_perm _ scored)).
    rewrite <- (length_map (fun p : MemoryDoc * float => m_id (fst p)) scored),
      Hfound, length_map.
    subst found. apply length_take_le.
Qed.

Lemma searchMemoriesFallback_selection_witness :
  Permutation
    (map (fun h => m_id (hit h))
       [{| hit := orthogonal_memory; similarity := Some 0%float |}])
    (map m_id
       (take 10
          (List.filter
             (matches_query {| q_type := "messages"; q_roomId := Some "room-1";
                               q_agentId := None; q_unique := false |})
             [orthogonal_memory]))).
Proof.
  refine (proj1 (searchMemoriesFallback_selection literal_runtime [1; 0]%float
                   {| q_type := "messages"; q_roomId := Some "room-1";
                      q_agentId := None; q_unique := false |}
                   0 (connected false (store_of [orthogonal_memory] []))
                   (with_events [Issued (Find Memories)]
                      (connected false (store_of [orthogonal_memory] [])))
                   [{| hit := orthogonal_memory; similarity := Some 0%float |}]
                   eq_refl eq_refl)).
Defined.

Lemma mapC_with_similarity_null emb l d :
  In d l -> m_embedding d = None ->
  mapC (with_similarity emb) l = Rejected TypeError.
Proof.
  induction l as [|x l IH]; simpl; [tauto|].
  intros [->|Hin] Hnull.
  - unfold with_similarity. now rewrite Hnull.
  - unfold with_similarity at 1. destruct (m_embedding x); [|reflexivity].
    now rewrite (IH Hin Hnull).
Qed.

Lemma take_1_filter_find {A} (f : A -> bool) l d :
  List.find f l = Some d -> take 1 (List.filter f l) = [d].
Proof.
  induction l as [|x l IH]; simpl; [discriminate|].
  destruct (f x); [intros [= ->]; reflexivity | exact IH].
Qed.

Lemma searchMemoriesFallback_null_embedding E emb query st d :
  isConnected st = true ->
  fails (database st) (Find Memories) = false ->
  List.find (matches_query query) (memories (database st)) = Some d ->
  m_embedding d = None ->
  searchMemoriesFallback E emb query 1 st
  = (Rejected TypeError, with_events (events st ++ [Issued (Find Memories)]) st).
Proof.
  intros Hc Hfind Hfirst Hnull.
  unfold searchMemoriesFallback, bindM at 1.
  rewrite (ensureConnection_connected st Hc).
  unfold bindM at 1. rewrite issue_run, Hfind.
  unfold bindM, getM, liftC. simpl database.
  change (limit_or_10 1) with 1.
  rewrite (take_1_filter_find _ _ _ Hfirst).
  rewrite (mapC_with_similarity_null emb [d] d (or_introl eq_refl) Hnull).
  reflexivity.
Qed.

(** X10: on a connected, fallback-only adapter, when the first unique
    memory of the room, table and agent has no embedding, [createMemory] of
    a memory that has one resolves without persisting it: the similarity
    search throws a [TypeError] on the stored null embedding, which
    [createMemory] catches and logs. *)
Theorem createMemory_lost_after_embeddingless (E : Runtime) (memory : Memory)
    (tableName : string) (st : Adapter) (emb : list float) (d : MemoryDoc) :
  isConnected st = true -> hasVectorSearch st = false ->
  fails (database st) (Find Memories) = false ->
  embedding memory = Some emb ->
  List.find
    (matches_query {| q_type := tableName;
                      q_roomId := Some (roomId memory);
                      q_agentId := when_truthy (Some (agentId memory));
                      q_unique := true |})
    (memories (database st)) = Some d ->
  m_embedding d = None ->
  fst (createMemory E memory tableName st) = Resolved tt /\
  memories (database (snd (createMemory E memory tableName st)))
    = memories (database st) /\
  In (Logged TypeError) (events (snd (createMemory E memory tableName st))).
Proof.
  intros Hc Hv Hfind Hemb Hfirst Hnull.
  assert (Hsearch : searchMemories E (dedup_search memory tableName emb) st
                    = (Rejected TypeError,
                       with_events (events st ++ [Issued (Find Memories)]) st)).
  { unfold searchMemories, bindM at 1.
    rewrite (ensureConnection_connected st Hc).
    unfold bindM at 1, getM at 1. rewrite Hv.
    exact (searchMemoriesFallback_null_embedding E emb _ st d Hc Hfind Hfirst Hnull). }
  rewrite (createMemory_run E memory tableName st Hc). cbv zeta.
  rewrite Hemb, Hsearch. simpl. repeat split.
  apply in_or_app. right. left. reflexivity.
Qed.

Lemma createMemory_lost_after_embeddingless_witness :
  map m_id
    (memories (database
       (snd (createMemory literal_runtime (demo_memory (Some [1; 0]%float)) "messages"
               (snd (createMemory literal_runtime (demo_memory None) "messages"
                       (connected false (store_of [] []))))))))
  = ["m-9"].
Proof.
  destruct (createMemory_lost_after_embeddingless literal_runtime
              (demo_memory (Some [1; 0]%float)) "messages"
              (snd (createMemory literal_runtime (demo_memory None) "messages"
                      (connected false (store_of [] []))))
              [1; 0]%float
              (memory_document (demo_memory None) "messages" true (store_of [] []))
              eq_refl eq_refl eq_refl eq_refl eq_refl eq_refl)
    as (_ & Hmem & _).
  rewrite Hmem. reflexivity.
Defined.

(** ** A fallback-only adapter sends no native request *)

Lemma quiet_at_same {A} st (c : M A) :
  fallback_only st -> snd (c st) = st -> quiet_at st c.
Proof.
  intros Hf Heq. unfold quiet_at. rewrite Heq. split; [assumption|].
  exists []. split; [now rewrite app_nil_r | constructor].
Qed.

Lemma quiet_ret {A} (a : A) : quiet (retM a).
Proof. intros st Hf. now apply quiet_at_same. Qed.

Lemma quiet_throw {A} (e : Error) : quiet (@throwM A e).
Proof. intros st Hf. now apply quiet_at_same. Qed.

Lemma quiet_liftC {A} (c : Completion A) : quiet (liftC c).
Proof. intros st Hf. now apply quiet_at_same. Qed.

Lemma quiet_record_all evs : Forall no_native evs -> quiet (record_all evs).
Proof.
  intros Hevs st Hf. split; [exact Hf|]. exists evs. auto.
Qed.

Lemma quiet_logError e : quiet (logError e).
Proof.
  apply quiet_record_all. constructor; [|constructor]. intros c. discriminate.
Qed.

Lemma quiet_set_database db : quiet (set_database db).
Proof.
  intros st Hf. split; [exact Hf|]. exists []. simpl.
  split; [now rewrite app_nil_r | constructor].
Qed.

Lemma quiet_set_matrix m : quiet (set_matrix m).
Proof.
  intros st Hf. split; [exact Hf|]. exists []. simpl.
  split; [now rewrite app_nil_r | constructor].
Qed.

Lemma quiet_at_bind {A B} st (c : M A) (k : A -> M B) :
  quiet_at st c ->
  (forall a, fst (c st) = Resolved a -> quiet_at (snd (c st)) (k a)) ->
  quiet_at st (bindM c k).
Proof.
  intros (Hf1 & evs1 & Hev1 & Hn1) Hk. unfold quiet_at, bindM in *.
  destruct (c st) as [[a|e] st1]; simpl in *.
  - destruct (Hk a eq_refl) as (Hf2 & evs2 & Hev2 & Hn2).
    split; [assumption|]. exists (evs1 ++ evs2).
    rewrite Hev2, Hev1, <- app_assoc. split; [reflexivity|].
    apply Forall_app. auto.
  - split; [assumption|]. exists evs1. auto.
Qed.

Lemma quiet_bind {A B} (c : M A) (k : A -> M B) :
  quiet c -> (forall a, quiet (k a)) -> quiet (bindM c k).
Proof.
  intros Hc Hk st Hf. apply quiet_at_bind; [now apply Hc|].
  intros a _. apply Hk. apply (Hc st Hf).
Qed.

Lemma quiet_bind_get {A} (k : Adapter -> M A) :
  (forall st, fallback_only st -> quiet_at st (k st)) -> quiet (bindM getM k).
Proof. intros Hk st Hf. unfold bindM, getM. now apply Hk. Qed.

Lemma quiet_try_catch {A} (c : M A) (h : Error -> M A) :
  quiet c -> (forall e, quiet (h e)) -> quiet (try_catch c h).
Proof.
  intros Hc Hh st Hf. destruct (Hc st Hf) as (Hf1 & evs1 & Hev1 & Hn1).
  unfold quiet_at, try_catch in *.
  destruct (c st) as [[a|e] st1]; simpl in *.
  - split; [assumption|]. exists evs1. auto.
  - destruct (Hh e st1 Hf1) as (Hf2 & evs2 & Hev2 & Hn2).
    split; [assumption|]. exists (evs1 ++ evs2).
    rewrite Hev2, Hev1, <- app_assoc. split; [reflexivity|].
    apply Forall_app. auto.
Qed.

Lemma quiet_try_catch_modelled {A} (c : M A) (h : Error -> M A) :
  quiet c -> (forall e, quiet (h e)) -> quiet (try_catch_modelled c h).
Proof.
  intros Hc Hh st Hf. destruct (Hc st Hf) as (Hf1 & evs1 & Hev1 & Hn1).
  unfold quiet_at, try_catch_modelled in *.
  destruct (c st) as [[a|e] st1]; simpl in *.
  - split; [assumption|]. exists evs1. auto.
  - destruct (Hh e st1 Hf1) as (Hf2 & evs2 & Hev2 & Hn2).
    destruct e; simpl;
      try (split; [assumption|]; exists (evs1 ++ evs2);
           rewrite Hev2, Hev1, <- app_assoc; split; [reflexivity|];
           apply Forall_app; auto).
    split; [assumption|]. exists evs1. auto.
Qed.

Lemma quiet_issue op : (forall c, op <> VectorSearch c) -> quiet (issue op).
Proof.
  intros Hop. unfold issue. apply quiet_bind.
  - apply quiet_record_all. constructor; [|constructor].
    intros c [= H]. exact (Hop c H).
  - intros _. apply quiet_bind_get. intros st Hf.
    destruct (fails (database st) op); [apply quiet_throw | apply quiet_ret];
      assumption.
Qed.

Lemma quiet_ensureConnection : quiet ensureConnection.
Proof.
  intros st Hf. apply quiet_at_same; [assumption|].
  now rewrite (ensureConnection_connected st (proj1 Hf)).
Qed.

Lemma quiet_searchMemoriesFallback E emb query limit :
  quiet (searchMemoriesFallback E emb query limit).
Proof.
  unfold searchMemoriesFallback.
  apply quiet_bind; [apply quiet_ensureConnection|]. intros _.
  apply quiet_bind; [apply quiet_issue; discriminate|]. intros _.
  apply quiet_bind_get. intros st Hf.
  apply quiet_bind; [apply quiet_liftC | intros scored; apply quiet_liftC | ];
    assumption.
Qed.

Lemma quiet_searchMemories E params : quiet (searchMemories E params).
Proof.
  unfold searchMemories.
  apply quiet_bind; [apply quiet_ensureConnection|]. intros _.
  apply quiet_bind_get. intros st Hf. rewrite (proj2 Hf).
  now apply quiet_searchMemoriesFallback.
Qed.

Lemma quiet_insertMemory d : quiet (insertMemory d).
Proof.
  unfold insertMemory.
  apply quiet_bind; [apply quiet_issue; discriminate|]. intros _.
  apply quiet_bind_get. intros st Hf. now apply quiet_set_database.
Qed.

Lemma quiet_createMemory E memory tableName :
  quiet (createMemory E memory tableName).
Proof.
  unfold createMemory.
  apply quiet_bind; [apply quiet_ensureConnection|]. intros _.
  apply quiet_try_catch; [|apply quiet_logError].
  apply quiet_bind.
  - destruct (embedding memory); [|apply quiet_ret].
    apply quiet_bind; [apply quiet_searchMemories | intros; apply quiet_ret].
  - intros isUnique. apply quiet_bind_get. intros st Hf.
    now apply quiet_insertMemory.
Qed.

Lemma quiet_getCache key agent : quiet (getCache key agent).
Proof.
  unfold getCache.
  apply quiet_bind; [apply quiet_ensureConnection|]. intros _.
  apply quiet_bind; [apply quiet_issue; discriminate|]. intros _.
  apply quiet_bind_get. intros st Hf. now apply quiet_ret.
Qed.

Lemma quiet_setCache key agent value : quiet (setCache key agent value).
Proof.
  unfold setCache.
  apply quiet_bind; [apply quiet_ensureConnection|]. intros _.
  apply quiet_try_catch.
  - apply quiet_bind; [apply quiet_issue; discriminate|]. intros _.
    apply quiet_bind_get. intros st Hf.
    apply quiet_bind; [apply quiet_set_database | intros; apply quiet_ret|];
      assumption.
  - intros e. apply quiet_bind; [apply quiet_logError | intros; apply quiet_ret].
Qed.

Lemma quiet_fallbackSearchKnowledge E params :
  quiet (fallbackSearchKnowledge E params).
Proof.
  unfold fallbackSearchKnowledge.
  apply quiet_bind_get. intros st Hf.
  apply quiet_bind; [apply quiet_liftC| |assumption]. intros pipeline.
  apply quiet_bind; [apply quiet_issue; discriminate|]. intros _.
  apply quiet_bind_get. intros st1 Hf1. now apply quiet_liftC.
Qed.

Lemma quiet_searchKnowledge E params : quiet (searchKnowledge E params).
Proof.
  unfold searchKnowledge.
  apply quiet_bind; [apply quiet_ensureConnection|]. intros _.
  apply quiet_bind; [apply quiet_getCache|]. intros cached.
  destruct (when_truthy cached) as [value|].
  - destruct (JSON_parse_items E value); [apply quiet_ret | apply quiet_throw].
  - apply quiet_try_catch.
    + apply quiet_bind.
      * unfold search_paths. apply quiet_bind_get. intros st Hf.
        rewrite (proj2 Hf). now apply quiet_fallbackSearchKnowledge.
      * intros results. unfold cache_results.
        apply quiet_bind; [apply quiet_liftC|]. intros items.
        apply quiet_bind; [apply quiet_setCache | intros; apply quiet_ret].
    + intros e. apply quiet_bind; [apply quiet_logError | intros; apply quiet_throw].
Qed.

Lemma quiet_getCachedEmbeddings E opts : quiet (getCachedEmbeddings E opts).
Proof.
  unfold getCachedEmbeddings.
  apply quiet_bind; [apply quiet_ensureConnection|]. intros _.
  apply quiet_try_catch_modelled.
  - apply quiet_bind; [apply quiet_issue; discriminate|]. intros _.
    apply quiet_bind_get. intros st Hf.
    destruct (score_memories opts (levenshteinMatrix st) _)
      as [[[scored mat] evs]|] eqn:Hscore; [|now apply quiet_throw].
    apply quiet_bind; [apply quiet_set_matrix| |assumption]. intros _.
    apply quiet_bind; [|intros; apply quiet_ret].
    apply quiet_record_all.
    clear Hf. revert scored mat evs Hscore.
    generalize (levenshteinMatrix st).
    induction (take _ _) as [|d docs IH]; intros mat0 scored mat evs; simpl.
    + intros [= <- <- <-]. constructor.
    + destruct (score_memory opts mat0 d) as [[[x mat1] evs1]|] eqn:Hone;
        [|discriminate].
      destruct (score_memories opts mat1 docs) as [[[xs mat2] evs2]|] eqn:Hrest;
        [|discriminate].
      intros [= <- <- <-]. apply Forall_app. split; [|eapply IH; eassumption].
      unfold score_memory in Hone.
      repeat match type of Hone with
             | match ?x with _ => _ end = _ => destruct x
             end;
        try discriminate; injection Hone as <- <- <-;
        repeat constructor; intros c; discriminate.
  - intros e. apply quiet_bind; [apply quiet_logError | intros; apply quiet_ret].
Qed.

(** X11: on a connected adapter whose capability flag is fallback-only,
    [searchMemories], [searchKnowledge], [createMemory] and
    [getCachedEmbeddings] send no native vector-search request, and leave
    the adapter connected and fallback-only. *)
Theorem fallback_only_sends_no_native_request (E : Runtime) (st : Adapter) :
  isConnected st = true -> hasVectorSearch st = false ->
  (forall params, quiet_at st (searchMemories E params)) /\
  (forall params, quiet_at st (searchKnowledge E params)) /\
  (forall memory tableName, quiet_at st (createMemory E memory tableName)) /\
  (forall opts, quiet_at st (getCachedEmbeddings E opts)).
Proof.
  intros Hc Hv. assert (Hf : fallback_only st) by (split; assumption).
  split; [|split; [|split]].
  - intros params. apply (quiet_searchMemories E params st Hf).
  - intros params. apply (quiet_searchKnowledge E params st Hf).
  - intros memory tableName. apply (quiet_createMemory E memory tableName st Hf).
  - intros opts. apply (quiet_getCachedEmbeddings E opts st Hf).
Qed.

Lemma fallback_only_sends_no_native_request_witness :
  quiet_at (connected false (store_of [orthogonal_memory] demo_documents))
    (searchKnowledge literal_runtime demo_knowledge_search).
Proof.
  apply (fallback_only_sends_no_native_request literal_runtime
           (connected false (store_of [orthogonal_memory] demo_documents))
           eq_refl eq_refl).
Defined.

(** ** Reading memories back *)

Lemma searchMemoriesFallback_framed E emb query limit st :
  isConnected st = true ->
  framed st (snd (searchMemoriesFallback E emb query limit st)).
Proof.
  intros Hc. unfold searchMemoriesFallback, bindM.
  rewrite (ensureConnection_connected st Hc), issue_run.
  destruct (fails (database st) (Find Memories)); [apply framed_events|].
  unfold getM, liftC. simpl.
  destruct (mapC (with_similarity _) _); [|apply framed_events].
  destruct (mapC _ _); apply framed_events.
Qed.

Lemma searchMemories_framed E params st :
  isConnected st = true -> framed st (snd (searchMemories E params st)).
Proof.
  intros Hc. unfold searchMemories, bindM at 1.
  rewrite (ensureConnection_connected st Hc).
  unfold bindM at 1, getM at 1.
  destruct (hasVectorSearch st) eqn:Hv.
  - unfold try_catch, bindM at 1. rewrite issue_run.
    destruct (fails (database st) (VectorSearch Memories)).
    + unfold bindM, logError, record, record_all.
      eapply framed_trans; [|apply searchMemoriesFallback_framed; exact Hc].
      repeat split.
    + unfold bindM, getM, liftC. simpl.
      destruct (mapC _ _); [apply framed_events|].
      unfold logError, record, record_all.
      eapply framed_trans; [|apply searchMemoriesFallback_framed; exact Hc].
      repeat split.
  - apply searchMemoriesFallback_framed, Hc.
Qed.

Lemma find_app_last {A} (f : A -> bool) l x :
  (forall y, In y l -> f y = false) -> f x = true ->
  List.find f (l ++ [x]) = Some x.
Proof.
  intros Hl Hx. induction l as [|y l IH]; simpl.
  - now rewrite Hx.
  - rewrite (Hl y (or_introl eq_refl)). apply IH.
    intros z Hz. apply Hl. now right.
Qed.

Lemma spread_with_content_object c :
  exists fields, spread_with_content c = JObj fields.
Proof. destruct c; simpl; eauto. Qed.

(** X12: a memory that [createMemory] has inserted is what
    [getMemoryById] returns for its id, when no older memory has that id:
    the document built from the memory, its content an object that also
    holds the original content under the key [content]. *)
Theorem createMemory_then_getMemoryById (E : Runtime) (memory : Memory)
    (tableName : string) (st : Adapter) :
  isConnected st = true ->
  (forall d, fails (database st) (InsertOne d) = false) ->
  fails (database st) (FindOne Memories) = false ->
  (forall d, In d (memories (database st)) ->
     m_id d <> match id memory with Some i => i | None => next_uuid (database st) end) ->
  (embedding memory = None \/
   exists emb hits st1,
     embedding memory = Some emb /\
     searchMemories E (dedup_search memory tableName emb) st = (Resolved hits, st1)) ->
  exists isUnique,
    fst (getMemoryById E
           match id memory with Some i => i | None => next_uuid (database st) end
           (snd (createMemory E memory tableName st)))
    = Resolved (Some (memory_document memory tableName isUnique (database st))).
Proof.
  intros Hc Hins Hfind Hfresh Hsearch.
  assert (Hafter : exists isUnique st1,
            framed st st1 /\
            snd (createMemory E memory tableName st)
            = with_database
                (with_memories
                   (memories (database st1)
                    ++ [memory_document memory tableName isUnique (database st1)])
                   (database st1))
                (with_events
                   (events st1
                    ++ [Issued (InsertOne
                                  (memory_document memory tableName isUnique
                                     (database st1)))]) st1)).
  { rewrite (createMemory_run E memory tableName st Hc). cbv zeta.
    destruct Hsearch as [Hemb|(emb & hits & st1 & Hemb & Hrun)].
    - rewrite Hemb, Hins. exists true, st. split; [apply framed_refl | reflexivity].
    - pose proof (searchMemories_framed E (dedup_search memory tableName emb) st Hc)
        as Hfr.
      rewrite Hemb, Hrun. rewrite Hrun in Hfr. simpl in Hfr.
      destruct Hfr as (Hc1 & Hv1 & Hdb1).
      rewrite Hdb1, Hins. exists (length hits =? 0), st1.
      split; [repeat split; assumption|]. now rewrite Hdb1. }
  destruct Hafter as (isUnique & st1 & (Hc1 & _ & Hdb1) & ->).
  exists isUnique. rewrite Hdb1.
  unfold getMemoryById, bindM at 1.
  rewrite ensureConnection_connected by (simpl; congruence).
  unfold bindM at 1. rewrite issue_run. simpl database. simpl fails.
  rewrite Hfind. unfold bindM, getM.
  cbn [database memories with_database with_memories with_events fst snd].
  rewrite (find_app_last _ _ (memory_document memory tableName isUnique (database st))).
  - destruct (spread_with_content_object (content memory)) as [fields Hobj].
    unfold normalize_content, memory_document. cbn [m_content].
    rewrite Hobj. reflexivity.
  - intros y Hy. apply String.eqb_neq. now apply Hfresh.
  - simpl. apply String.eqb_refl.
Qed.

Lemma createMemory_then_getMemoryById_witness :
  exists isUnique,
    fst (getMemoryById literal_runtime "m-9"
           (snd (createMemory literal_runtime (demo_memory None) "messages"
                   (connected false (store_of [orthogonal_memory] [])))))
    = Resolved (Some (memory_document (demo_memory None) "messages" isUnique
                        (store_of [orthogonal_memory] []))).
Proof.
  apply (createMemory_then_getMemoryById literal_runtime (demo_memory None)
           "messages" (connected false (store_of [orthogonal_memory] []))
           eq_refl (fun _ => eq_refl) eq_refl).
  - intros d [<-|[]]. discriminate.
  - left. reflexivity.
Defined.

(** X13: every memory [getMemoriesByRoomIds] returns is of one of the
    given rooms, of the agent, and of the table, which is ["messages"] when
    the table name is empty; with no room it returns nothing. *)
Theorem getMemoriesByRoomIds_scoped (E : Runtime) (params : RoomIdsParams)
    (st st' : Adapter) (found : list MemoryDoc) :
  getMemoriesByRoomIds E params st = (Resolved found, st') ->
  (forall d, In d found ->
     In (m_roomId d) (ri_roomIds params) /\
     m_agentId d = ri_agentId params /\
     m_type d = if String.eqb (ri_tableName params) "" then "messages"
                else ri_tableName params) /\
  (ri_roomIds params = [] -> found = []).
Proof.
  unfold getMemoriesByRoomIds, bindM at 1.
  destruct (ensureConnection st) as [[[]|e0] st0]; [|discriminate].
  unfold bindM at 1. rewrite issue_run.
  destruct (fails (database st0) (Find Memories)); [discriminate|].
  unfold bindM, getM, liftC. simpl database.
  destruct (mapC _ _) as [found'|] eqn:Hmap; [|discriminate].
  intros [= -> _]. apply mapC_resolved in Hmap. split.
  - intros d Hin.
    destruct (Forall2_In_r _ _ _ _ Hmap Hin) as (d0 & Hd0 & Hparse).
    apply filter_In in Hd0. destruct Hd0 as [_ Hsel].
    unfold in_rooms in Hsel. rewrite !andb_true_iff in Hsel.
    destruct Hsel as [[Ht Ha] Hr].
    apply String.eqb_eq in Ht, Ha. apply existsb_exists in Hr.
    destruct Hr as (r & Hr & Heq). apply String.eqb_eq in Heq.
    unfold parse_memory in Hparse.
    destruct (normalize_content E (m_content d0)); [|discriminate].
    injection Hparse as <-. simpl. unfold truthy in Ht.
    split; [now rewrite Heq|]. split; [assumption|].
    rewrite Ht. now destruct (String.eqb (ri_tableName params) "").
  - intros Hnone.
    assert (Hempty : forall t l, List.filter (in_rooms params t) l = []).
    { intros t l. induction l as [|x l IH]; simpl; [reflexivity|].
      unfold in_rooms at 1. rewrite Hnone. simpl. now rewrite andb_false_r. }
    rewrite Hempty in Hmap. now inversion Hmap.
Qed.

Lemma getMemoriesByRoomIds_scoped_witness :
  (forall d, In d [orthogonal_memory] ->
     In (m_roomId d) ["room-0"; "room-1"] /\
     m_agentId d = "agent-1" /\ m_type d = "messages") /\
  (["room-0"; "room-1"] = [] -> [orthogonal_memory] = []).
Proof.
  apply (getMemoriesByRoomIds_scoped literal_runtime
           {| ri_agentId := "agent-1"; ri_roomIds := ["room-0"; "room-1"];
              ri_tableName := "" |}
           (connected false (store_of [orthogonal_memory] []))
           (with_events [Issued (Find Memories)]
              (connected false (store_of [orthogonal_memory] [])))
           [orthogonal_memory]).
  reflexivity.
Defined.

(** ** Writing and reading knowledge *)

Lemma createKnowledge_run stringify dup item st :
  isConnected st = true ->
  fails (database st) (UpdateOne Knowledge) = false ->
  createKnowledge stringify dup item st
  = (Resolved tt,
     with_database
       (with_knowledge
          (insert_if_absent (knowledge_document stringify item (database st))
             (knowledge (database st)))
          (database st))
       (with_events (events st ++ [Issued (UpdateOne Knowledge)]) st)).
Proof.
  intros Hc Hok. unfold createKnowledge, bindM at 1.
  rewrite (ensureConnection_connected st Hc).
  unfold try_catch, bindM at 1, getM at 1, bindM at 1.
  rewrite issue_run, Hok. reflexivity.
Qed.

Lemma insert_if_absent_present doc l :
  (exists d, In d l /\ k_id d = k_id doc) -> insert_if_absent doc l = l.
Proof.
  intros (d & Hin & Hid). unfold insert_if_absent.
  replace (existsb _ l) with true; [reflexivity|].
  symmetry. apply existsb_exists. exists d. split; [assumption|].
  now apply String.eqb_eq.
Qed.

Lemma insert_if_absent_has doc l :
  exists d, In d (insert_if_absent doc l) /\ k_id d = k_id doc.
Proof.
  unfold insert_if_absent.
  destruct (existsb _ l) eqn:Hex.
  - apply existsb_exists in Hex. destruct Hex as (d & Hin & Heq).
    apply String.eqb_eq in Heq. eauto.
  - exists doc. split; [|reflexivity]. apply in_or_app. right. now left.
Qed.

(** X14: [createKnowledge] never changes or removes a stored document, and
    the first write of an id wins: a second [createKnowledge] with the same
    id resolves and leaves the [knowledge] collection as it was. *)
Theorem createKnowledge_first_write_wins
    (stringify : KnowledgeContent -> string) (dup : Error -> bool)
    (a b : KnowledgeInput) (st : Adapter) :
  isConnected st = true ->
  fails (database st) (UpdateOne Knowledge) = false ->
  in_id b = in_id a ->
  (exists added,
     knowledge (database (snd (createKnowledge stringify dup a st)))
     = knowledge (database st) ++ added) /\
  fst (createKnowledge stringify dup b (snd (createKnowledge stringify dup a st)))
    = Resolved tt /\
  knowledge (database
               (snd (createKnowledge stringify dup b
                       (snd (createKnowledge stringify dup a st)))))
  = knowledge (database (snd (createKnowledge stringify dup a st))).
Proof.
  intros Hc Hok Hid.
  rewrite (createKnowledge_run stringify dup a st Hc Hok).
  cbn [snd]. split.
  - cbn [database with_database knowledge with_knowledge].
    unfold insert_if_absent. destruct (existsb _ _).
    + exists []. now rewrite app_nil_r.
    + eauto.
  - rewrite createKnowledge_run by assumption.
    cbn [fst snd database with_database knowledge with_knowledge with_events].
    split; [reflexivity|].
    apply insert_if_absent_present.
    destruct (insert_if_absent_has
                (knowledge_document stringify a (database st))
                (knowledge (database st))) as (d & Hin & Hd).
    exists d. split; [assumption|]. rewrite Hd. simpl. now symmetry.
Qed.

Lemma createKnowledge_first_write_wins_witness :
  map k_id
    (knowledge (database
       (snd (createKnowledge text_only (fun _ => false) (demo_item "k-1")
               (snd (createKnowledge text_only (fun _ => false) (demo_item "k-1")
                       (connected false (store_of [] []))))))))
  = ["k-1"].
Proof.
  destruct (createKnowledge_first_write_wins text_only (fun _ => false)
              (demo_item "k-1") (demo_item "k-1")
              (connected false (store_of [] [])) eq_refl eq_refl eq_refl)
    as (_ & _ & Hsame).
  rewrite Hsame. reflexivity.
Defined.

(** X15: the document [createKnowledge] builds stores its content as a
    string, so the scoring pipeline finds in it neither a text nor
    metadata: its keyword score is the text factor for the empty text times
    1.0, whatever the text and the chunk and main marks of the item. *)
Theorem created_knowledge_gets_no_boost (E : Runtime)
    (stringify : KnowledgeContent -> string) (item : KnowledgeInput)
    (db : Store) (searchText : option string)
    (keyword : KnowledgeDoc -> Completion float) :
  calculateKeywordScore E searchText = Resolved keyword ->
  keyword (knowledge_document stringify item db)
  = Resolved
      ((if match when_truthy searchText with
            | Some q => regexMatch E (toLowerCase q) ""
            | None => false
            end
        then 3.0 else 1.0) * 1.0)%float.
Proof.
  unfold calculateKeywordScore.
  destruct (when_truthy searchText) as [q|].
  - destruct (RegExp_valid E (toLowerCase q)); [|discriminate].
    intros [= <-]. reflexivity.
  - intros [= <-]. reflexivity.
Qed.

Lemma created_knowledge_gets_no_boost_witness :
  match calculateKeywordScore literal_runtime (Some "hello") with
  | Resolved keyword =>
      keyword (knowledge_document text_only (demo_item "k-1") (store_of [] []))
  | Rejected e => Rejected e
  end = Resolved 1%float.
Proof.
  exact (created_knowledge_gets_no_boost literal_runtime text_only
             (demo_item "k-1") (store_of [] []) (Some "hello")
             (fun d =>
                match bson_toLower (bson_path (k_content d) ["text"]) with
                | Rejected e => Rejected e
                | Resolved input =>
                    Resolved
                      ((if regexMatch literal_runtime (toLowerCase "hello") input
                        then 3.0 else 1.0) * structure_boost d)%float
                end) eq_refl).
Defined.

Lemma filter_app_fresh {A} (f : A -> bool) l x :
  (forall y, In y l -> f y = false) -> f x = true ->
  List.filter f (l ++ [x]) = [x].
Proof.
  intros Hl Hx. induction l as [|y l IH]; simpl.
  - now rewrite Hx.
  - rewrite (Hl y (or_introl eq_refl)). apply IH.
    intros z Hz. apply Hl. now right.
Qed.

Lemma limit_or_all_singleton {A} limit (x : A) : limit_or_all limit [x] = [x].
Proof. destruct limit as [[|[|n]]|]; reflexivity. Qed.

(** X16: a knowledge item written by [createKnowledge] under an id that
    was free is what [getKnowledge] returns for this id and agent: one
    item, whose content is what [JSON.parse] makes of the stored string. *)
Theorem createKnowledge_then_getKnowledge (E : Runtime)
    (stringify : KnowledgeContent -> string) (dup : Error -> bool)
    (item : KnowledgeInput) (st : Adapter) (agent : string)
    (limit : option nat) (query : option string) (v : JSValue) (s : string) :
  isConnected st = true ->
  fails (database st) (UpdateOne Knowledge) = false ->
  fails (database st) (Find Knowledge) = false ->
  (forall d, In d (knowledge (database st)) -> k_id d <> in_id item) ->
  in_id item <> "" ->
  in_agentId item = Some agent ->
  k_content (knowledge_document stringify item (database st)) = JStr s ->
  JSON_parse E s = Some v ->
  fst (getKnowledge E
         {| gk_id := Some (in_id item); gk_agentId := agent;
            gk_limit := limit; gk_query := query |}
         (snd (createKnowledge stringify dup item st)))
  = Resolved
      [{| i_id := in_id item;
          i_agentId := Some agent;
          i_content := v;
          i_embedding := option_map (map (fround E)) (in_embedding item);
          i_createdAt :=
            k_createdAt (knowledge_document stringify item (database st)) |}].
Proof.
  intros Hc Hupd Hfind Hfresh Hid Hagent Hstored Hparse.
  rewrite (createKnowledge_run stringify dup item st Hc Hupd). cbn [snd].
  unfold getKnowledge, bindM at 1.
  rewrite ensureConnection_connected by exact Hc.
  unfold bindM at 1. rewrite issue_run.
  cbn [database with_database with_events fails with_knowledge].
  rewrite Hfind. unfold bindM, getM, liftC.
  cbn [database with_database with_events knowledge with_knowledge fst snd].
  assert (Habsent : insert_if_absent
                      (knowledge_document stringify item (database st))
                      (knowledge (database st))
                    = knowledge (database st)
                      ++ [knowledge_document stringify item (database st)]).
  { unfold insert_if_absent.
    replace (existsb _ _) with false; [reflexivity|].
    symmetry. apply not_true_is_false. intros Hex.
    apply existsb_exists in Hex. destruct Hex as (d & Hin & Heq).
    apply String.eqb_eq in Heq. exact (Hfresh d Hin Heq). }
  rewrite Habsent, filter_app_fresh, limit_or_all_singleton.
  - simpl mapC. unfold to_knowledge_item, normalize_content.
    rewrite Hstored, Hparse. cbn [k_id k_agentId k_embedding knowledge_document].
    rewrite Hagent. reflexivity.
  - intros d Hin. unfold knowledge_selected. cbn [gk_id gk_agentId].
    unfold when_truthy, truthy.
    destruct (String.eqb_spec (in_id item) ""); [contradiction|]. simpl.
    replace (String.eqb (k_id d) (in_id item)) with false;
      [apply andb_false_r|].
    symmetry. apply String.eqb_neq. now apply Hfresh.
  - unfold knowledge_selected. cbn [gk_id gk_agentId k_agentId k_id knowledge_document].
    rewrite Hagent, String.eqb_refl. unfold when_truthy, truthy.
    destruct (String.eqb_spec (in_id item) ""); [contradiction|]. simpl.
    apply String.eqb_refl.
Qed.

Lemma createKnowledge_then_getKnowledge_witness :
  fst (getKnowledge text_runtime
         {| gk_id := Some "k-1"; gk_agentId := "agent-1";
            gk_limit := Some 5; gk_query := None |}
         (snd (createKnowledge text_only (fun _ => false) (demo_item "k-1")
                 (connected false (store_of [] [])))))
  = Resolved
      [{| i_id := "k-1"; i_agentId := Some "agent-1";
          i_content := JObj [("text", JStr "say hello")];
          i_embedding := Some [0; 1]%float;
          i_createdAt := TsNumber 1000 |}].
Proof.
  apply (createKnowledge_then_getKnowledge text_runtime text_only (fun _ => false)
           (demo_item "k-1") (connected false (store_of [] [])) "agent-1"
           (Some 5) None (JObj [("text", JStr "say hello")]) "say hello"
           eq_refl eq_refl eq_refl).
  - intros d [].
  - discriminate.
  - reflexivity.
  - reflexivity.
  - reflexivity.
Defined.

(** ** The result cache as a store of values *)

Lemma getCache_value key agent st :
  isConnected st = true ->
  fails (database st) (FindOne Cache) = false ->
  fst (getCache key agent st)
  = Resolved (option_map c_value
                (List.find (cache_hit key agent (now (database st)))
                   (cache (database st)))).
Proof. intros Hc Hf. now rewrite (getCache_run key agent st Hc), Hf. Qed.

(** X17: on a connected adapter, [setCache] never rejects. When the store
    accepts the write it returns [true], and [getCache] for the same key
    and agent then returns the value until 24 hours have passed; when the
    store fails the write it returns [false] and the cache is as it was. *)
Theorem setCache_then_getCache (key agent value : string) (st : Adapter) (t : Z) :
  isConnected st = true ->
  fails (database st) (FindOne Cache) = false ->
  (fails (database st) (UpdateOne Cache) = false ->
   fst (setCache key agent value st) = Resolved true /\
   ((t < now (database st) + cache_ttl)%Z ->
    fst (getCache key agent (at_time t (snd (setCache key agent value st))))
    = Resolved (Some value))) /\
  (fails (database st) (UpdateOne Cache) = true ->
   fst (setCache key agent value st) = Resolved false /\
   cache (database (snd (setCache key agent value st))) = cache (database st)).
Proof.
  intros Hc Hfind. rewrite (setCache_run key agent value st Hc). split.
  - intros ->. split; [reflexivity|]. intros Ht. cbn [snd].
    rewrite getCache_value by assumption.
    cbn [database at_time with_database with_events cache with_cache now].
    destruct (find_upsert_fresh key agent value (now (database st)) t
                (cache (database st)) Ht) as (entry & -> & <- & _).
    reflexivity.
  - intros ->. split; reflexivity.
Qed.

Lemma setCache_then_getCache_witness :
  fst (getCache "k1" "agent-1"
         (at_time 2000
            (snd (setCache "k1" "agent-1" "new" (connected false demo_cache_store)))))
  = Resolved (Some "new").
Proof.
  destruct (setCache_then_getCache "k1" "agent-1" "new"
              (connected false demo_cache_store) 2000 eq_refl eq_refl)
    as [Hok _].
  destruct (Hok eq_refl) as [_ Hget]. apply Hget. reflexivity.
Defined.

Lemma find_upsert_other key agent key' agent' value t0 t l :
  (key', agent') <> (key, agent) ->
  List.find (cache_hit key' agent' t) (upsert_cache key agent value t0 l)
  = List.find (cache_hit key' agent' t) l.
Proof.
  intros Hne.
  assert (Hmiss : forall c, same_cache_key key agent c = true ->
                    same_cache_key key' agent' c = false).
  { intros c Hsame. unfold same_cache_key in *.
    apply andb_true_iff in Hsame as [Hk Ha].
    apply String.eqb_eq in Hk, Ha.
    destruct (String.eqb_spec (c_key c) key'),
             (String.eqb_spec (c_agentId c) agent'); try reflexivity.
    exfalso. apply Hne. congruence. }
  induction l as [|c l IH]; simpl.
  - rewrite same_cache_key_hit.
    rewrite (Hmiss {| c_key := key; c_agentId := agent; c_value := value;
                      c_createdAt := t0; c_expiresAt := (t0 + cache_ttl)%Z |});
      [reflexivity|].
    unfold same_cache_key. simpl. now rewrite !String.eqb_refl.
  - destruct (same_cache_key key agent c) eqn:Hsame; simpl.
    + rewrite !same_cache_key_hit.
      rewrite (Hmiss c Hsame).
      rewrite (Hmiss {| c_key := c_key c; c_agentId := c_agentId c;
                        c_value := value; c_createdAt := t0;
                        c_expiresAt := (t0 + cache_ttl)%Z |} Hsame).
      reflexivity.
    + now rewrite IH.
Qed.

(** X18: [setCache] for one key and agent leaves what [getCache] returns
    for every other key or agent as it was. *)
Theorem setCache_isolated (key agent value key' agent' : string) (st : Adapter) :
  isConnected st = true ->
  (key', agent') <> (key, agent) ->
  fst (getCache key' agent' (snd (setCache key agent value st)))
  = fst (getCache key' agent' st).
Proof.
  intros Hc Hne. rewrite (setCache_run key agent value st Hc).
  destruct (fails (database st) (UpdateOne Cache)) eqn:Hupd; cbn [snd];
    rewrite !getCache_run by exact Hc; cbn [fst database with_events with_database
                                              fails with_cache cache now];
    [reflexivity|].
  now rewrite find_upsert_other.
Qed.

Lemma setCache_isolated_witness :
  fst (getCache "k2" "agent-1"
         (snd (setCache "k1" "agent-1" "new" (connected false demo_cache_store))))
  = fst (getCache "k2" "agent-1" (connected false demo_cache_store)).
Proof.
  apply (setCache_isolated "k1" "agent-1" "new" "k2" "agent-1"
           (connected false demo_cache_store) eq_refl).
  discriminate.
Defined.

Lemma upsert_cache_keys key agent value t l :
  map cache_key_of (upsert_cache key agent value t l)
  = if existsb (same_cache_key key agent) l
    then map cache_key_of l
    else map cache_key_of l ++ [(key, agent)].
Proof.
  induction l as [|c l IH]; simpl; [reflexivity|].
  destruct (same_cache_key key agent c); simpl; [reflexivity|].
  rewrite IH. now destruct (existsb _ l).
Qed.

(** X19: [setCache] keeps the cache free of duplicates: when no two
    entries share key and agent before the call, none do after it; an
    entry that exists is overwritten in place, and a new one adds exactly
    one entry. *)
Theorem setCache_keeps_keys_unique (key agent value : string) (st : Adapter) :
  isConnected st = true ->
  NoDup (map cache_key_of (cache (database st))) ->
  NoDup (map cache_key_of (cache (database (snd (setCache key agent value st))))) /\
  length (cache (database (snd (setCache key agent value st))))
  = if fails (database st) (UpdateOne Cache)
       || existsb (same_cache_key key agent) (cache (database st))
    then length (cache (database st))
    else S (length (cache (database st))).
Proof.
  intros Hc Hnodup. rewrite (setCache_run key agent value st Hc).
  destruct (fails (database st) (UpdateOne Cache)); cbn [snd orb];
    cbn [database with_events with_database with_cache cache];
    [split; [assumption | reflexivity]|].
  pose proof (upsert_cache_keys key agent value (now (database st))
                (cache (database st))) as Hkeys.
  split.
  - rewrite Hkeys. destruct (existsb _ _) eqn:Hex; [assumption|].
    apply NoDup_app. split; [assumption|]. split; [|apply NoDup_singleton].
    intros p Hp Hp'. apply list_elem_of_singleton in Hp'. subst p.
    apply list_elem_of_In, in_map_iff in Hp. destruct Hp as (c & Hkey & Hin).
    assert (Hsame : same_cache_key key agent c = true).
    { unfold same_cache_key. unfold cache_key_of in Hkey.
      injection Hkey as -> ->. now rewrite !String.eqb_refl. }
    assert (existsb (same_cache_key key agent) (cache (database st)) = true)
      by (apply existsb_exists; eauto).
    congruence.
  - rewrite <- (length_map cache_key_of), Hkeys.
    destruct (existsb _ _); [apply length_map|].
    rewrite length_app, length_map. simpl. lia.
Qed.

Lemma setCache_keeps_keys_unique_witness :
  NoDup (map cache_key_of
           (cache (database (snd (setCache "k1" "agent-1" "new"
                                    (connected false demo_cache_store)))))) /\
  length (cache (database (snd (setCache "k1" "agent-1" "new"
                                  (connected false demo_cache_store)))))
  = 2.
Proof.
  apply (setCache_keeps_keys_unique "k1" "agent-1" "new"
           (connected false demo_cache_store) eq_refl).
  vm_compute. apply NoDup_cons. split.
  - intros Hin. apply list_elem_of_singleton in Hin. discriminate.
  - apply NoDup_singleton.
Defined.

(** ** Knowledge search: cache key, failures and scope *)

(** X20: the cache key of [searchKnowledge] holds only the agent and the
    query text. After a call that computed and cached a result, a call
    within 24 hours for the same agent and text returns that cached
    result, whatever its query vector, threshold and count are, and sends
    the store nothing but the cache lookup. *)
Theorem searchKnowledge_cache_ignores_vector (E : Runtime)
    (params params' : SearchKnowledgeParams) (st st1 : Adapter)
    (results : list ScoredKnowledge) (items : list RAGKnowledgeItem) (t1 : Z) :
  isConnected st = true ->
  fails (database st) (FindOne Cache) = false ->
  fails (database st) (UpdateOne Cache) = false ->
  List.find (cache_hit (cacheKey params) (kp_agentId params) (now (database st)))
    (cache (database st)) = None ->
  search_paths E params (with_events (events st ++ [Issued (FindOne Cache)]) st)
    = (Resolved results, st1) ->
  mapC (to_item E) results = Resolved items ->
  truthy (JSON_stringify_items E items) = true ->
  kp_agentId params' = kp_agentId params ->
  kp_searchText params' = kp_searchText params ->
  (t1 < now (database st) + cache_ttl)%Z ->
  searchKnowledge E params' (at_time t1 (snd (searchKnowledge E params st)))
  = (match JSON_parse_items E (JSON_stringify_items E items) with
     | Some cached => Resolved cached
     | None => Rejected SyntaxError
     end,
     with_events
       (events (at_time t1 (snd (searchKnowledge E params st)))
        ++ [Issued (FindOne Cache)])
       (at_time t1 (snd (searchKnowledge E params st)))).
Proof.
  intros Hc Hfind Hupd Hmiss Hsearch Hitems Htruthy Hagent Htext Hlt.
  pose proof (search_paths_framed E params
                (with_events (events st ++ [Issued (FindOne Cache)]) st)) as Hfr.
  rewrite Hsearch in Hfr. destruct Hfr as (Hc1 & _ & Hdb1). simpl in Hc1, Hdb1.
  rewrite (searchKnowledge_miss_run E params st results st1 items
             Hc Hfind Hupd Hmiss Hsearch Hitems).
  simpl snd.
  set (later := at_time t1 _).
  assert (Hcl : isConnected later = true) by (subst later; simpl; congruence).
  assert (Hfl : fails (database later) = fails (database st)) by reflexivity.
  assert (Hnow : now (database later) = t1) by reflexivity.
  assert (Hcache : cache (database later)
                   = upsert_cache (cacheKey params) (kp_agentId params)
                       (JSON_stringify_items E items) (now (database st))
                       (cache (database st))) by reflexivity.
  assert (Hkey : cacheKey params' = cacheKey params)
    by (unfold cacheKey; now rewrite Hagent, Htext).
  destruct (find_upsert_fresh (cacheKey params) (kp_agentId params)
              (JSON_stringify_items E items) (now (database st)) t1
              (cache (database st)) Hlt) as (entry & Hentry & Hval & _).
  rewrite (searchKnowledge_hit E params' later entry Hcl).
  - now rewrite Hval.
  - now rewrite Hfl.
  - now rewrite Hnow, Hcache, Hkey, Hagent.
  - now rewrite Hval.
Qed.

Lemma searchKnowledge_cache_ignores_vector_witness :
  fst (searchKnowledge literal_runtime demo_wide_search demo_cache_adapter)
  <> Resolved [] /\
  fst (searchKnowledge literal_runtime demo_wide_search
         (at_time 5000
            (snd (searchKnowledge literal_runtime demo_empty_search
                    demo_cache_adapter))))
  = Resolved [].
Proof.
  split; [vm_compute; discriminate|].
  rewrite (searchKnowledge_cache_ignores_vector literal_runtime
             demo_empty_search demo_wide_search demo_cache_adapter
             (with_events [Issued (FindOne Cache); Issued (Aggregate Knowledge)]
                demo_cache_adapter)
             [] [] 5000%Z eq_refl eq_refl eq_refl eq_refl eq_refl eq_refl eq_refl
             eq_refl eq_refl eq_refl).
  reflexivity.
Defined.

Lemma fallbackSearchKnowledge_failed E params st pipeline :
  getKnowledgeSearchPipeline E (hasVectorSearch st) params = Resolved pipeline ->
  fails (database st) (Aggregate Knowledge) = true ->
  fallbackSearchKnowledge E params st
  = (Rejected (StoreError (Aggregate Knowledge)),
     with_events (events st ++ [Issued (Aggregate Knowledge)]) st).
Proof.
  intros Hpipe Hagg. unfold fallbackSearchKnowledge, bindM, getM, liftC.
  now rewrite Hpipe, issue_run, Hagg.
Qed.

Lemma vectorSearchKnowledge_failed E params st pipeline :
  getKnowledgeSearchPipeline E (hasVectorSearch st) params = Resolved pipeline ->
  fails (database st) (VectorSearch Knowledge) = true ->
  vectorSearchKnowledge E params st
  = (Rejected (StoreError (VectorSearch Knowledge)),
     with_events (events st ++ [Issued (VectorSearch Knowledge)]) st).
Proof.
  intros Hpipe Hagg. unfold vectorSearchKnowledge, bindM, getM, liftC.
  now rewrite Hpipe, issue_run, Hagg.
Qed.

(** A search that rejects makes [searchKnowledge] log the error and
    reject with it. *)
Lemma searchKnowledge_search_rejected E params st e st1 :
  isConnected st = true ->
  fails (database st) (FindOne Cache) = false ->
  List.find (cache_hit (cacheKey params) (kp_agentId params) (now (database st)))
    (cache (database st)) = None ->
  search_paths E params (with_events (events st ++ [Issued (FindOne Cache)]) st)
    = (Rejected e, st1) ->
  searchKnowledge E params st
  = (Rejected e, with_events (events st1 ++ [Logged e]) st1).
Proof.
  intros Hc Hfind Hmiss Hsearch.
  rewrite (searchKnowledge_miss E params st None
             (with_events (events st ++ [Issued (FindOne Cache)]) st) Hc);
    [| now rewrite (getCache_run _ _ st Hc), Hfind, Hmiss | reflexivity].
  unfold try_catch, bindM at 1. rewrite Hsearch. reflexivity.
Qed.

(** X21: when [searchKnowledge] finds no cached result and the aggregation
    of the fallback search fails (after the native search failed, where
    the adapter uses one), the call rejects with the error of the
    aggregation, logs it last, and writes nothing to the cache. *)
Theorem searchKnowledge_failure_not_cached (E : Runtime)
    (params : SearchKnowledgeParams) (st : Adapter) pipeline :
  isConnected st = true ->
  fails (database st) (FindOne Cache) = false ->
  List.find (cache_hit (cacheKey params) (kp_agentId params) (now (database st)))
    (cache (database st)) = None ->
  getKnowledgeSearchPipeline E (hasVectorSearch st) params = Resolved pipeline ->
  (hasVectorSearch st = true ->
   fails (database st) (VectorSearch Knowledge) = true) ->
  fails (database st) (Aggregate Knowledge) = true ->
  fst (searchKnowledge E params st) = Rejected (StoreError (Aggregate Knowledge)) /\
  database (snd (searchKnowledge E params st)) = database st /\
  last (events (snd (searchKnowledge E params st)))
  = Some (Logged (StoreError (Aggregate Knowledge))) /\
  (In (Issued (UpdateOne Cache)) (events (snd (searchKnowledge E params st))) ->
   In (Issued (UpdateOne Cache)) (events st)).
Proof.
  intros Hc Hfind Hmiss Hpipe Hnative Hagg.
  set (st0 := with_events (events st ++ [Issued (FindOne Cache)]) st).
  assert (Hsearch : exists evs,
             search_paths E params st0
             = (Rejected (StoreError (Aggregate Knowledge)),
                with_events (events st0 ++ evs) st0) /\
             ~ In (Issued (UpdateOne Cache)) evs).
  { unfold search_paths, bindM at 1, getM.
    change (hasVectorSearch st0) with (hasVectorSearch st).
    destruct (hasVectorSearch st) eqn:Hv; rewrite <- Hv in Hpipe.
    - unfold try_catch.
      rewrite (vectorSearchKnowledge_failed E params st0 pipeline)
        by (try exact (Hnative eq_refl); exact Hpipe).
      unfold bindM, logError, record, record_all.
      rewrite (fallbackSearchKnowledge_failed E params _ pipeline)
        by (try exact Hagg; exact Hpipe).
      exists [Issued (VectorSearch Knowledge);
              Logged (StoreError (VectorSearch Knowledge));
              Issued (Aggregate Knowledge)].
      split.
      + cbn [events with_events]. rewrite <- !app_assoc. reflexivity.
      + simpl. intuition discriminate.
    - rewrite (fallbackSearchKnowledge_failed E params st0 pipeline)
        by (try exact Hagg; exact Hpipe).
      exists [Issued (Aggregate Knowledge)]. split; [reflexivity|].
      simpl. intuition discriminate. }
  destruct Hsearch as (evs & Hsearch & Hnone).
  rewrite (searchKnowledge_search_rejected E params st _ _ Hc Hfind Hmiss Hsearch).
  cbn [fst snd]. split; [reflexivity|]. split; [reflexivity|]. split.
  - cbn [events with_events]. apply last_snoc.
  - cbn [events with_events]. subst st0. cbn [events with_events].
    rewrite !in_app_iff. simpl. intuition discriminate.
Qed.

Lemma searchKnowledge_failure_not_cached_witness :
  fst (searchKnowledge literal_runtime demo_knowledge_search aggregate_down)
  = Rejected (StoreError (Aggregate Knowledge)) /\
  cache (database (snd (searchKnowledge literal_runtime demo_knowledge_search
                          aggregate_down))) = [].
Proof.
  destruct (getKnowledgeSearchPipeline literal_runtime false demo_knowledge_search)
    as [pipeline|] eqn:Hpipe; [|discriminate].
  destruct (searchKnowledge_failure_not_cached literal_runtime
              demo_knowledge_search aggregate_down pipeline
              eq_refl eq_refl eq_refl Hpipe ltac:(discriminate) eq_refl)
    as (Hfst & Hdb & _).
  split; [exact Hfst | now rewrite Hdb].
Defined.

(** What the search returns on an adapter without native search: accepted
    candidates the scorer built from documents in scope. *)
Lemma fallback_results E params st r st' :
  hasVectorSearch st = false ->
  search_paths E params st = (Resolved r, st') ->
  exists keyword,
    calculateKeywordScore E (kp_searchText params) = Resolved keyword /\
    forall c, In c r ->
      exists d,
        In d (knowledge (database st)) /\
        in_scope (kp_agentId params) d /\
        add_scores false (kp_embedding params) keyword (d, None) = Resolved c /\
        accepted (kp_match_threshold params) c = true.
Proof.
  intros Hv. unfold search_paths, bindM at 1, getM. rewrite Hv.
  intros Hrun. apply fallbackSearchKnowledge_resolved in Hrun.
  destruct Hrun as (pipeline & Hpipe & Hr). rewrite Hv in Hpipe.
  unfold getKnowledgeSearchPipeline in Hpipe.
  destruct (calculateKeywordScore E (kp_searchText params)) as [keyword|];
    [|discriminate].
  injection Hpipe as <-. exists keyword. split; [reflexivity|].
  destruct (mapC _ _) as [scored|] eqn:Hmap; [|discriminate].
  injection Hr as <-. intros c Hin.
  apply (Permutation_in _ (sort_by_perm _ _)) in Hin.
  apply filter_In in Hin. destruct Hin as [Hin Hacc].
  apply mapC_resolved in Hmap.
  destruct (Forall2_In_r _ _ _ _ Hmap Hin) as ([d meta] & Hd & Hc).
  unfold fallback_candidates in Hd. apply in_map_iff in Hd.
  destruct Hd as (d0 & [= <- <-] & Hd0). apply filter_In in Hd0.
  destruct Hd0 as [Hstored Hscope].
  exists d0. split; [assumption|]. split; [|auto].
  unfold in_scope. destruct (k_agentId d0); [|assumption].
  now apply String.eqb_eq.
Qed.

Lemma add_scores_doc hasVector query keyword d meta c :
  add_scores hasVector query keyword (d, meta) = Resolved c -> sk_doc c = d.
Proof.
  unfold add_scores.
  destruct (if hasVector then _ else _); [|discriminate].
  destruct (keyword d); [|discriminate]. now intros [= <-].
Qed.

(** X22: on an adapter without native search, every document the
    knowledge search returns is stored, and is the asking agent's own or a
    shared one without an agent. *)
Theorem fallback_knowledge_scoped (E : Runtime) (params : SearchKnowledgeParams)
    (st st' : Adapter) (r : list ScoredKnowledge) :
  hasVectorSearch st = false ->
  search_paths E params st = (Resolved r, st') ->
  forall c, In c r ->
    In (sk_doc c) (knowledge (database st)) /\
    in_scope (kp_agentId params) (sk_doc c).
Proof.
  intros Hv Hrun c Hin.
  destruct (fallback_results E params st r st' Hv Hrun) as (keyword & _ & Hall).
  destruct (Hall c Hin) as (d & Hstored & Hscope & Hc & _).
  apply add_scores_doc in Hc. subst d. auto.
Qed.

Lemma fallback_knowledge_scoped_witness :
  Forall (fun c => in_scope "agent-1" (sk_doc c)) demo_ranked.
Proof.
  apply Forall_forall. intros c Hin. apply list_elem_of_In in Hin.
  apply (fallback_knowledge_scoped literal_runtime demo_knowledge_search
           (connected false (store_of [] demo_documents))
           (with_events [Issued (Aggregate Knowledge)]
              (connected false (store_of [] demo_documents)))
           demo_ranked eq_refl eq_refl c Hin).
Defined.

(** X23: the native knowledge search does not filter by agent: its
    outcome is the same for every asking agent. *)
Theorem native_knowledge_search_ignores_agent (E : Runtime)
    (params params' : SearchKnowledgeParams) (st : Adapter) :
  kp_embedding params' = kp_embedding params ->
  kp_match_threshold params' = kp_match_threshold params ->
  kp_match_count params' = kp_match_count params ->
  kp_searchText params' = kp_searchText params ->
  vectorSearchKnowledge E params' st = vectorSearchKnowledge E params st.
Proof.
  intros He Ht Hn Hs.
  unfold vectorSearchKnowledge, getKnowledgeSearchPipeline, native_candidates.
  now rewrite He, Ht, Hn, Hs.
Qed.

Lemma native_knowledge_search_ignores_agent_witness :
  vectorSearchKnowledge literal_runtime demo_other_agent_search
    (connected true (store_of [] demo_documents))
  = vectorSearchKnowledge literal_runtime demo_knowledge_search
      (connected true (store_of [] demo_documents)).
Proof.
  apply (native_knowledge_search_ignores_agent literal_runtime
           demo_knowledge_search demo_other_agent_search
           (connected true (store_of [] demo_documents))
           eq_refl eq_refl eq_refl eq_refl).
Defined.

(** ** The hybrid scorer: the keyword rescue and incomplete embeddings *)

(** X24: the keyword score the pipeline computes exceeds [1.0] exactly
    when the query text matches the document's text or the document is
    marked as a chunk or as main; so the second clause of the filter
    accepts a marked document at vector score [0.3] without any text
    match. *)
Theorem keyword_rescue_iff (E : Runtime) (params : SearchKnowledgeParams)
    (hasVector : bool) (keyword : KnowledgeDoc -> Completion float)
    (candidate : KnowledgeDoc * option float) (c : ScoredKnowledge) :
  calculateKeywordScore E (kp_searchText params) = Resolved keyword ->
  add_scores hasVector (kp_embedding params) keyword candidate = Resolved c ->
  (bson_gt (keywordScore c) 1.0 = true <->
   text_matches E (kp_searchText params) (fst candidate) = true \/
   marked_chunk_or_main (fst candidate) = true) /\
  (accepted (kp_match_threshold params) c = true <->
   exists v,
     vectorScore c = Some v /\
     (bson_gte v (kp_match_threshold params) = true \/
      ((text_matches E (kp_searchText params) (fst candidate) = true \/
        marked_chunk_or_main (fst candidate) = true) /\
       bson_gte v 0.3 = true))).
Proof.
  intros Hkw Hc. destruct candidate as [d meta]. cbn [fst].
  assert (Hgt : bson_gt (keywordScore c) 1.0 = true <->
                text_matches E (kp_searchText params) d = true \/
                marked_chunk_or_main d = true).
  { unfold add_scores in Hc.
    destruct (if hasVector then _ else _) as [vs|]; [|discriminate].
    destruct (keyword d) as [ks|] eqn:Hks; [|discriminate].
    injection Hc as <-. cbn [keywordScore].
    unfold calculateKeywordScore in Hkw.
    unfold text_matches, marked_chunk_or_main.
    destruct (when_truthy (kp_searchText params)) as [text|].
    - destruct (RegExp_valid E (toLowerCase text)); [|discriminate].
      injection Hkw as <-.
      destruct (bson_toLower _) as [input|]; [|discriminate].
      injection Hks as <-. unfold structure_boost.
      destruct (regexMatch E (toLowerCase text) input);
        destruct (bson_is_true (bson_path (k_content d) ["metadata"; "isChunk"]));
        destruct (bson_is_true (bson_path (k_content d) ["metadata"; "isMain"]));
        vm_compute; intuition discriminate.
    - injection Hkw as <-. injection Hks as <-. unfold structure_boost.
      destruct (bson_is_true (bson_path (k_content d) ["metadata"; "isChunk"]));
        destruct (bson_is_true (bson_path (k_content d) ["metadata"; "isMain"]));
        vm_compute; intuition discriminate. }
  split; [exact Hgt|].
  rewrite accepted_spec. split; intros (v & Hv & Hor); exists v;
    (split; [exact Hv|]); destruct Hor as [Hor|[Hk Hor]]; auto;
    right; split; auto; apply Hgt; assumption.
Qed.

Lemma keyword_rescue_iff_witness :
  accepted 0.95
    {| sk_doc := demo_knowledge "chunk" "other" true [0%float; 1%float];
       vectorScore := Some 1%float; keywordScore := 1.5%float;
       combinedScore := Some 1.5%float |} = true.
Proof.
  destruct (calculateKeywordScore literal_runtime (Some "Hello"))
    as [keyword|] eqn:Hkw; [|discriminate].
  apply (keyword_rescue_iff literal_runtime demo_knowledge_search false keyword
           (demo_knowledge "chunk" "other" true [0%float; 1%float], None)
           _ Hkw).
  - injection Hkw as <-. reflexivity.
  - exists 1%float. split; [reflexivity|]. right. split; [|reflexivity].
    right. reflexivity.
Defined.

(** *** Not-a-number in the arithmetic of the fallback score *)

Lemma nan_add_l x y :
  Prim2SF x = S754_nan -> Prim2SF (x + y) = S754_nan.
Proof. intros H. rewrite FloatAxioms.add_spec, H. reflexivity. Qed.

Lemma nan_add_r x y :
  Prim2SF y = S754_nan -> Prim2SF (x + y) = S754_nan.
Proof.
  intros H. rewrite FloatAxioms.add_spec, H.
  destruct (Prim2SF x); reflexivity.
Qed.

Lemma nan_mul_r x y :
  Prim2SF y = S754_nan -> Prim2SF (x * y) = S754_nan.
Proof.
  intros H. rewrite FloatAxioms.mul_spec, H.
  destruct (Prim2SF x); reflexivity.
Qed.

Lemma nan_div_l x y :
  Prim2SF x = S754_nan -> Prim2SF (x / y) = S754_nan.
Proof. intros H. rewrite FloatAxioms.div_spec, H. reflexivity. Qed.

Lemma nan_div_r x y :
  Prim2SF y = S754_nan -> Prim2SF (x / y) = S754_nan.
Proof.
  intros H. rewrite FloatAxioms.div_spec, H.
  destruct (Prim2SF x); reflexivity.
Qed.

Lemma nan_eqb_l x y : Prim2SF x = S754_nan -> (x =? y)%float = false.
Proof. intros H. rewrite FloatAxioms.eqb_spec, H. reflexivity. Qed.

Lemma nan_leb_r x y : Prim2SF y = S754_nan -> (x <=? y)%float = false.
Proof.
  intros H. rewrite FloatAxioms.leb_spec, H.
  destruct (Prim2SF x); reflexivity.
Qed.

(** A positive number is a number, and is not at most zero. *)
Lemma positive_threshold t :
  bson_gt t 0 = true -> PrimFloat.is_nan t = false /\ (t <=? 0)%float = false.
Proof.
  unfold bson_gt, PrimFloat.is_nan.
  rewrite FloatAxioms.ltb_spec, FloatAxioms.leb_spec, FloatAxioms.eqb_spec.
  change (Prim2SF 0) with (S754_zero false).
  destruct (Prim2SF t) as [s|s| |s m e]; try discriminate;
    destruct s; try discriminate; intros _; unfold SFeqb, SFleb; simpl;
    rewrite ?Z.compare_refl, ?Pos.compare_cont_refl; auto.
Qed.

(** The dot product is not a number once the second array is shorter than
    the first: its missing entries read as [undefined]. *)
Lemma dotProduct_fold_nan b a :
  forall s i,
    Prim2SF s = S754_nan ->
    Prim2SF (fst (fold_left
                    (fun '(sum, i) val =>
                       ((sum + val * nth i b PrimFloat.nan)%float, S i))
                    a (s, i))) = S754_nan.
Proof.
  induction a as [|x a IH]; intros s i Hs; simpl; [assumption|].
  apply IH, nan_add_l, Hs.
Qed.

Lemma dotProduct_short_nan a b :
  length b < length a -> Prim2SF (dotProduct a b) = S754_nan.
Proof.
  unfold dotProduct. intros Hlen.
  assert (Hgen : forall a s i,
             length b < i + length a -> i <= length b ->
             Prim2SF (fst (fold_left
                             (fun '(sum, i) val =>
                                ((sum + val * nth i b PrimFloat.nan)%float, S i))
                             a (s, i))) = S754_nan).
  { clear a Hlen. induction a as [|x a IH]; intros s i Hlt Hle; simpl in *;
      [lia|].
    destruct (Nat.eq_dec i (length b)) as [->|Hne].
    - apply dotProduct_fold_nan, nan_add_r, nan_mul_r.
      rewrite nth_overflow by lia. reflexivity.
    - apply IH; lia. }
  apply Hgen; lia.
Qed.

Lemma fallbackVectorScore_short query e v :
  e <> [] -> length e < length query ->
  fallbackVectorScore query (Some e) = Resolved v ->
  Prim2SF v = S754_nan.
Proof.
  intros Hne Hlen. unfold fallbackVectorScore.
  destruct e as [|x e]; [congruence|]. cbn [length Nat.eqb].
  assert (Hdiv : Prim2SF (1 + cosineSimilarity query (x :: e)) = S754_nan).
  { apply nan_add_r. unfold cosineSimilarity.
    apply nan_div_l, dotProduct_short_nan. exact Hlen. }
  rewrite (nan_eqb_l _ 0 Hdiv). intros [= <-]. apply nan_div_r, Hdiv.
Qed.

Lemma nan_not_accepted threshold c v :
  vectorScore c = Some v -> Prim2SF v = S754_nan ->
  PrimFloat.is_nan threshold = false ->
  accepted threshold c = false.
Proof.
  intros Hv Hnan Ht. unfold accepted, bson_gte. rewrite Hv, Ht.
  change (PrimFloat.is_nan 0.3) with false.
  rewrite (nan_leb_r threshold v Hnan), (nan_leb_r 0.3 v Hnan).
  now rewrite !andb_false_r.
Qed.

Lemma zero_not_accepted threshold c :
  vectorScore c = Some 0%float -> bson_gt threshold 0 = true ->
  accepted threshold c = false.
Proof.
  intros Hv Ht. destruct (positive_threshold threshold Ht) as [Hnan Hle].
  assert (H1 : bson_gte 0 threshold = false)
    by (unfold bson_gte; rewrite Hnan, Hle; reflexivity).
  assert (H2 : bson_gte 0 0.3 = false) by reflexivity.
  unfold accepted. rewrite Hv, H1, H2. apply andb_false_r.
Qed.

(** X25: on an adapter without native search and with a positive
    threshold, the knowledge search returns no document whose embedding is
    missing, empty or shorter than the query vector: the score of the
    first two is [0], and that of the last is not a number. *)
Theorem fallback_knowledge_needs_full_embedding (E : Runtime)
    (params : SearchKnowledgeParams) (st st' : Adapter)
    (r : list ScoredKnowledge) :
  hasVectorSearch st = false ->
  bson_gt (kp_match_threshold params) 0 = true ->
  search_paths E params st = (Resolved r, st') ->
  forall c, In c r ->
    exists e,
      k_embedding (sk_doc c) = Some e /\ e <> [] /\
      length (kp_embedding params) <= length e.
Proof.
  intros Hv Ht Hrun c Hin.
  destruct (fallback_results E params st r st' Hv Hrun) as (keyword & _ & Hall).
  destruct (Hall c Hin) as (d & _ & _ & Hc & Hacc).
  pose proof (add_scores_doc _ _ _ _ _ _ Hc) as Hd. rewrite Hd.
  unfold add_scores in Hc.
  destruct (fallbackVectorScore (kp_embedding params) (k_embedding d))
    as [v|] eqn:Hscore; [|discriminate].
  destruct (keyword d) as [ks|]; [|discriminate].
  assert (Hvs : vectorScore c = Some v) by (now injection Hc as <-).
  destruct (k_embedding d) as [[|x e]|] eqn:Hemb.
  - injection Hscore as <-.
    rewrite (zero_not_accepted _ c Hvs Ht) in Hacc. discriminate.
  - exists (x :: e). split; [reflexivity|]. split; [discriminate|].
    destruct (Nat.le_gt_cases (length (kp_embedding params)) (length (x :: e)))
      as [Hle|Hlt]; [exact Hle|].
    assert (Hnan : Prim2SF v = S754_nan).
    { apply (fallbackVectorScore_short (kp_embedding params) (x :: e));
        [discriminate | exact Hlt | exact Hscore]. }
    rewrite (nan_not_accepted _ c v Hvs Hnan) in Hacc; [discriminate|].
    apply positive_threshold, Ht.
  - injection Hscore as <-.
    rewrite (zero_not_accepted _ c Hvs Ht) in Hacc. discriminate.
Qed.

Lemma fallback_knowledge_needs_full_embedding_witness :
  map (fun c => k_id (sk_doc c))
    (match fst (search_paths literal_runtime demo_knowledge_search
                  (connected false (store_of [] demo_short_documents))) with
     | Resolved r => r
     | Rejected _ => []
     end) = ["full"] /\
  Forall (fun c => exists e,
            k_embedding (sk_doc c) = Some e /\ e <> [] /\ 2 <= length e)
    (match fst (search_paths literal_runtime demo_knowledge_search
                  (connected false (store_of [] demo_short_documents))) with
     | Resolved r => r
     | Rejected _ => []
     end).
Proof.
  split; [reflexivity|].
  destruct (search_paths literal_runtime demo_knowledge_search
              (connected false (store_of [] demo_short_documents)))
    as [[r|e] st'] eqn:Hrun; [|constructor].
  apply Forall_forall. intros c Hin. apply list_elem_of_In in Hin.
  apply (fallback_knowledge_needs_full_embedding literal_runtime
           demo_knowledge_search
           (connected false (store_of [] demo_short_documents)) st' r
           eq_refl eq_refl Hrun c Hin).
Defined.

(** ** Ranking by edit distance in [getCachedEmbeddings] *)

Lemma score_memories_strings opts docs :
  forall mat,
    reachable mat ->
    Forall (fun d => is_Some (scored_field opts d)) docs ->
    exists mat',
      score_memories opts mat docs
      = Some (map (fun d => Scored (m_embedding d) (field_distance opts d)) docs,
              mat', []) /\
      reachable mat'.
Proof.
  induction docs as [|d docs IH]; intros mat Hr Hall.
  - exists mat. auto.
  - inversion Hall as [|? ? [s Hs] Hrest]; subst.
    pose proof (reachable_call mat (query_input opts) s Hr) as Hr'.
    destruct (engine_spec mat (query_input opts) s (reachable_uniform mat Hr))
      as (mat1 & Hrun & _).
    rewrite Hrun in Hr'. simpl in Hr'.
    destruct (IH mat1 Hr' Hrest) as (mat' & Hrec & Hr'').
    exists mat'. split; [|assumption].
    simpl. unfold score_memory, field_distance. unfold scored_field in *.
    destruct (js_get (m_content d) (query_field_name opts)) as [inner|];
      [|discriminate].
    destruct (js_get inner (query_field_sub_name opts)) as [[]|];
      try discriminate.
    injection Hs as ->. rewrite Hrun, Hrec. reflexivity.
Qed.

Lemma insert_by_map {A B} (f : A -> B) (before : B -> B -> bool) x l :
  insert_by before (f x) (map f l)
  = map f (insert_by (fun a b => before (f a) (f b)) x l).
Proof.
  induction l as [|y l IH]; simpl; [reflexivity|].
  destruct (before (f x) (f y)); simpl; [reflexivity|]. now rewrite IH.
Qed.

Lemma sort_by_map {A B} (f : A -> B) (before : B -> B -> bool) l :
  sort_by before (map f l)
  = map f (sort_by (fun a b => before (f a) (f b)) l).
Proof.
  induction l as [|x l IH]; simpl; [reflexivity|].
  unfold sort_by in *. simpl. now rewrite IH, insert_by_map.
Qed.

Lemma StronglySorted_app_le {A} (R : A -> A -> Prop) l1 l2 :
  StronglySorted R (l1 ++ l2) ->
  StronglySorted R l1 /\ forall x y, In x l1 -> In y l2 -> R x y.
Proof.
  induction l1 as [|a l1 IH]; simpl; intros Hs.
  - split; [constructor | tauto].
  - inversion Hs as [|? ? Hrest Hall]; subst.
    destruct (IH Hrest) as [Hs1 Hcross]. split.
    + constructor; [assumption|].
      apply List.Forall_forall. intros x Hx.
      apply (proj1 (List.Forall_forall _ _) Hall). apply in_or_app. auto.
    + intros x y [<-|Hx] Hy; [|auto].
      apply (proj1 (List.Forall_forall _ _) Hall). apply in_or_app. auto.
Qed.

Lemma Sorted_weaken {A} (R R' : A -> A -> Prop) l :
  (forall a b, R a b -> R' a b) -> Sorted R l -> Sorted R' l.
Proof.
  intros Himp. induction 1 as [|a l _ IH Hhd]; constructor; [exact IH|].
  destruct Hhd; constructor; auto.
Qed.

Lemma StronglySorted_map_le {A} (f : A -> nat) l :
  StronglySorted (fun a b => f a <= f b) l -> Sorted le (map f l).
Proof.
  induction 1 as [|a l _ IH Hall]; simpl; [constructor|].
  constructor; [assumption|].
  destruct l as [|b l]; simpl; constructor.
  inversion Hall; assumption.
Qed.

(** X26: on a connected adapter whose text search succeeds, when the
    scored field of every candidate is a string, [getCachedEmbeddings]
    resolves with the embeddings of the [query_match_count] candidates
    nearest to the query in textbook edit distance, each with that
    distance, in ascending order of distance; the scratch matrix stays one
    the engine can have produced. *)
Theorem getCachedEmbeddings_ranked (E : Runtime) (opts : CachedEmbeddingsOpts)
    (st : Adapter) :
  isConnected st = true ->
  fails (database st) TextSearch = false ->
  reachable (levenshteinMatrix st) ->
  Forall (fun d => is_Some (scored_field opts d))
    (found_memories E opts (database st)) ->
  exists chosen rest,
    fst (getCachedEmbeddings E opts st)
    = Resolved (map (fun d => Scored (m_embedding d) (field_distance opts d))
                  chosen) /\
    Permutation (chosen ++ rest) (found_memories E opts (database st)) /\
    length chosen
    = Nat.min (query_match_count opts)
        (length (found_memories E opts (database st))) /\
    Sorted le (map (field_distance opts) chosen) /\
    (forall d d', In d chosen -> In d' rest ->
       field_distance opts d <= field_distance opts d') /\
    reachable (levenshteinMatrix (snd (getCachedEmbeddings E opts st))).
Proof.
  intros Hc Hfind Hr Hall.
  set (found := found_memories E opts (database st)) in *.
  set (before := fun a b : MemoryDoc =>
                   by_levenshtein_score
                     (Scored (m_embedding a) (field_distance opts a))
                     (Scored (m_embedding b) (field_distance opts b))).
  set (sorted := sort_by before found).
  destruct (score_memories_strings opts found (levenshteinMatrix st) Hr Hall)
    as (mat' & Hscore & Hr').
  assert (Hrun : getCachedEmbeddings E opts st
                 = (Resolved
                      (map (fun d => Scored (m_embedding d) (field_distance opts d))
                         (take (query_match_count opts) sorted)),
                    with_events (events st ++ [Issued TextSearch] ++ [])
                      (with_matrix mat'
                         (with_events (events st ++ [Issued TextSearch]) st)))).
  { unfold getCachedEmbeddings, bindM at 1.
    rewrite (ensureConnection_connected st Hc).
    unfold try_catch_modelled, bindM at 1. rewrite issue_run, Hfind.
    unfold bindM at 1, getM.
    cbn [database with_events levenshteinMatrix].
    change (take (query_match_count opts * 2) _) with found.
    rewrite Hscore. unfold bindM, set_matrix, record_all, retM.
    cbn [events with_matrix with_events].
    rewrite (sort_by_map _ by_levenshtein_score found).
    fold before. fold sorted. rewrite <- fmap_take.
    rewrite app_nil_r. reflexivity. }
  assert (Htotal : forall x y, before x y = false -> before y x = true).
  { intros x y. unfold before, by_levenshtein_score.
    destruct (Nat.ltb_spec (field_distance opts y) (field_distance opts x)),
             (Nat.ltb_spec (field_distance opts x) (field_distance opts y));
      simpl; intros; try lia; congruence. }
  assert (Hsorted : StronglySorted
                      (fun a b => field_distance opts a <= field_distance opts b)
                      sorted).
  { apply Sorted_StronglySorted; [intros x y z; lia|].
    apply (Sorted_weaken (fun a b => before a b = true));
      [|apply sort_by_sorted, Htotal].
    intros a b Hab. unfold before, by_levenshtein_score in Hab.
    destruct (Nat.ltb_spec (field_distance opts b) (field_distance opts a));
      [discriminate | lia]. }
  exists (take (query_match_count opts) sorted),
         (drop (query_match_count opts) sorted).
  rewrite Hrun. cbn [fst snd levenshteinMatrix with_events with_matrix].
  rewrite take_drop. rewrite <- (take_drop (query_match_count opts) sorted) in Hsorted.
  apply StronglySorted_app_le in Hsorted. destruct Hsorted as [Hs1 Hcross].
  split; [reflexivity|]. split; [apply sort_by_perm|]. split.
  { rewrite length_take. unfold sorted.
    now rewrite (Permutation_length (sort_by_perm before found)). }
  split; [apply StronglySorted_map_le, Hs1|]. split; [exact Hcross | exact Hr'].
Qed.

Lemma getCachedEmbeddings_ranked_witness :
  fst (getCachedEmbeddings literal_runtime demo_opts
         (connected false (store_of demo_field_memories [])))
  = Resolved [Scored (Some [1%float; 0%float]) 0;
              Scored (Some [1%float; 0%float]) 3;
              Scored (Some [1%float; 0%float]) 7].
Proof.
  destruct (getCachedEmbeddings_ranked literal_runtime demo_opts
              (connected false (store_of demo_field_memories []))
              eq_refl eq_refl reachable_init)
    as (chosen & rest & Hrun & _).
  - repeat constructor; eexists; reflexivity.
  - vm_compute. reflexivity.
Defined.

Lemma getCachedEmbeddings_run E opts st :
  isConnected st = true ->
  getCachedEmbeddings E opts st
  = if fails (database st) TextSearch
    then (Resolved [],
          with_events
            (events st ++ [Issued TextSearch; Logged (StoreError TextSearch)]) st)
    else
      match score_memories opts (levenshteinMatrix st)
              (found_memories E opts (database st)) with
      | None =>
          (Rejected OutsideModel,
           with_events (events st ++ [Issued TextSearch]) st)
      | Some (scored, mat, evs) =>
          (Resolved (take (query_match_count opts)
                       (sort_by by_levenshtein_score scored)),
           with_events ((events st ++ [Issued TextSearch]) ++ evs)
             (with_matrix mat
                (with_events (events st ++ [Issued TextSearch]) st)))
      end.
Proof.
  intros Hc. unfold getCachedEmbeddings, bindM at 1.
  rewrite (ensureConnection_connected st Hc).
  unfold try_catch_modelled, bindM at 1. rewrite issue_run.
  destruct (fails (database st) TextSearch).
  - unfold bindM, logError, record, record_all, retM.
    cbn [events with_events]. now rewrite <- app_assoc.
  - unfold bindM at 1, getM. cbn [database with_events levenshteinMatrix].
    change (take (query_match_count opts * 2) _)
      with (found_memories E opts (database st)).
    destruct (score_memories _ _ _) as [[[scored mat] evs]|]; reflexivity.
Qed.

(** X27: on a connected adapter, a result of [getCachedEmbeddings] has at
    most [query_match_count] elements; when the text search fails, the
    call does not reject: it logs the error and resolves with the empty
    list, leaving the scratch matrix and the store as they were. *)
Theorem getCachedEmbeddings_bounded (E : Runtime) (opts : CachedEmbeddingsOpts)
    (st : Adapter) :
  isConnected st = true ->
  (forall r, fst (getCachedEmbeddings E opts st) = Resolved r ->
     length r <= query_match_count opts) /\
  (fails (database st) TextSearch = true ->
   fst (getCachedEmbeddings E opts st) = Resolved [] /\
   levenshteinMatrix (snd (getCachedEmbeddings E opts st)) = levenshteinMatrix st /\
   database (snd (getCachedEmbeddings E opts st)) = database st /\
   events (snd (getCachedEmbeddings E opts st))
   = events st ++ [Issued TextSearch; Logged (StoreError TextSearch)]).
Proof.
  intros Hc. rewrite (getCachedEmbeddings_run E opts st Hc).
  destruct (fails (database st) TextSearch).
  - split; [intros r [= <-]; simpl; lia|]. intros _.
    split; [reflexivity|]. split; [reflexivity|]. split; reflexivity.
  - split; [|discriminate].
    destruct (score_memories _ _ _) as [[[scored mat] evs]|]; [|discriminate].
    intros r [= <-]. apply length_take_le.
Qed.

Lemma getCachedEmbeddings_bounded_witness :
  fst (getCachedEmbeddings literal_runtime demo_opts text_search_down)
  = Resolved [].
Proof.
  destruct (getCachedEmbeddings_bounded literal_runtime demo_opts
              text_search_down eq_refl) as [_ Hfail].
  destruct (Hfail eq_refl) as [Hrun _]. exact Hrun.
Defined.

(** ** The knowledge pipeline: acceptance, order and keyword score *)



(** ** A failed native search in [searchMemories] *)

Lemma mapC_rejected {A B} (f : A -> Completion B) l e :
  mapC f l = Rejected e -> exists x, In x l /\ f x = Rejected e.
Proof.
  induction l as [|x l IH]; simpl; [discriminate|].
  destruct (f x) as [y|e'] eqn:Hfx.
  - destruct (mapC f l) as [ys|e'']; [discriminate|].
    intros [= ->]. destruct (IH eq_refl) as (x' & Hin & Hx'). eauto.
  - intros [= ->]. eauto.
Qed.

(** The errors of the fallback path: those of its own request and of the
    normalisation, never one of a native search. *)
Lemma searchMemoriesFallback_errors E emb query limit st e :
  isConnected st = true ->
  fst (searchMemoriesFallback E emb query limit st) = Rejected e ->
  e = StoreError (Find Memories) \/ e = TypeError \/ e = SyntaxError.
Proof.
  intros Hc. unfold searchMemoriesFallback, bindM at 1.
  rewrite (ensureConnection_connected st Hc).
  unfold bindM at 1. rewrite issue_run.
  destruct (fails (database st) (Find Memories)).
  { intros [= <-]. auto. }
  unfold bindM, getM, liftC. cbn [database with_events fst snd].
  destruct (mapC (with_similarity emb) _) as [scored|e1] eqn:Hscored.
  - cbn [fst]. intros Hnorm.
    destruct (mapC _ (sort_by _ scored)) as [hits|e2] eqn:Hhits;
      [discriminate|].
    injection Hnorm as ->. apply mapC_rejected in Hhits.
    destruct Hhits as ([d sim] & _ & Hd). unfold normalize_memory in Hd.
    cbn [fst snd] in Hd. unfold normalize_content in Hd.
    destruct (m_content d); try discriminate.
    destruct (JSON_parse E _); [discriminate|]. injection Hd as <-. auto.
  - cbn [fst]. intros [= <-]. apply mapC_rejected in Hscored.
    destruct Hscored as (d & _ & Hd). unfold with_similarity in Hd.
    destruct (m_embedding d); [discriminate|]. injection Hd as <-. auto.
Qed.

(** X29: while the capability flag reads native-available, a native
    vector-search request that throws is caught by [searchMemories]: the
    call completes exactly as the fallback path does, run after the
    failure is logged, and the error of the native search does not reach
    the caller. *)
Theorem searchMemories_native_failure_falls_back (E : Runtime)
    (params : SearchMemoriesParams) (st : Adapter) :
  isConnected st = true -> hasVectorSearch st = true ->
  fails (database st) (VectorSearch Memories) = true ->
  searchMemories E params st
  = searchMemoriesFallback E (sm_embedding params)
      {| q_type := sm_tableName params;
         q_roomId := Some (sm_roomId params);
         q_agentId := when_truthy (sm_agentId params);
         q_unique := sm_unique params |}
      (sm_match_count params)
      (with_events
         ((events st ++ [Issued (VectorSearch Memories)])
          ++ [Logged (StoreError (VectorSearch Memories))]) st) /\
  fst (searchMemories E params st)
  <> Rejected (StoreError (VectorSearch Memories)).
Proof.
  intros Hc Hv Hfail.
  assert (Hrun : searchMemories E params st
                 = searchMemoriesFallback E (sm_embedding params)
                     {| q_type := sm_tableName params;
                        q_roomId := Some (sm_roomId params);
                        q_agentId := when_truthy (sm_agentId params);
                        q_unique := sm_unique params |}
                     (sm_match_count params)
                     (with_events
                        ((events st ++ [Issued (VectorSearch Memories)])
                         ++ [Logged (StoreError (VectorSearch Memories))]) st)).
  { unfold searchMemories, bindM, try_catch.
    rewrite (ensureConnection_connected st Hc). unfold getM at 1. rewrite Hv.
    rewrite issue_run, Hfail. reflexivity. }
  split; [exact Hrun|]. rewrite Hrun. intros Hrej.
  apply searchMemoriesFallback_errors in Hrej; [|exact Hc].
  destruct Hrej as [H|[H|H]]; discriminate.
Qed.

Lemma searchMemories_native_failure_falls_back_witness :
  fst (searchMemories literal_runtime demo_search native_down)
  = Resolved [{| hit := orthogonal_memory; similarity := Some 0%float |}].
Proof.
  rewrite (proj1 (searchMemories_native_failure_falls_back literal_runtime
                    demo_search native_down eq_refl eq_refl eq_refl)).
  reflexivity.
Defined.
